(** * CSV-to-JSON converter: a shallow embedding and its verified properties

    The development follows the layout of the repository:
    - [JS]              the JavaScript built-ins the services rely on
                        (strings, [trim], [split], [join], objects, JSON);
    - [CSVService]      [src/services/csvService.js];
    - [Database]        the persistence sink behind [database/connection.js];
    - [UserService]     [src/services/userService.js];
    - [ReportService]   [src/services/reportService.js];
    - [ErrorHandler]    [src/middleware/errorHandler.js];
    - [ValidateRequest] the limiter of [src/middleware/validateRequest.js];
    - [UserListing], [CSVController]
                        the paged listing and the handlers of
                        [src/controllers/csvController.js];
    - [Prototypes]      [setNestedProperty] on the prototype chain.

    The first part embeds the code, function by function and under the names
    of the source; [Spec] holds the vocabulary of the statements; the modules
    named [...Facts] hold the lemmas and the theorems. *)

From Stdlib Require Import String Ascii List ZArith QArith Qabs Lia Bool Arith DecimalString.
Import ListNotations.
Close Scope Q_scope.
Open Scope string_scope.
Open Scope list_scope.
Set Warnings "-register-all".

(* ================================================================== *)
(** * JavaScript strings *)
(* ================================================================== *)

(** A JavaScript string is a sequence of UTF-16 code units.  The model keeps
    the code units below 256 and writes them as [ascii]; a [string] is the
    sequence of its code units.  The empty string is [EmptyString]. *)
Module JS.

Definition DQUOTE : ascii := ascii_of_nat 34.
Definition COMMA : ascii := ascii_of_nat 44.
Definition DOT : ascii := ascii_of_nat 46.
Definition CR : ascii := ascii_of_nat 13.
Definition LF : ascii := ascii_of_nat 10.

(** [s += c] *)
Definition push_char (s : string) (c : ascii) : string := s ++ String c EmptyString.

(** White space and line terminators as [String.prototype.trim] sees them,
    among the code units below 256: TAB, LF, VT, FF, CR, SPACE and NBSP. *)
Definition isWhiteSpace (c : ascii) : bool :=
  let n := nat_of_ascii c in
  (Nat.leb 9 n && Nat.leb n 13) || Nat.eqb n 32 || Nat.eqb n 160.

Fixpoint trimStart (s : string) : string :=
  match s with
  | EmptyString => EmptyString
  | String c s' => if isWhiteSpace c then trimStart s' else s
  end.

Fixpoint trimEnd (s : string) : string :=
  match s with
  | EmptyString => EmptyString
  | String c s' =>
      match trimEnd s' with
      | EmptyString => if isWhiteSpace c then EmptyString else String c EmptyString
      | r => String c r
      end
  end.

(** [s.trim()] *)
Definition trim (s : string) : string := trimEnd (trimStart s).

Definition isEmpty (s : string) : bool :=
  match s with EmptyString => true | _ => false end.

(** [s.split(sep)] for a one-character separator: never an empty array. *)
Fixpoint split_go (sep : ascii) (s : string) (current : string) : list string :=
  match s with
  | EmptyString => [current]
  | String c s' =>
      if Ascii.eqb c sep then current :: split_go sep s' EmptyString
      else split_go sep s' (push_char current c)
  end.

Definition split (sep : ascii) (s : string) : list string := split_go sep s EmptyString.

(** [s.includes(c)] for a one-character [c]. *)
Fixpoint contains (c : ascii) (s : string) : bool :=
  match s with
  | EmptyString => false
  | String x s' => Ascii.eqb x c || contains c s'
  end.

(** [xs.join(sep)] *)
Definition join (sep : string) (xs : list string) : string := String.concat sep xs.

(** [xs.includes(x)] on an array of strings. *)
Definition includes (xs : list string) (x : string) : bool :=
  existsb (String.eqb x) xs.

(** ASCII lower-casing, the canonicalisation the [i] flag of a regular
    expression applies to the letters [a-z]. *)
Definition toLowerAscii (c : ascii) : ascii :=
  let n := nat_of_ascii c in
  if Nat.leb 65 n && Nat.leb n 90 then ascii_of_nat (n + 32) else c.

Fixpoint lower (s : string) : string :=
  match s with
  | EmptyString => EmptyString
  | String c s' => String (toLowerAscii c) (lower s')
  end.

(** [true] when [suffix] (given in lower case) ends [s], letters compared
    without case. *)
Fixpoint endsWithCI (suffix : string) (s : string) : bool :=
  String.eqb (lower s) suffix ||
  match s with
  | EmptyString => false
  | String _ s' => endsWithCI suffix s'
  end.

(** [String(n)] for a natural number: its decimal digits. *)
Definition natToString (n : nat) : string := NilZero.string_of_uint (Nat.to_uint n).

(* ------------------------------------------------------------------ *)
(** ** Numbers *)

(** The Number type and the built-ins the services call on it.  The services
    never compute with numbers: they parse them, test them and print them, so
    the interface is what they are verified against. *)
Class JSNumber : Type := {
  number : Type;
  (** [Number(s)] *)
  Number : string -> number;
  (** [isNaN(n)] *)
  isNaN : number -> bool;
  (** [n === 0] (either zero) *)
  isZero : number -> bool;
  (** [Number.isFinite(n)] *)
  isFinite : number -> bool;
  (** [String(n)] *)
  numberToString : number -> string;
  (** an integer literal *)
  ofZ : Z -> number
}.

(* ------------------------------------------------------------------ *)
(** ** Values and objects *)

Section Values.
Context {num : JSNumber}.

(** The values a Record holds: [null], strings, numbers and nested plain
    objects.  An object is the sequence of its own properties in insertion
    order.  A Record is a tree: the mapper starts every row from a fresh [{}]
    and stores primitives and objects it has just created, so no object is
    reachable twice and an assignment in place is an update of the tree.
    What an object inherits from [Object.prototype] is not a property of the
    model; the key [__proto__], an accessor of the prototype in JavaScript,
    is outside it. *)
Inductive jsval : Type :=
| VNull
| VStr (s : string)
| VNum (n : number)
| VObj (props : list (string * jsval)).

Definition object : Type := list (string * jsval).

(** [{}] *)
Definition emptyObject : object := [].

(** [obj[key]] on own properties; [None] is [undefined]. *)
Fixpoint getProp (obj : object) (key : string) : option jsval :=
  match obj with
  | [] => None
  | (k, v) :: obj' => if String.eqb k key then Some v else getProp obj' key
  end.

(** [obj[key] = v]: an existing property keeps its place, a new one goes
    last. *)
Fixpoint setProp (obj : object) (key : string) (v : jsval) : object :=
  match obj with
  | [] => [(key, v)]
  | (k, x) :: obj' =>
      if String.eqb k key then (k, v) :: obj' else (k, x) :: setProp obj' key v
  end.

(** [delete obj[key]] *)
Definition deleteProp (obj : object) (key : string) : object :=
  filter (fun kv => negb (String.eqb (fst kv) key)) obj.

(** [v?.key]: [undefined] on [null], [undefined], strings and numbers (for
    the keys used here, which no primitive wrapper defines). *)
Definition optGet (v : option jsval) (key : string) : option jsval :=
  match v with
  | Some (VObj props) => getProp props key
  | _ => None
  end.

(** Truthiness of a value. *)
Definition truthy (v : jsval) : bool :=
  match v with
  | VNull => false
  | VStr s => negb (isEmpty s)
  | VNum n => negb (isZero n || isNaN n)
  | VObj _ => true
  end.

(** [x || dflt] where [x] may be [undefined]. *)
Definition orElse (x : option jsval) (dflt : jsval) : jsval :=
  match x with
  | Some v => if truthy v then v else dflt
  | None => dflt
  end.

(** [String(v)], the conversion a template literal applies. *)
Definition toString (v : jsval) : string :=
  match v with
  | VNull => "null"
  | VStr s => s
  | VNum n => numberToString n
  | VObj _ => "[object Object]"
  end.

End Values.

(* ------------------------------------------------------------------ *)
(** ** JSON.stringify *)

Definition BACKSLASH : ascii := ascii_of_nat 92.

Definition hexDigit (n : nat) : ascii :=
  if Nat.ltb n 10 then ascii_of_nat (48 + n) else ascii_of_nat (87 + n).

(** One code unit inside a JSON string literal. *)
Definition quoteJSONChar (c : ascii) : string :=
  let n := nat_of_ascii c in
  let esc (x : ascii) := String BACKSLASH (String x EmptyString) in
  if Nat.eqb n 8 then esc "b"%char
  else if Nat.eqb n 9 then esc "t"%char
  else if Nat.eqb n 10 then esc "n"%char
  else if Nat.eqb n 12 then esc "f"%char
  else if Nat.eqb n 13 then esc "r"%char
  else if Nat.eqb n 34 then esc DQUOTE
  else if Nat.eqb n 92 then esc BACKSLASH
  else if Nat.ltb n 32 then
    String BACKSLASH ("u00" ++ String (hexDigit (n / 16)) (String (hexDigit (n mod 16)) EmptyString))
  else String c EmptyString.

Fixpoint quoteJSONBody (s : string) : string :=
  match s with
  | EmptyString => EmptyString
  | String c s' => quoteJSONChar c ++ quoteJSONBody s'
  end.

Definition quoteJSONString (s : string) : string :=
  String DQUOTE (quoteJSONBody s ++ String DQUOTE EmptyString).

Definition isDigit (c : ascii) : bool :=
  let n := nat_of_ascii c in Nat.leb 48 n && Nat.leb n 57.

Fixpoint digitsValue (s : string) (acc : N) : option N :=
  match s with
  | EmptyString => Some acc
  | String c s' =>
      if isDigit c then digitsValue s' (10 * acc + N.of_nat (nat_of_ascii c - 48))%N
      else None
  end.

(** The array index a property key denotes, if any: a canonical decimal
    numeral below [2^32 - 1]. *)
Definition arrayIndex (key : string) : option N :=
  match key with
  | EmptyString => None
  | String c rest =>
      if Ascii.eqb c "0"%char && negb (isEmpty rest) then None
      else match digitsValue key 0%N with
           | Some n => if (n <? 4294967295)%N then Some n else None
           | None => None
           end
  end.

Fixpoint insertByIndex {A} (n : N) (x : A) (l : list (N * A)) : list (N * A) :=
  match l with
  | [] => [(n, x)]
  | (m, y) :: l' =>
      if (n <? m)%N then (n, x) :: l else (m, y) :: insertByIndex n x l'
  end.

(** Enumeration order of own properties: array indices in ascending order,
    then the other keys in insertion order. *)
Definition ownPropertyOrder {A} (members : list (string * A)) : list (string * A) :=
  let indexed :=
    fold_left (fun acc kv =>
                 match arrayIndex (fst kv) with
                 | Some n => insertByIndex n kv acc
                 | None => acc
                 end) members [] in
  map snd indexed ++
  filter (fun kv => match arrayIndex (fst kv) with Some _ => false | None => true end)
         members.

Section Stringify.
Context {num : JSNumber}.

(** [Object.keys(obj)] *)
Definition keys (obj : object) : list string := map fst (ownPropertyOrder obj).

(** [JSON.stringify(v)] without indentation. *)
Fixpoint JSON_stringify (v : jsval) : string :=
  match v with
  | VNull => "null"
  | VStr s => quoteJSONString s
  | VNum n => if isFinite n then numberToString n else "null"
  | VObj props =>
      let members :=
        (fix go (ps : list (string * jsval)) : list (string * string) :=
           match ps with
           | [] => []
           | (k, x) :: ps' => (k, JSON_stringify x) :: go ps'
           end) props in
      "{" ++ join ","
               (map (fun kv => (quoteJSONString (fst kv) ++ ":" ++ snd kv)%string)
                    (ownPropertyOrder members))
          ++ "}"
  end.

End Stringify.

(** Decimal integers, the numbers of the worked examples: [Number] reads an
    optional sign and decimal digits as JavaScript does, and answers [NaN]
    ([None]) elsewhere; the examples keep to such strings and to strings that
    are no numeric literal at all. *)
Definition intOfString (s : string) : option Z :=
  let unsigned (d : string) :=
    if isEmpty d then None
    else match digitsValue d 0%N with
         | Some n => Some (Z.of_N n)
         | None => None
         end in
  match trim s with
  | EmptyString => Some 0%Z
  | String c rest =>
      if Ascii.eqb c "-"%char then option_map Z.opp (unsigned rest)
      else if Ascii.eqb c "+"%char then unsigned rest
      else unsigned (String c rest)
  end.

Definition intToString (z : Z) : string :=
  if (z <? 0)%Z then "-" ++ natToString (Z.to_nat (- z)) else natToString (Z.to_nat z).

Definition IntegerNumbers : JSNumber := {|
  number := option Z;
  Number := intOfString;
  isNaN := fun n => match n with None => true | Some _ => false end;
  isZero := fun n => match n with Some 0%Z => true | _ => false end;
  isFinite := fun n => match n with None => false | Some _ => true end;
  numberToString := fun n => match n with None => "NaN" | Some z => intToString z end;
  ofZ := Some
|}.

End JS.

(* ================================================================== *)
(** * Errors *)
(* ================================================================== *)

(** The services throw [Error] objects that differ in their message only;
    the constructors carry what the message is built from and are named after
    the error taxonomy of the specification. *)
Inductive error : Type :=
| FileNotFound (path : string)
| NotARegularFile (path : string)
| FileTooLarge (sizeMB limitMB : Z)
| FsError (code : string)
| EmptyOrHeaderOnlyFile
| MissingRequiredHeaders (missing : list string)
| SchemaMismatch (headerCount valueCount : nat)
| PersistenceFailure (detail : string).

(** The message of the thrown [Error], for the errors of the parse. *)
Definition errorMessage (e : error) : string :=
  match e with
  | FileNotFound path => "CSV file not found at path: " ++ path
  | NotARegularFile path => "Path " ++ path ++ " is not a file"
  | FileTooLarge sizeMB limitMB =>
      "File size " ++ JS.intToString sizeMB ++ "MB exceeds limit of "
        ++ JS.intToString limitMB ++ "MB"
  | FsError code => code
  | EmptyOrHeaderOnlyFile =>
      "CSV file must contain at least a header row and one data row"
  | MissingRequiredHeaders missing =>
      "Missing required headers: " ++ JS.join ", " missing
  | SchemaMismatch headerCount valueCount =>
      "Header count (" ++ JS.natToString headerCount
        ++ ") doesn't match value count (" ++ JS.natToString valueCount ++ ")"
  | PersistenceFailure detail => detail
  end.

(** The outcome of a call that may throw. *)
Inductive result (A : Type) : Type :=
| Ok (a : A)
| Err (e : error).
Arguments Ok {A} a.
Arguments Err {A} e.

Definition bind {A B} (r : result A) (k : A -> result B) : result B :=
  match r with
  | Ok a => k a
  | Err e => Err e
  end.

Declare Scope result_scope.
Delimit Scope result_scope with result.
Notation "x <- r ;; k" := (bind r (fun x => k))
  (at level 61, r at next level, right associativity) : result_scope.
Notation "r ;;; k" := (bind r (fun _ => k))
  (at level 61, right associativity) : result_scope.

(* ================================================================== *)
(** * csvService.js: tokenizer, mapper and parse orchestrator *)
(* ================================================================== *)

Module CSVService.
Import JS.

(** [splitLines(content)]: [content.split(/\r?\n/)].  A line ends at LF, or
    at CR immediately followed by LF; a CR elsewhere stays in the line. *)
Fixpoint splitLines_go (content : string) (current : string) : list string :=
  match content with
  | EmptyString => [current]
  | String c rest =>
      if Ascii.eqb c LF then current :: splitLines_go rest EmptyString
      else
        match rest with
        | String c2 rest2 =>
            if Ascii.eqb c CR && Ascii.eqb c2 LF
            then current :: splitLines_go rest2 EmptyString
            else splitLines_go rest (push_char current c)
        | EmptyString => splitLines_go rest (push_char current c)
        end
  end.

Definition splitLines (content : string) : list string :=
  splitLines_go content EmptyString.

(** The [while (i < line.length)] loop of [parseCSVLine]; [line] is the part
    of the line from index [i] on. *)
Fixpoint parseCSVLine_loop (line : string) (result : list string)
         (current : string) (inQuotes : bool) : list string :=
  match line with
  | EmptyString => result ++ [trim current]
  | String char rest =>
      if Ascii.eqb char DQUOTE then
        match rest with
        | String next rest2 =>
            if inQuotes && Ascii.eqb next DQUOTE
            then parseCSVLine_loop rest2 result (push_char current DQUOTE) inQuotes
            else parseCSVLine_loop rest result current (negb inQuotes)
        | EmptyString => parseCSVLine_loop rest result current (negb inQuotes)
        end
      else if Ascii.eqb char COMMA && negb inQuotes then
        parseCSVLine_loop rest (result ++ [trim current]) EmptyString inQuotes
      else
        parseCSVLine_loop rest result (push_char current char) inQuotes
  end.

Definition parseCSVLine (line : string) : list string :=
  parseCSVLine_loop line [] EmptyString false.

(** Modelled from the spec: the repository has no CSV writer; the escaping of
    the round-trip property is "wrapping in double quotes and doubling
    embedded quotes". *)
Fixpoint doubleQuotes (v : string) : string :=
  match v with
  | EmptyString => EmptyString
  | String c v' =>
      if Ascii.eqb c DQUOTE then String DQUOTE (String DQUOTE (doubleQuotes v'))
      else String c (doubleQuotes v')
  end.

Definition csvEscape (v : string) : string :=
  String DQUOTE (doubleQuotes v ++ String DQUOTE EmptyString).

(* ------------------------------------------------------------------ *)
(** ** The record mapper *)

Section Mapper.
Context {num : JSNumber}.

(** [parseNumber(value)] *)
Definition parseNumber (value : string) : jsval :=
  if isEmpty value || isEmpty (trim value) then VNull
  else
    let n := Number (trim value) in
    if isNaN n then VStr value else VNum n.

(** The walk of [setNestedProperty] from [current] along [keys]: every
    segment but the last is entered, after being replaced by a fresh [{}]
    when it is absent, [null] or not an object; the last one is assigned.
    The mutated object is returned.  ([split] never returns an empty array,
    so the first case is not reached from [setNestedProperty].) *)
Fixpoint setNestedProperty_walk (current : object) (keys : list string)
         (v : jsval) : object :=
  match keys with
  | [] => current
  | key :: rest =>
      match rest with
      | [] => setProp current key v
      | _ :: _ =>
          let child :=
            match getProp current key with
            | Some (VObj props) => props
            | _ => emptyObject
            end in
          setProp current key (VObj (setNestedProperty_walk child rest v))
      end
  end.

(** [setNestedProperty(obj, path, value)] *)
Definition setNestedProperty (obj : object) (path : string) (v : jsval) : object :=
  setNestedProperty_walk obj (split DOT path) v.

(** The test [header === 'age' || /\.(age|id|count)$/i.test(header)]. *)
Definition isNumericHeader (header : string) : bool :=
  String.eqb header "age" ||
  (endsWithCI ".age" header || endsWithCI ".id" header || endsWithCI ".count" header).

(** The value stored for one column: lines 146-151 of [convertToJSON]. *)
Definition coerceValue (header value : string) : jsval :=
  if isNumericHeader header then parseNumber value else VStr value.

(** The [for] loop of [convertToJSON] over the columns left. *)
Fixpoint convertToJSON_loop (headers values : list string) (result : object) : object :=
  match headers, values with
  | header :: headers', value :: values' =>
      convertToJSON_loop headers' values'
        (setNestedProperty result header (coerceValue header value))
  | _, _ => result
  end.

(** [convertToJSON(headers, values)] *)
Definition convertToJSON (headers values : list string) : result object :=
  if negb (Nat.eqb (length headers) (length values))
  then Err (SchemaMismatch (length headers) (length values))
  else Ok (convertToJSON_loop headers values emptyObject).

End Mapper.

(* ------------------------------------------------------------------ *)
(** ** The parse orchestrator *)

Definition requiredHeaders : list string := ["name.firstName"; "name.lastName"; "age"].

(** [requiredHeaders.filter(header => !headers.includes(header))] *)
Definition missingHeaders (headers : list string) : list string :=
  filter (fun header => negb (includes headers header)) requiredHeaders.

(** [validateHeaders(headers)] *)
Definition validateHeaders (headers : list string) : result unit :=
  let missing := missingHeaders headers in
  if Nat.ltb 0 (length missing) then Err (MissingRequiredHeaders missing) else Ok tt.

(** What [fs.stat] and [fs.readFile] answer: a value, or the [code] of the
    error they reject with. *)
Inductive fsResult (A : Type) : Type :=
| FsOk (a : A)
| FsFail (code : string).
Arguments FsOk {A} a.
Arguments FsFail {A} code.

Record Stats : Type := { isFile : bool; size : Z }.

Record FileSystem : Type := {
  stat : string -> fsResult Stats;
  readFile : string -> fsResult string
}.

(** [process.env], each numeric variable already through [parseInt]
    ([None] when unset or not a number). *)
Record Env : Type := {
  CSV_FILE_PATH : option string;
  MAX_FILE_SIZE_MB : option Z;
  BATCH_SIZE : option Z
}.

(** [x || dflt] for the result of [parseInt]. *)
Definition intOr (x : option Z) (dflt : Z) : Z :=
  match x with
  | Some n => if Z.eqb n 0 then dflt else n
  | None => dflt
  end.

(** [this.csvFilePath] *)
Definition csvFilePath (env : Env) : string :=
  match CSV_FILE_PATH env with
  | Some p => if isEmpty p then "./data/users.csv" else p
  | None => "./data/users.csv"
  end.

(** [validateFile(filePath)] *)
Definition validateFile (fs : FileSystem) (env : Env) (filePath : string) : result unit :=
  match stat fs filePath with
  | FsFail code =>
      if String.eqb code "ENOENT" then Err (FileNotFound filePath) else Err (FsError code)
  | FsOk stats =>
      if negb (isFile stats) then Err (NotARegularFile filePath)
      else
        let maxSizeMB := intOr (MAX_FILE_SIZE_MB env) 100 in
        let maxSizeBytes := (maxSizeMB * 1024 * 1024)%Z in
        if (size stats >? maxSizeBytes)%Z
        then Err (FileTooLarge ((size stats + 524288) / 1048576)%Z maxSizeMB)
        else Ok tt
  end.

Section Orchestrator.
Context {num : JSNumber}.

(** The [for] loop of [parseCSVFile] over [lines[i..]]. *)
Fixpoint parseCSVFile_loop (headers : list string) (lines : list string)
         (users : list object) : result (list object) :=
  match lines with
  | [] => Ok users
  | line :: lines' =>
      if negb (isEmpty (trim line)) then
        (user <- convertToJSON headers (parseCSVLine line) ;;
         parseCSVFile_loop headers lines' (users ++ [user]))%result
      else parseCSVFile_loop headers lines' users
  end.

(** [parseCSVFile()] from the content read on: lines 21-41. *)
Definition parseContent (fileContent : string) : result (list object) :=
  let lines := splitLines fileContent in
  if Nat.ltb (length lines) 2 then Err EmptyOrHeaderOnlyFile
  else
    let headers := parseCSVLine (hd EmptyString lines) in
    (validateHeaders headers ;;;
     parseCSVFile_loop headers (tl lines) [])%result.

(** [parseCSVFile()] *)
Definition parseCSVFile (fs : FileSystem) (env : Env) : result (list object) :=
  let filePath := csvFilePath env in
  (validateFile fs env filePath ;;;
   match readFile fs filePath with
   | FsFail code => Err (FsError code)
   | FsOk fileContent => parseContent fileContent
   end)%result.

End Orchestrator.

End CSVService.

(* ================================================================== *)
(** * database/connection.js: the persistence sink *)
(* ================================================================== *)

(** [db.query(text, params)] is [pool.query]: it hands one statement to the
    store and resolves with its result or rejects with its error.  The store
    is the external collaborator of section 6 of the specification, a
    relational session with [BEGIN], [COMMIT] and [ROLLBACK] around multi-row
    inserts.  A caller that awaits each statement before sending the next is
    served, on a pool nobody else is using, by the connection it has just
    released: the statements of one call chain reach one session, one after
    the other.  What other requests interleave on the pool is outside the
    model. *)
Module Database.
Import JS.

Section Store.
Context {num : JSNumber}.

(** A row of the [users] table: the four writable columns. *)
Record UserRow : Type := {
  col_name : string;
  col_age : Z;
  col_address : option string;
  col_additional_info : option string
}.

(** The four parameters bound for one row, in column order. *)
Definition ParamRow : Type := (jsval * jsval * jsval * jsval)%type.

(** The one row the aggregate query of [getAgeStatistics] returns; an
    aggregate over no row is [NULL]. *)
Record AgeStatisticsRow : Type := {
  total_users : Z;
  under_20 : Z;
  age_20_to_40 : Z;
  age_40_to_60 : Z;
  over_60 : Z;
  average_age : option Q;
  min_age : option Z;
  max_age : option Z
}.

Inductive statement : Type :=
| BEGIN
| COMMIT
| ROLLBACK
(** [INSERT INTO users (name, age, address, additional_info) VALUES (..), ..]
    with its placeholder groups and the parameter array. *)
| INSERT_USERS (placeholders : list (nat * nat * nat * nat)) (values : list jsval)
(** the aggregate [SELECT] of [getAgeStatistics] *)
| SELECT_AGE_STATISTICS.

Inductive txState : Type :=
| Idle
| InTransaction (pending : list UserRow)
| Aborted.

(** The store: the committed table, the state of the session's transaction
    and the statements received so far. *)
Record Db : Type := {
  table : list UserRow;
  tx : txState;
  log : list statement
}.

Record QueryResult : Type := {
  rowCount : nat;
  rows : list AgeStatisticsRow
}.

(** How the store types the parameters of a row ([None]: it refuses them, as
    for an age that is no integer), and when it fails an insert for reasons
    of its own (a lost connection, an injected fault), given the statements
    so far. *)
Variable typeRow : ParamRow -> option UserRow.
Variable faulty : list statement -> bool.

(** The parameter groups a placeholder list selects; [None] when a
    placeholder has no parameter or the [VALUES] list is empty. *)
Definition resolveGroup (values : list jsval) (g : nat * nat * nat * nat)
  : option ParamRow :=
  let '(a, b, c, d) := g in
  match nth_error values (a - 1), nth_error values (b - 1),
        nth_error values (c - 1), nth_error values (d - 1) with
  | Some x, Some y, Some z, Some w =>
      if Nat.eqb a 0 || Nat.eqb b 0 || Nat.eqb c 0 || Nat.eqb d 0 then None
      else Some (x, y, z, w)
  | _, _, _, _ => None
  end.

Fixpoint allSome {A} (l : list (option A)) : option (list A) :=
  match l with
  | [] => Some []
  | Some x :: l' => match allSome l' with Some xs => Some (x :: xs) | None => None end
  | None :: _ => None
  end.

Definition insertedRows (placeholders : list (nat * nat * nat * nat))
           (values : list jsval) : option (list UserRow) :=
  match placeholders with
  | [] => None
  | _ =>
      match allSome (map (resolveGroup values) placeholders) with
      | Some params => allSome (map typeRow params)
      | None => None
      end
  end.

(** The rows a statement of the session sees. *)
Definition visibleRows (db : Db) : list UserRow :=
  match tx db with
  | InTransaction pending => table db ++ pending
  | _ => table db
  end.

Definition ageOfInterest (r : UserRow) : bool := (0 <? col_age r)%Z.

Definition countWhere (p : Z -> bool) (ages : list Z) : Z :=
  Z.of_nat (length (filter p ages)).

Definition sumZ (l : list Z) : Z := fold_right Z.add 0%Z l.

Definition minZ (l : list Z) : option Z :=
  match l with
  | [] => None
  | x :: l' => Some (fold_left Z.min l' x)
  end.

Definition maxZ (l : list Z) : option Z :=
  match l with
  | [] => None
  | x :: l' => Some (fold_left Z.max l' x)
  end.

(** The aggregate query: [COUNT], bucketed [COUNT(CASE ..)], [AVG], [MIN] and
    [MAX] over the rows [WHERE age IS NOT NULL AND age > 0].  [AVG] is the
    exact quotient (the store rounds it to 16 decimal places). *)
Definition selectAgeStatistics (users : list UserRow) : AgeStatisticsRow :=
  let ages := map col_age (filter ageOfInterest users) in
  {| total_users := Z.of_nat (length ages);
     under_20 := countWhere (fun age => age <? 20)%Z ages;
     age_20_to_40 := countWhere (fun age => (20 <=? age) && (age <? 40))%Z ages;
     age_40_to_60 := countWhere (fun age => (40 <=? age) && (age <? 60))%Z ages;
     over_60 := countWhere (fun age => 60 <=? age)%Z ages;
     average_age :=
       match ages with
       | [] => None
       | _ => Some (inject_Z (sumZ ages) / inject_Z (Z.of_nat (length ages)))%Q
       end;
     min_age := minZ ages;
     max_age := maxZ ages |}.

Definition withTx (db : Db) (t : txState) (st : statement) : Db :=
  {| table := table db; tx := t; log := log db ++ [st] |}.

Definition noRows (n : nat) : QueryResult := {| rowCount := n; rows := [] |}.

Definition queryError : error := PersistenceFailure "query failed".

(** One statement on the session. *)
Definition execute (st : statement) (db : Db) : result QueryResult * Db :=
  match st with
  | BEGIN =>
      match tx db with
      | Idle => (Ok (noRows 0), withTx db (InTransaction []) st)
      | InTransaction _ => (Ok (noRows 0), withTx db (tx db) st)
      | Aborted => (Err queryError, withTx db Aborted st)
      end
  | COMMIT =>
      match tx db with
      | InTransaction pending =>
          (Ok (noRows 0),
           {| table := table db ++ pending; tx := Idle; log := log db ++ [st] |})
      | _ => (Ok (noRows 0), withTx db Idle st)
      end
  | ROLLBACK => (Ok (noRows 0), withTx db Idle st)
  | INSERT_USERS placeholders values =>
      let failed :=
        (Err queryError,
         withTx db (match tx db with Idle => Idle | _ => Aborted end) st) in
      match tx db with
      | Aborted => failed
      | current =>
          if faulty (log db) then failed
          else
            match insertedRows placeholders values with
            | None => failed
            | Some new =>
                match current with
                | InTransaction pending =>
                    (Ok (noRows (length new)),
                     withTx db (InTransaction (pending ++ new)) st)
                | _ =>
                    (Ok (noRows (length new)),
                     {| table := table db ++ new; tx := Idle; log := log db ++ [st] |})
                end
            end
      end
  | SELECT_AGE_STATISTICS =>
      match tx db with
      | Aborted => (Err queryError, withTx db Aborted st)
      | _ =>
          (Ok {| rowCount := 1; rows := [selectAgeStatistics (visibleRows db)] |},
           withTx db (tx db) st)
      end
  end.

(** ** Calls on the store

    A call runs on a store and either returns, throws, or does not come back
    ([None]). *)
Definition DbM (A : Type) : Type := Db -> option (result A * Db).

Definition ret {A} (a : A) : DbM A := fun db => Some (Ok a, db).

Definition throw {A} (e : error) : DbM A := fun db => Some (Err e, db).

Definition diverge {A} : DbM A := fun _ => None.

Definition bindM {A B} (m : DbM A) (k : A -> DbM B) : DbM B :=
  fun db =>
    match m db with
    | Some (Ok a, db') => k a db'
    | Some (Err e, db') => Some (Err e, db')
    | None => None
    end.

(** [try { m } catch (error) { handler(error) }] *)
Definition tryCatch {A} (m : DbM A) (handler : error -> DbM A) : DbM A :=
  fun db =>
    match m db with
    | Some (Err e, db') => handler e db'
    | r => r
    end.

(** [db.query(text, params)] *)
Definition query (st : statement) : DbM QueryResult :=
  fun db => Some (execute st db).

End Store.

Declare Scope db_scope.
Delimit Scope db_scope with db.
Notation "x <- m ;; k" := (bindM m (fun x => k))
  (at level 61, m at next level, right associativity) : db_scope.
Notation "m ;;; k" := (bindM m (fun _ => k))
  (at level 61, right associativity) : db_scope.

End Database.

(* ================================================================== *)
(** * userService.js *)
(* ================================================================== *)

Module UserService.
Import JS CSVService Database.

Section Service.
Context {num : JSNumber}.
Variable typeRow : ParamRow -> option UserRow.
Variable faulty : list statement -> bool.

(** What [prepareUserData] returns: the four columns of a row. *)
Record PersistableUser : Type := {
  name : string;
  age : jsval;
  address : option string;
  additionalInfo : option string
}.

(** [prepareUserData(user)] *)
Definition prepareUserData (user : object) : PersistableUser :=
  let firstName := orElse (optGet (getProp user "name") "firstName") (VStr EmptyString) in
  let lastName := orElse (optGet (getProp user "name") "lastName") (VStr EmptyString) in
  let name := trim (toString firstName ++ " " ++ toString lastName) in
  let age := orElse (getProp user "age") (VNum (ofZ 0)) in
  let address :=
    match getProp user "address" with
    | Some a => if truthy a then Some (JSON_stringify a) else None
    | None => None
    end in
  let additionalInfo :=
    deleteProp (deleteProp (deleteProp user "name") "age") "address" in
  let additionalInfoJson :=
    if Nat.ltb 0 (length (keys additionalInfo))
    then Some (JSON_stringify (VObj additionalInfo))
    else None in
  {| name := name; age := age; address := address;
     additionalInfo := additionalInfoJson |}.

(** A nullable string as a query parameter. *)
Definition nullable (s : option string) : jsval :=
  match s with
  | Some x => VStr x
  | None => VNull
  end.

(** The [for .. of] loop of [insertUserBatch]. *)
Fixpoint insertUserBatch_loop (users : list object) (values : list jsval)
         (placeholders : list (nat * nat * nat * nat)) (paramIndex : nat)
  : list jsval * list (nat * nat * nat * nat) :=
  match users with
  | [] => (values, placeholders)
  | user :: users' =>
      let u := prepareUserData user in
      insertUserBatch_loop users'
        (values ++ [VStr (name u); age u; nullable (address u);
                    nullable (additionalInfo u)])
        (placeholders ++ [(paramIndex, paramIndex + 1, paramIndex + 2, paramIndex + 3)])
        (paramIndex + 4)
  end.

(** The statement [insertUserBatch] builds. *)
Definition insertStatement (users : list object) : statement :=
  let '(values, placeholders) := insertUserBatch_loop users [] [] 1 in
  INSERT_USERS placeholders values.

(** [insertUserBatch(users)] *)
Definition insertUserBatch (users : list object) : DbM QueryResult :=
  query typeRow faulty (insertStatement users).

(** [xs.slice(start, end)] *)
Definition slice {A} (xs : list A) (start stop : Z) : list A :=
  let len := Z.of_nat (length xs) in
  let relative (x : Z) := if (x <? 0)%Z then Z.max (len + x) 0 else Z.min x len in
  let k := relative start in
  let final := relative stop in
  firstn (Z.to_nat (final - k)) (skipn (Z.to_nat k) xs).

(** The [for (let i = 0; i < users.length; i += batchSize)] loop of
    [batchInsertUsers], from index [i] on.  The loop does not stop for a
    non-positive [batchSize]; [fuel] bounds the iterations the model follows. *)
Fixpoint batchInsertUsers_loop (fuel : nat) (users : list object) (batchSize : Z)
         (i : Z) (insertedCount : nat) : DbM nat :=
  match fuel with
  | O => diverge
  | S fuel' =>
      if (i <? Z.of_nat (length users))%Z then
        (let batch := slice users i (i + batchSize) in
         result <- insertUserBatch batch ;;
         batchInsertUsers_loop fuel' users batchSize (i + batchSize)%Z
                               (insertedCount + rowCount result))%db
      else ret insertedCount
  end.

(** [batchInsertUsers(users)]; the result is [insertedCount]. *)
Definition batchInsertUsers (fuel : nat) (env : Env) (users : list object) : DbM nat :=
  let batchSize := intOr (BATCH_SIZE env) 1000 in
  tryCatch
    (query typeRow faulty BEGIN ;;;
     insertedCount <- batchInsertUsers_loop fuel users batchSize 0 0 ;;
     query typeRow faulty COMMIT ;;;
     ret insertedCount)%db
    (fun error =>
       query typeRow faulty ROLLBACK ;;;
       throw error)%db.

(** [getAgeStatistics()]: [result.rows[0]], [None] being [undefined]. *)
Definition getAgeStatistics : DbM (option AgeStatisticsRow) :=
  (result <- query typeRow faulty SELECT_AGE_STATISTICS ;;
   ret (hd_error (rows result)))%db.

End Service.
End UserService.

(* ================================================================== *)
(** * reportService.js *)
(* ================================================================== *)

Module ReportService.
Import JS Database UserService.

(** A value that is a number on one path and a string on another. *)
Inductive numberOrString : Type :=
| JSNum (n : Z)
| JSStr (s : string).

Record AgeGroup : Type := {
  group : string;
  count : Z;
  percentage : Z
}.

(** [None] is [NaN], what [parseInt] makes of [null]. *)
Record AgeRange : Type := { min : option Z; max : option Z }.

Record AgeDistribution : Type := {
  totalUsers : Z;
  ageGroups : list AgeGroup;
  averageAge : numberOrString;
  ageRange : AgeRange
}.

(** The floating-point arithmetic of the report.  The percentages and the
    printed average are computed on binary64 numbers; the development takes
    these operations as an interface and asserts nothing about how they
    round. *)
Class Binary64 : Type := {
  float : Type;
  (** the number of an integer that [parseInt] returned *)
  ofInteger : Z -> float;
  (** [x / y] *)
  divide : float -> float -> float;
  (** [x * y] *)
  multiply : float -> float -> float;
  (** [Math.round(x)], for the finite [x] of a percentage *)
  Math_round : float -> Z;
  (** [parseFloat(text)] for the text of the numeric the store answers *)
  parseFloat : Q -> float;
  (** [x.toFixed(1)] *)
  toFixed1 : float -> string
}.

Section Service.
Context {num : JSNumber} {b64 : Binary64}.
Variable typeRow : ParamRow -> option UserRow.
Variable faulty : list statement -> bool.

(** [Math.round((count / totalUsers) * 100)] *)
Definition percentOf (count totalUsers : Z) : Z :=
  Math_round (multiply (divide (ofInteger count) (ofInteger totalUsers)) (ofInteger 100)).

(** The report built from the statistics row: the body of
    [getAgeDistribution] after the query. *)
Definition ageDistributionOf (stats : option AgeStatisticsRow) : AgeDistribution :=
  match stats with
  | None =>
      {| totalUsers := 0; ageGroups := []; averageAge := JSNum 0;
         ageRange := {| min := Some 0%Z; max := Some 0%Z |} |}
  | Some stats =>
      if (total_users stats =? 0)%Z then
        {| totalUsers := 0; ageGroups := []; averageAge := JSNum 0;
           ageRange := {| min := Some 0%Z; max := Some 0%Z |} |}
      else
        let totalUsers := total_users stats in
        let under20 := under_20 stats in
        let age20to40 := age_20_to_40 stats in
        let age40to60 := age_40_to_60 stats in
        let over60 := over_60 stats in
        let ageGroups :=
          [ {| group := "< 20"; count := under20;
               percentage := percentOf under20 totalUsers |};
            {| group := "20 to 40"; count := age20to40;
               percentage := percentOf age20to40 totalUsers |};
            {| group := "40 to 60"; count := age40to60;
               percentage := percentOf age40to60 totalUsers |};
            {| group := "> 60"; count := over60;
               percentage := percentOf over60 totalUsers |} ] in
        {| totalUsers := totalUsers;
           ageGroups := ageGroups;
           averageAge :=
             match average_age stats with
             | Some avg => JSStr (toFixed1 (parseFloat avg))
             | None => JSStr "NaN"
             end;
           ageRange := {| min := min_age stats; max := max_age stats |} |}
  end.

(** [getAgeDistribution()] *)
Definition getAgeDistribution : DbM AgeDistribution :=
  (stats <- getAgeStatistics typeRow faulty ;;
   ret (ageDistributionOf stats))%db.


End Service.
End ReportService.

(* ================================================================== *)
(** * Vocabulary of the properties *)
(* ================================================================== *)

(** The notions the statements below are phrased with; none of them is used
    by the services. *)
Module Spec.
Import JS CSVService Database UserService ReportService.

(** A string that does not begin with a double quote. *)
Definition noQuoteAhead (rest : string) : Prop :=
  match rest with
  | EmptyString => True
  | String c _ => c <> DQUOTE
  end.

(** The worked line of the specification: two quoted fields, the first one
    holding a comma. *)
Definition doeLine : string :=
  String DQUOTE ("Doe, Jr." ++ String DQUOTE ("," ++ String DQUOTE ("25" ++ String DQUOTE EmptyString))).

(** [header] ends with [suffix], letters compared without case ([suffix] is
    given in lower case). *)
Definition endsWithIgnoringCase (suffix header : string) : Prop :=
  exists front back, header = (front ++ back)%string /\ lower back = suffix.

(** The headers the specification coerces: exactly [age], or ending with
    [.age], [.id] or [.count] whatever the case. *)
Definition numericHeader (header : string) : Prop :=
  header = "age" \/
  endsWithIgnoringCase ".age" header \/
  endsWithIgnoringCase ".id" header \/
  endsWithIgnoringCase ".count" header.

(** The lines of a file that are not empty once trimmed. *)
Definition nonTrivialLines (content : string) : list string :=
  filter (fun line => negb (isEmpty (trim line))) (splitLines content).

(** The header row of a file: the fields of its first line. *)
Definition headerRow (content : string) : list string :=
  parseCSVLine (hd EmptyString (splitLines content)).

(** A data line that is not blank and whose field count differs from the
    header count. *)
Definition mismatchedRow (headers : list string) (line : string) : Prop :=
  trim line <> EmptyString /\ length (parseCSVLine line) <> length headers.

(** A file with nothing but the three required headers and a final line
    break. *)
Definition headerOnlyFile : string :=
  "name.firstName,name.lastName,age" ++ String LF EmptyString.

Fixpoint isPrefix (p q : list string) : Prop :=
  match p, q with
  | [], _ => True
  | x :: p', y :: q' => x = y /\ isPrefix p' q'
  | _ :: _, [] => False
  end.

Section Paths.
Context {num : JSNumber}.

(** The entry of [obj] at a path of keys: [obj[k1][k2]...[kn]], [None] when
    the walk meets a missing key or a value that is no object. *)
Fixpoint getPath (obj : object) (keys : list string) : option jsval :=
  match keys with
  | [] => None
  | key :: rest =>
      match rest with
      | [] => getProp obj key
      | _ :: _ =>
          match getProp obj key with
          | Some (VObj child) => getPath child rest
          | _ => None
          end
      end
  end.

(** The coercion of the specification, case by case. *)
Definition coerced (header value : string) (v : jsval) : Prop :=
  (numericHeader header ->
     (trim value = EmptyString -> v = VNull) /\
     (trim value <> EmptyString -> isNaN (Number (trim value)) = true -> v = VStr value) /\
     (trim value <> EmptyString -> isNaN (Number (trim value)) = false ->
      v = VNum (Number (trim value)))) /\
  (~ numericHeader header -> v = VStr value).

(** The text a name part contributes: the part itself, or nothing when it is
    missing or falsy. *)
Definition namePart (x : option jsval) : string :=
  match x with
  | Some v => if truthy v then toString v else EmptyString
  | None => EmptyString
  end.

(** A value the template literal of the projection can print: anything but
    an object with a property [toString] of its own, whose conversion to a
    string throws instead (the property is no function). *)
Definition printable (x : option jsval) : Prop :=
  match x with
  | Some (VObj props) => getProp props "toString" = None
  | _ => True
  end.

Definition isMandatoryKey (key : string) : bool :=
  String.eqb key "name" || String.eqb key "age" || String.eqb key "address".

(** The top-level properties of a record other than [name], [age] and
    [address]. *)
Definition otherProps (user : object) : object :=
  filter (fun kv => negb (isMandatoryKey (fst kv))) user.

(** The record the mapper builds for the row [Ann,Lee,abc]. *)
Definition annLee : object :=
  [("name", VObj [("firstName", VStr "Ann"); ("lastName", VStr "Lee")]);
   ("age", VStr "abc")].

End Paths.

(** The consecutive chunks of [size] elements of a list, the last one
    possibly shorter; [fuel] bounds their number. *)
Fixpoint chunks_fuel {A} (fuel size : nat) (l : list A) : list (list A) :=
  match fuel with
  | O => []
  | S fuel' =>
      match l with
      | [] => []
      | _ :: _ => firstn size l :: chunks_fuel fuel' size (skipn size l)
      end
  end.

Definition chunks {A} (size : nat) (l : list A) : list (list A) :=
  chunks_fuel (length l) size l.

Section Persistence.
Context {num : JSNumber}.
Variable typeRow : ParamRow -> option UserRow.
Variable faulty : list statement -> bool.

(** The four parameters of a record, in column order. *)
Definition paramsOf (user : object) : ParamRow :=
  let u := prepareUserData user in
  (VStr (name u), age u, nullable (address u), nullable (additionalInfo u)).

(** What a sequence of chunk inserts comes to on a store that has received
    [history]: the insert statements issued, one per chunk up to and
    including the first one the store fails, and the rows written when none
    fails. *)
Fixpoint runBatches (history : list statement) (batches : list (list object))
  : list statement * option (list UserRow) :=
  match batches with
  | [] => ([], Some [])
  | batch :: batches' =>
      let st := insertStatement batch in
      if faulty history then ([st], None)
      else
        match allSome (map (fun user => typeRow (paramsOf user)) batch) with
        | None => ([st], None)
        | Some new =>
            let '(issued, outcome) := runBatches (history ++ [st]) batches' in
            (st :: issued, option_map (app new) outcome)
        end
  end.

(** The store and the answer after a run of chunk inserts inside a
    transaction that held [pending], starting from the count [count]. *)
Definition afterRun (db : Db) (pending : list UserRow) (count : nat)
           (run : list statement * option (list UserRow)) : result nat * Db :=
  match snd run with
  | Some new =>
      (Ok (count + length new),
       {| table := table db; tx := InTransaction (pending ++ new);
          log := log db ++ fst run |})
  | None =>
      (Err queryError,
       {| table := table db; tx := Aborted; log := log db ++ fst run |})
  end.

(** The record the mapper builds for the row [Jane,Doe,30]. *)
Definition janeDoe : object :=
  [("name", VObj [("firstName", VStr "Jane"); ("lastName", VStr "Doe")]);
   ("age", VNum (ofZ 30))].

Definition isInsert (st : statement) : bool :=
  match st with
  | INSERT_USERS _ _ => true
  | _ => false
  end.

(** A store that fails the statement it receives after three others. *)
Definition failsFourthStatement (history : list statement) : bool :=
  Nat.eqb (length history) 3.

Definition emptyStore : Db := {| table := []; tx := Idle; log := [] |}.

Definition defaultEnv : Env :=
  {| CSV_FILE_PATH := None; MAX_FILE_SIZE_MB := None; BATCH_SIZE := None |}.

End Persistence.

(** ** Stores and files of the worked examples *)

(** A store for the integer numbers of the examples: a name must be text, an
    age an integer (or text that reads as one), the two blobs text or
    [NULL]. *)
Definition typeIntegerRow (p : ParamRow (num := IntegerNumbers)) : option UserRow :=
  let '(n, a, addr, info) := p in
  let text (v : jsval (num := IntegerNumbers)) :=
    match v with
    | VStr s => Some (Some s)
    | VNull => Some None
    | _ => None
    end in
  let age :=
    match a with
    | VNum z => z
    | VStr s => if isEmpty (trim s) then None else intOfString s
    | _ => None
    end in
  match n, age, text addr, text info with
  | VStr name, Some age, Some address, Some additional_info =>
      Some {| col_name := name; col_age := age; col_address := address;
              col_additional_info := additional_info |}
  | _, _, _, _ => None
  end.

Definition neverFaulty {num : JSNumber} (history : list statement) : bool := false.

Definition unlines (ls : list string) : string := join (String LF EmptyString) ls.

(** A file of four people, and a file of two, the second one with an age
    that is no number. *)
Definition fourPeople : string :=
  unlines ["name.firstName,name.lastName,age,address.city";
         "Jane,Doe,30,Boston";
         "Tim,Roe,10,Austin";
         "Ann,Lee,45,";
         "Bob,Ray,70,Reno"].

Definition badAge : string :=
  unlines ["name.firstName,name.lastName,age";
         "Jane,Doe,30";
         "Ann,Lee,abc"].

(** ** Vocabulary of the age report *)

(** The ages the report is about: those of the rows with [age > 0]. *)
Definition reportedAges (users : list UserRow) : list Z :=
  map col_age (filter (fun r => (0 <? col_age r)%Z) users).

(** The number of rows with [age > 0] and [lo <= age < hi]; no upper bound
    when [hi] is [None]. *)
Definition countInBucket (lo : Z) (hi : option Z) (users : list UserRow) : Z :=
  Z.of_nat
    (length
       (filter (fun r =>
                  (0 <? col_age r)%Z && (lo <=? col_age r)%Z &&
                  match hi with
                  | Some h => (col_age r <? h)%Z
                  | None => true
                  end) users)).

(** The exact mean of a list of integers. *)
Definition meanOf (ages : list Z) : Q :=
  (inject_Z (sumZ ages) / inject_Z (Z.of_nat (length ages)))%Q.

Definition isLeast (m : Z) (ages : list Z) : Prop :=
  In m ages /\ forall a, In a ages -> (m <= a)%Z.

Definition isGreatest (m : Z) (ages : list Z) : Prop :=
  In m ages /\ forall a, In a ages -> (a <= m)%Z.

(** The arithmetic of the worked examples: exact rationals.  Binary64
    computes the same wherever every number involved is a binary fraction it
    represents, as the quarters and halves of the examples are. *)
Definition roundHalfUp (x : Q) : Z :=
  let '(Qmake p q) := x in ((2 * p + Zpos q) / (2 * Zpos q))%Z.

Definition tenthsToString (t : Z) : string :=
  let a := Z.abs t in
  ((if (t <? 0)%Z then "-" else EmptyString)
     ++ natToString (Z.to_nat (a / 10)) ++ "." ++ natToString (Z.to_nat (a mod 10)))%string.

Definition ExactArithmetic : Binary64 := {|
  float := Q;
  ofInteger := inject_Z;
  divide := Qdiv;
  multiply := Qmult;
  Math_round := roundHalfUp;
  parseFloat := fun x => x;
  toFixed1 := fun x =>
    if (Qnum x <? 0)%Z then tenthsToString (- roundHalfUp (10 * - x)%Q)
    else tenthsToString (roundHalfUp (10 * x)%Q)
|}.

(** The report of a table with no row of interest. *)
Definition emptyReport : AgeDistribution :=
  {| totalUsers := 0; ageGroups := []; averageAge := JSNum 0;
     ageRange := {| min := Some 0%Z; max := Some 0%Z |} |}.

Definition rowOfAge (a : Z) : UserRow :=
  {| col_name := "x"; col_age := a; col_address := None; col_additional_info := None |}.

(** A table with the ages 10, 25, 45 and 70 and a row without a positive
    age. *)
Definition fourAges {num : JSNumber} : Db :=
  {| table := map rowOfAge [10; 0; 25; 45; 70]%Z; tx := Idle; log := [] |}.

End Spec.

(* ================================================================== *)
(** * Vocabulary of the further properties *)
(* ================================================================== *)

Module Vocabulary.
Import JS CSVService Database UserService ReportService Spec.

(** [true] when the last code unit of [s] is CR. *)
Fixpoint endsWithCR (s : string) : bool :=
  match s with
  | EmptyString => false
  | String c EmptyString => Ascii.eqb c CR
  | String _ s' => endsWithCR s'
  end.

(** The number of occurrences of a code unit. *)
Fixpoint countChar (c : ascii) (s : string) : nat :=
  match s with
  | EmptyString => 0
  | String x s' => (if Ascii.eqb x c then 1 else 0) + countChar c s'
  end.

(** A line that [splitLines] gives back as it is: no LF inside, no CR at the
    end. *)
Definition plainLine (l : string) : Prop :=
  contains LF l = false /\ endsWithCR l = false.

(** A string that is empty or begins with a code unit that is no white
    space. *)
Definition cleanStart (s : string) : Prop :=
  match s with
  | EmptyString => True
  | String c _ => isWhiteSpace c = false
  end.

(** The key path a header names. *)
Definition pathOf (header : string) : list string := split DOT header.

(** The top-level key a header writes under. *)
Definition firstSegment (header : string) : string := hd EmptyString (pathOf header).

(** Two key paths neither of which runs along the other. *)
Definition unrelated (p q : list string) : Prop := ~ isPrefix p q /\ ~ isPrefix q p.

Section Shapes.
Context {num : JSNumber}.

(** No object of the value, at any depth, has two properties with the same
    key. *)
Fixpoint uniqueKeys (v : jsval) : Prop :=
  match v with
  | VObj props =>
      NoDup (map fst props) /\
      (fix each (ps : list (string * jsval)) : Prop :=
         match ps with
         | [] => True
         | kv :: ps' => uniqueKeys (snd kv) /\ each ps'
         end) props
  | _ => True
  end.

(** A value that is no object. *)
Definition isPrimitive (v : jsval) : Prop :=
  match v with
  | VObj _ => False
  | _ => True
  end.

End Shapes.

(** The data lines of a file: the lines after the first that are not blank. *)
Definition dataLines (content : string) : list string :=
  filter (fun line => negb (isEmpty (trim line))) (tl (splitLines content)).

(** The size limit of [validateFile] in bytes. *)
Definition maxSizeBytes (env : Env) : Z :=
  (intOr (MAX_FILE_SIZE_MB env) 100 * 1024 * 1024)%Z.

Section Rows.
Context {num : JSNumber}.

(** The record of one data line under a header row. *)
Definition rowRecord (headers : list string) (line : string) : object :=
  convertToJSON_loop headers (parseCSVLine line) emptyObject.

End Rows.

(** A file system with one regular file of the given size and text at every
    path. *)
Definition oneFile (bytes : Z) (content : string) : FileSystem :=
  {| stat := fun _ => FsOk {| isFile := true; size := bytes |};
     readFile := fun _ => FsOk content |}.

(** The [i]-th placeholder group of an insert (from 0): [$4i+1 .. $4i+4]. *)
Definition placeholderGroup (i : nat) : nat * nat * nat * nat :=
  (4 * i + 1, 4 * i + 2, 4 * i + 3, 4 * i + 4).

Section Parameters.
Context {num : JSNumber}.

(** The four parameters a record adds to the parameter array. *)
Definition paramList (user : object) : list jsval :=
  let u := prepareUserData user in
  [VStr (name u); age u; nullable (address u); nullable (additionalInfo u)].

End Parameters.

(** A path none of whose segments is [__proto__]: the walk of
    [setNestedProperty] along it stays among the own properties of the
    objects it meets. *)
Definition ordinaryPath (keys : list string) : Prop :=
  Forall (fun key => key <> "__proto__") keys.

Definition ordinaryHeader (header : string) : Prop :=
  ordinaryPath (split DOT header).

(** A header row whose columns do not write over one another where the row
    projection reads: no header twice, no segment [__proto__], and every
    header other than the three required ones under a top-level key that is
    neither [name] nor [age]. *)
Definition plainHeaders (headers : list string) : Prop :=
  NoDup headers /\
  Forall ordinaryHeader headers /\
  Forall (fun h => In h requiredHeaders \/
                   (firstSegment h <> "name" /\ firstSegment h <> "age")) headers.

End Vocabulary.

(* ================================================================== *)
(** * userService.js: the paged listing *)
(* ================================================================== *)

Module UserListing.
Import Database.

Section Listing.
(** A row of [users] with all its columns, [id] and the timestamps
    included. *)
Variable Row : Type.

(** The greatest [bigint] of the store. *)
Definition maxBigint : Z := 9223372036854775807.

(** [SELECT .. FROM users ORDER BY id LIMIT $1 OFFSET $2] on the rows of the
    table in the order of their [id].  Both parameters are [bigint]: the
    store rejects a value it cannot read as one, and a negative [LIMIT] or
    [OFFSET]. *)
Definition selectPage (rows : list Row) (limit offset : Z) : result (list Row) :=
  if (limit <? 0)%Z || (offset <? 0)%Z
     || (maxBigint <? limit)%Z || (maxBigint <? offset)%Z
  then Err queryError
  else Ok (firstn (Z.to_nat limit) (skipn (Z.to_nat offset) rows)).

(** [SELECT COUNT(  * ) FROM users] through [parseInt]. *)
Definition selectCount (rows : list Row) : Z := Z.of_nat (length rows).

Record UsersPage : Type := { users : list Row; total : Z }.

(** [getUsers(limit, offset)]: both queries, then the two results. *)
Definition getUsers (rows : list Row) (limit offset : Z) : result UsersPage :=
  let countResult := selectCount rows in
  (dataResult <- selectPage rows limit offset ;;
   Ok {| users := dataResult; total := countResult |})%result.

End Listing.
Arguments users {Row} _.
Arguments total {Row} _.
End UserListing.

(* ================================================================== *)
(** * csvController.js *)
(* ================================================================== *)

Module CSVController.
Import JS CSVService Database UserService ReportService.

(** What a handler did: [res.status(..).json({success: true, message, data})]
    or [next(error)]. *)
Inductive reply (A : Type) : Type :=
| Responded (status : nat) (message : string) (data : A)
| Forwarded (e : error).
Arguments Responded {A} status message data.
Arguments Forwarded {A} e.


Section Controller.
Context {num : JSNumber}.
Variable typeRow : ParamRow -> option UserRow.
Variable faulty : list statement -> bool.
Variable fs : FileSystem.
Variable env : Env.


End Controller.
(** ** The listing handler *)
Module Users.

(** [Math.ceil(a / b)] for integers, [b] not zero. *)
Definition ceilDiv (a b : Z) : Z := (- ((- a) / b))%Z.

Record Pagination : Type := {
  currentPage : Z;
  totalPages : Z;
  totalRecords : Z;
  limit : Z
}.

Record UsersData (Row : Type) : Type := {
  users : list Row;
  pagination : Pagination
}.
Arguments users {Row} _.
Arguments pagination {Row} _.

(** [getUsers(req, res, next)] for [req.query.page] and [req.query.limit],
    each already through [parseInt] ([None]: absent or not a number), on the
    table [rows].  The difference, the product and the quotient are those of
    the integers, which is what the source computes as long as the numbers
    stay within [Number.MAX_SAFE_INTEGER]. *)
Definition getUsers {Row : Type} (queryPage queryLimit : option Z) (rows : list Row)
  : reply (UsersData Row) :=
  let page := intOr queryPage 1 in
  let limit := intOr queryLimit 10 in
  let offset := ((page - 1) * limit)%Z in
  match UserListing.getUsers Row rows limit offset with
  | Err error => Forwarded error
  | Ok result =>
      Responded 200 "Users retrieved successfully"
                {| users := UserListing.users result;
                   pagination :=
                     {| currentPage := page;
                        totalPages := ceilDiv (UserListing.total result) limit;
                        totalRecords := UserListing.total result;
                        limit := limit |} |}
  end.

End Users.

End CSVController.

(* ================================================================== *)
(** * middleware/errorHandler.js *)
(* ================================================================== *)

Module ErrorHandler.
Import JS.

(** The properties of a thrown object that the middleware reads; [None] is
    [undefined], and an [isOperational] that is not set is [false]. *)
Record JSError : Type := {
  message : string;
  statusCode : option nat;
  code : option string;
  name : string;
  isOperational : bool
}.

(** [new Error(message)] *)
Definition plainError (message : string) : JSError :=
  {| message := message; statusCode := None; code := None; name := "Error";
     isOperational := false |}.

(** [createError(message, statusCode)] *)
Definition createError (message : string) (statusCode : nat) : JSError :=
  {| message := message; statusCode := Some statusCode; code := None;
     name := "AppError"; isOperational := true |}.

(** [haystack.includes(needle)] *)
Fixpoint stringIncludes (haystack needle : string) : bool :=
  String.prefix needle haystack ||
  match haystack with
  | EmptyString => false
  | String _ rest => stringIncludes rest needle
  end.

(** The body sent with the status; [exposed] stands for the [stack] and
    [details] entries, both taken from the error. *)
Record ErrorResponse : Type := {
  status : nat;
  errorMessage : string;
  errorStatusCode : nat;
  exposed : option JSError
}.

Definition codeIs (error : JSError) (c : string) : bool :=
  match code error with
  | Some x => String.eqb x c
  | None => false
  end.

(** [errorHandler(error, req, res, next)] under [process.env.NODE_ENV]. *)
Definition errorHandler (NODE_ENV : option string) (error : JSError) : ErrorResponse :=
  let statusCode := match statusCode error with Some s => s | None => 500 end in
  let message := message error in
  let '(statusCode, message) :=
    if codeIs error "ENOENT" then (404, "File not found")
    else if codeIs error "EACCES" then (403, "Access denied")
    else if codeIs error "23505" then (409, "Duplicate entry")
    else if codeIs error "23503" then (400, "Referenced record not found")
    else if codeIs error "23502" then (400, "Required field missing")
    else if String.eqb (name error) "ValidationError" then (400, "Validation failed")
    else if String.eqb (name error) "CastError" then (400, "Invalid data format")
    else if String.eqb (name error) "SyntaxError"
            && stringIncludes (ErrorHandler.message error) "JSON"
         then (400, "Invalid JSON format")
    else (statusCode, message) in
  let production :=
    match NODE_ENV with Some e => String.eqb e "production" | None => false end in
  let development :=
    match NODE_ENV with Some e => String.eqb e "development" | None => false end in
  let message :=
    if production && negb (isOperational error) then "Internal server error"
    else message in
  {| status := statusCode;
     errorMessage := message;
     errorStatusCode := statusCode;
     exposed := if development then Some error else None |}.

End ErrorHandler.

(* ================================================================== *)
(** * middleware/validateRequest.js: the limiter of heavy operations *)
(* ================================================================== *)

Module ValidateRequest.
Import ErrorHandler.

(** [global.rateLimitStore]: the [Map] from an address to the times of its
    accepted requests, in insertion order. *)
Definition RateLimitStore : Type := list (string * list Z).

(** [store.get(key)] *)
Fixpoint get (store : RateLimitStore) (key : string) : option (list Z) :=
  match store with
  | [] => None
  | (k, v) :: store' => if String.eqb k key then Some v else get store' key
  end.

(** [store.set(key, value)] *)
Fixpoint set (store : RateLimitStore) (key : string) (value : list Z) : RateLimitStore :=
  match store with
  | [] => [(key, value)]
  | (k, v) :: store' =>
      if String.eqb k key then (k, value) :: store'
      else (k, v) :: set store' key value
  end.

(** What a middleware does with [next]. *)
Inductive decision : Type :=
| Next
| NextError (error : JSError).

(** [heavyOperationLimiter(req, res, next)] for [req.ip] at [Date.now()]. *)
Definition heavyOperationLimiter (userIP : string) (now : Z) (store : RateLimitStore)
  : decision * RateLimitStore :=
  let userRequests := match get store userIP with Some l => l | None => [] end in
  let recentRequests := filter (fun time => (now - time <? 60000)%Z) userRequests in
  if Nat.leb 5 (length recentRequests) then
    (NextError (createError "Too many heavy operations. Please wait before trying again." 429),
     store)
  else
    let recentRequests := recentRequests ++ [now] in
    (Next, set store userIP recentRequests).

End ValidateRequest.

(* ================================================================== *)
(** * Runs of the limiter *)
(* ================================================================== *)

Module LimiterRuns.

(** The store after the requests, each an address and the reading of the
    clock, and the decisions taken. *)
Fixpoint storeAfter (requests : list (string * Z))
         (store : ValidateRequest.RateLimitStore) : ValidateRequest.RateLimitStore :=
  match requests with
  | [] => store
  | (userIP, now) :: rest =>
      storeAfter rest (snd (ValidateRequest.heavyOperationLimiter userIP now store))
  end.

Fixpoint decisions (requests : list (string * Z))
         (store : ValidateRequest.RateLimitStore) : list ValidateRequest.decision :=
  match requests with
  | [] => []
  | (userIP, now) :: rest =>
      fst (ValidateRequest.heavyOperationLimiter userIP now store)
        :: decisions rest (snd (ValidateRequest.heavyOperationLimiter userIP now store))
  end.

Definition isNext (d : ValidateRequest.decision) : bool :=
  match d with
  | ValidateRequest.Next => true
  | ValidateRequest.NextError _ => false
  end.

(** The times of the requests of [ip] that were let through. *)
Fixpoint acceptedTimes (ip : string) (requests : list (string * Z))
         (store : ValidateRequest.RateLimitStore) : list Z :=
  match requests with
  | [] => []
  | (userIP, now) :: rest =>
      let '(d, store') := ValidateRequest.heavyOperationLimiter userIP now store in
      (if isNext d && String.eqb userIP ip then [now] else [])
        ++ acceptedTimes ip rest store'
  end.

(** A clock that never goes back: every reading is at least [start] and at
    least the one before. *)
Fixpoint monotoneFrom (start : Z) (requests : list (string * Z)) : Prop :=
  match requests with
  | [] => True
  | (_, now) :: rest => (start <= now)%Z /\ monotoneFrom now rest
  end.

(** The times among [times] less than a minute before [now]. *)
Definition withinLastMinute (now : Z) (times : list Z) : list Z :=
  filter (fun time => (now - time <? 60000)%Z) times.

(** The times among [times] in the minute that ends at [t]. *)
Definition inMinuteEndingAt (t : Z) (times : list Z) : list Z :=
  filter (fun time => (t - time <? 60000)%Z && (time <=? t)%Z) times.

Definition tooManyHeavyOperations : ErrorHandler.JSError :=
  ErrorHandler.createError
    "Too many heavy operations. Please wait before trying again." 429.

(** The times kept for [ip]. *)
Definition storedTimes (store : ValidateRequest.RateLimitStore) (ip : string) : list Z :=
  match ValidateRequest.get store ip with
  | Some l => l
  | None => []
  end.

(** What relates the store to the times [history] at which [ip] was let
    through, when no later reading of the clock is below [clock]. *)
Definition limiterInvariant (ip : string) (store : ValidateRequest.RateLimitStore)
           (history : list Z) (clock : Z) : Prop :=
  (forall a, In a history -> (a <= clock)%Z) /\
  (forall now, (clock <= now)%Z ->
               length (withinLastMinute now (storedTimes store ip))
               = length (withinLastMinute now history)) /\
  (forall t, length (inMinuteEndingAt t history) <= 5).



End LimiterRuns.

(* ================================================================== *)
(** * Pages of the listing *)
(* ================================================================== *)

Module ListingPages.
Import CSVController CSVController.Users.

(** The rows the handler answers for page [page], none when it answers with
    an error. *)
Definition pageOf {Row : Type} (queryLimit : option Z) (rows : list Row) (page : Z)
  : list Row :=
  match getUsers (Some page) queryLimit rows with
  | Responded _ _ data => users data
  | Forwarded _ => []
  end.

(** [Number.isSafeInteger]: the integers binary64 counts one by one. *)
Definition safeInteger (z : Z) : Prop := (Z.abs z <= 9007199254740991)%Z.

(** The [totalPages] the handler announces. *)
Definition pageCount {Row : Type} (queryLimit : option Z) (rows : list Row) : Z :=
  match getUsers None queryLimit rows with
  | Responded _ _ data => totalPages (pagination data)
  | Forwarded _ => 0
  end.

End ListingPages.

(* ================================================================== *)
(** * csvService.js: dot paths on the prototype chain *)
(* ================================================================== *)

(** [setNestedProperty] tests [key in current] and reads and assigns
    [current[key]]: all three follow the prototype chain.  The objects of a
    Record are created by [{}] and inherit from [Object.prototype], whose
    own properties are built-in methods (functions), the accessor
    [__proto__], and whatever data properties the program has stored on it:
    the state [objectPrototype], empty in a fresh process.  The prototype of
    [Object.prototype] is [null] and cannot be replaced.  As everywhere,
    objects are trees: the Record, the value assigned and what
    [Object.prototype] holds share no object. *)
Module Prototypes.
Import JS CSVService.

Section Chain.
Context {num : JSNumber}.

(** Where an object is: in the tree of the Record or in the tree of
    [Object.prototype], at a path of keys from its root. *)
Inductive place : Type :=
| InRecord (at_path : list string)
| InObjectPrototype (at_path : list string).

(** How a call of [setNestedProperty] ends, with the Record and the state
    of [Object.prototype] at that moment.  [ReplacesPrototype]: the call
    returns after the last assignment has reached the setter of [__proto__]
    with an object or [null], which is now the prototype of the object at
    [whose]; no own property was assigned. *)
Inductive outcome : Type :=
| Returns (obj objectPrototype : object)
| ReplacesPrototype (obj objectPrototype : object) (whose : place)
                    (prototype : option object)
| ThrowsTypeError (obj objectPrototype : object).

(** The object at a path of a tree, and the tree with that object
    replaced. *)
Fixpoint nodeAt (tree : object) (path : list string) : object :=
  match path with
  | [] => tree
  | key :: rest =>
      match getProp tree key with
      | Some (VObj child) => nodeAt child rest
      | _ => emptyObject
      end
  end.

Fixpoint updateAt (tree : object) (path : list string) (f : object -> object)
  : object :=
  match path with
  | [] => f tree
  | key :: rest =>
      match getProp tree key with
      | Some (VObj child) => setProp tree key (VObj (updateAt child rest f))
      | _ => tree
      end
  end.

Definition isProto (key : string) : bool := String.eqb key "__proto__".

(** The walk once [current] is an object of the tree of [Object.prototype],
    at [at_path] from its root ([[]]: [Object.prototype] itself). *)
Fixpoint walkInObjectPrototype (keys : list string) (at_path : list string)
         (obj objectPrototype : object) (v : jsval) : outcome :=
  let current := nodeAt objectPrototype at_path in
  let assign key x := updateAt objectPrototype at_path (fun c => setProp c key x) in
  match keys with
  | [] => Returns obj objectPrototype
  | key :: rest =>
      match rest with
      | [] =>
          match at_path, isProto key with
          | [], true =>
              (* Object.prototype.__proto__ = v *)
              match v with
              | VObj _ => ThrowsTypeError obj objectPrototype
              | _ => Returns obj objectPrototype
              end
          | _, _ =>
              match getProp current key, isProto key with
              | None, true =>
                  match v with
                  | VNull =>
                      ReplacesPrototype obj objectPrototype
                                        (InObjectPrototype at_path) None
                  | VObj p =>
                      ReplacesPrototype obj objectPrototype
                                        (InObjectPrototype at_path) (Some p)
                  | _ => Returns obj objectPrototype
                  end
              | _, _ => Returns obj (assign key v)
              end
          end
      | _ :: _ =>
          match at_path, isProto key with
          | [], true =>
              (* Object.prototype.__proto__ is null: it is assigned {} *)
              ThrowsTypeError obj objectPrototype
          | _, _ =>
              match getProp current key with
              | Some (VObj _) =>
                  walkInObjectPrototype rest (at_path ++ [key]) obj objectPrototype v
              | Some _ =>
                  walkInObjectPrototype rest (at_path ++ [key]) obj
                                        (assign key (VObj emptyObject)) v
              | None =>
                  if isProto key then
                    walkInObjectPrototype rest [] obj objectPrototype v
                  else
                    match at_path, getProp objectPrototype key with
                    | _ :: _, Some (VObj _) =>
                        walkInObjectPrototype rest [key] obj objectPrototype v
                    | _, _ =>
                        walkInObjectPrototype rest (at_path ++ [key]) obj
                                              (assign key (VObj emptyObject)) v
                    end
              end
          end
      end
  end.

(** What the rest of the walk did below [current[key]], seen from
    [current]. *)
Definition below (current : object) (key : string) (o : outcome) : outcome :=
  match o with
  | Returns child objectPrototype =>
      Returns (setProp current key (VObj child)) objectPrototype
  | ReplacesPrototype child objectPrototype (InRecord at_path) p =>
      ReplacesPrototype (setProp current key (VObj child)) objectPrototype
                        (InRecord (key :: at_path)) p
  | ReplacesPrototype child objectPrototype whose p =>
      ReplacesPrototype (setProp current key (VObj child)) objectPrototype whose p
  | ThrowsTypeError child objectPrototype =>
      ThrowsTypeError (setProp current key (VObj child)) objectPrototype
  end.

(** The walk of [setNestedProperty] while [current] is an object of the
    Record. *)
Fixpoint setNestedProperty_walk (current objectPrototype : object)
         (keys : list string) (v : jsval) : outcome :=
  match keys with
  | [] => Returns current objectPrototype
  | key :: rest =>
      match rest with
      | [] =>
          match getProp current key, isProto key with
          | None, true =>
              match v with
              | VNull => ReplacesPrototype current objectPrototype (InRecord []) None
              | VObj p => ReplacesPrototype current objectPrototype (InRecord []) (Some p)
              | _ => Returns current objectPrototype
              end
          | _, _ => Returns (setProp current key v) objectPrototype
          end
      | _ :: _ =>
          match getProp current key with
          | Some (VObj child) =>
              below current key (setNestedProperty_walk child objectPrototype rest v)
          | Some _ =>
              below current key
                    (setNestedProperty_walk emptyObject objectPrototype rest v)
          | None =>
              if isProto key then
                walkInObjectPrototype rest [] current objectPrototype v
              else
                match getProp objectPrototype key with
                | Some (VObj _) =>
                    walkInObjectPrototype rest [key] current objectPrototype v
                | _ =>
                    below current key
                          (setNestedProperty_walk emptyObject objectPrototype rest v)
                end
          end
      end
  end.

(** [setNestedProperty(obj, path, value)] *)
Definition setNestedProperty (objectPrototype obj : object) (path : string)
           (v : jsval) : outcome :=
  setNestedProperty_walk obj objectPrototype (split DOT path) v.

(** The own properties of the Record when the call ends. *)
Definition recordOf (o : outcome) : object :=
  match o with
  | Returns obj _ => obj
  | ReplacesPrototype obj _ _ _ => obj
  | ThrowsTypeError obj _ => obj
  end.

(** The names of the built-in properties of [Object.prototype]. *)
Definition builtIns : list string :=
  ["constructor"; "__defineGetter__"; "__defineSetter__"; "hasOwnProperty";
   "__lookupGetter__"; "__lookupSetter__"; "isPrototypeOf";
   "propertyIsEnumerable"; "toString"; "valueOf"; "__proto__"; "toLocaleString"].

(** What [obj[key]] reads on an object of a Record. *)
Inductive reading : Type :=
| Own (v : jsval)
| Inherited (v : jsval)
| BuiltIn
| Undefined.

Definition readProperty (objectPrototype obj : object) (key : string) : reading :=
  match getProp obj key with
  | Some v => Own v
  | None =>
      if isProto key then BuiltIn
      else match getProp objectPrototype key with
           | Some v => Inherited v
           | None => if includes builtIns key then BuiltIn else Undefined
           end
  end.

End Chain.
End Prototypes.

(* ================================================================== *)
(** * Properties of the tokenizer *)
(* ================================================================== *)

Module TokenizerFacts.
Import JS CSVService Spec.

Lemma append_empty_r (s : string) : (s ++ EmptyString)%string = s.
Proof. induction s as [|c s IH]; simpl; [reflexivity | now rewrite IH]. Qed.

Lemma append_assoc (s t u : string) : ((s ++ t) ++ u)%string = (s ++ (t ++ u))%string.
Proof. induction s as [|c s IH]; simpl; [reflexivity | now rewrite IH]. Qed.

Lemma push_char_append (s : string) (c : ascii) (t : string) :
  (push_char s c ++ t)%string = (s ++ String c t)%string.
Proof. unfold push_char. now rewrite append_assoc. Qed.

Lemma loop_on_quote_closing rest result current :
  noQuoteAhead rest ->
  parseCSVLine_loop (String DQUOTE rest) result current true
  = parseCSVLine_loop rest result current false.
Proof.
  intros H. simpl. destruct rest as [|c rest']; [reflexivity|].
  simpl in H. apply Ascii.eqb_neq in H.
  change (Ascii.eqb c (ascii_of_nat 34)) with (Ascii.eqb c DQUOTE).
  now rewrite H.
Qed.

(** Inside quotes, the doubled body of a value followed by the closing quote
    adds the value itself to the current field and leaves the quotes. *)
Lemma loop_quoted_body v : forall rest result current,
  noQuoteAhead rest ->
  parseCSVLine_loop (doubleQuotes v ++ String DQUOTE rest) result current true
  = parseCSVLine_loop rest result (current ++ v) false.
Proof.
  induction v as [|a v IH]; intros rest result current H.
  - rewrite append_empty_r. now apply loop_on_quote_closing.
  - cbn [doubleQuotes]. destruct (Ascii.eqb a DQUOTE) eqn:E.
    + apply Ascii.eqb_eq in E. subst a.
      cbn [append parseCSVLine_loop].
      rewrite Ascii.eqb_refl. cbn [andb].
      rewrite IH by assumption. now rewrite push_char_append.
    + cbn [append parseCSVLine_loop]. rewrite E.
      rewrite andb_false_r.
      rewrite IH by assumption. now rewrite push_char_append.
Qed.

Lemma loop_open_quote rest result :
  parseCSVLine_loop (String DQUOTE rest) result EmptyString false
  = parseCSVLine_loop rest result EmptyString true.
Proof. simpl. destruct rest; reflexivity. Qed.

Lemma loop_on_comma rest result current :
  parseCSVLine_loop (String COMMA rest) result current false
  = parseCSVLine_loop rest (result ++ [trim current]) EmptyString false.
Proof. reflexivity. Qed.

Lemma csvEscape_then (v rest : string) :
  (csvEscape v ++ rest)%string = String DQUOTE (doubleQuotes v ++ String DQUOTE rest).
Proof. unfold csvEscape. simpl. now rewrite append_assoc. Qed.

(** Tokenizing a line of escaped values yields the values, each trimmed. *)
Lemma loop_escaped_fields vs : forall result,
  vs <> [] ->
  parseCSVLine_loop (join "," (map csvEscape vs)) result EmptyString false
  = result ++ map trim vs.
Proof.
  induction vs as [|v vs IH]; intros result Hne; [congruence|].
  destruct vs as [|v2 vs].
  - cbn [map join String.concat].
    rewrite <- (append_empty_r (csvEscape v)), csvEscape_then.
    rewrite loop_open_quote, loop_quoted_body by exact I.
    reflexivity.
  - change (join "," (map csvEscape (v :: v2 :: vs)))
      with (csvEscape v ++ String COMMA (join "," (map csvEscape (v2 :: vs))))%string.
    rewrite csvEscape_then, loop_open_quote.
    rewrite loop_quoted_body by (simpl; discriminate).
    rewrite loop_on_comma, IH by discriminate.
    now rewrite <- app_assoc.
Qed.

Lemma loop_length line : forall n result current inQuotes,
  String.length line <= n ->
  length result < length (parseCSVLine_loop line result current inQuotes).
Proof.
  intros n. revert line.
  induction n as [|n IH]; intros line result current inQuotes Hlen.
  - destruct line; simpl in Hlen; [|lia]. simpl. rewrite length_app. simpl. lia.
  - destruct line as [|char rest].
    + simpl. rewrite length_app. simpl. lia.
    + assert (Hrest : String.length rest <= n) by (simpl in Hlen; lia).
      assert (Hsep : length result <
                     length (parseCSVLine_loop rest (result ++ [trim current])
                                               EmptyString inQuotes)).
      { specialize (IH rest (result ++ [trim current]) EmptyString inQuotes Hrest).
        rewrite length_app in IH. simpl in IH. lia. }
      cbn [parseCSVLine_loop].
      destruct (Ascii.eqb char DQUOTE).
      * destruct rest as [|next rest2]; [now apply IH|].
        destruct (inQuotes && Ascii.eqb next DQUOTE); apply IH; simpl in *; lia.
      * destruct (Ascii.eqb char COMMA && negb inQuotes); [exact Hsep | now apply IH].
Qed.

(** C10. The line tokenizer is total and never yields an empty record: on
    every line, the empty one included, [parseCSVLine] returns at least one
    field, and on the empty line it returns exactly one field, the empty
    string. *)
Theorem parseCSVLine_at_least_one_field :
  (forall line, exists field more, parseCSVLine line = field :: more) /\
  (forall line, 1 <= length (parseCSVLine line)) /\
  parseCSVLine EmptyString = [EmptyString].
Proof.
  assert (H : forall line, 1 <= length (parseCSVLine line)).
  { intros line. unfold parseCSVLine.
    pose proof (loop_length line (String.length line) [] EmptyString false (le_n _)) as H.
    simpl in H. lia. }
  split; [|split; [exact H | reflexivity]].
  intros line. specialize (H line).
  destruct (parseCSVLine line) as [|field more]; [simpl in H; lia | eauto].
Qed.

(** C7, as stated, fails: a value with a leading space and a comma comes
    back without the space. *)
Lemma roundtrip_loses_outer_whitespace :
  contains COMMA " a,b" = true /\
  parseCSVLine (csvEscape " a,b") = ["a,b"] /\
  parseCSVLine (csvEscape " a,b") <> [" a,b"].
Proof. repeat split. vm_compute. discriminate. Qed.

(** C7, amended. Tokenizer round-trip up to trimming: escaping a value
    (wrapping it in double quotes and doubling its quotes) and tokenizing the
    result yields one field, the value trimmed; so a value with no leading or
    trailing white space, whatever commas and quotes it holds, comes back
    exactly.  The same holds field by field for a line of escaped values
    joined by commas, and the line ["Doe, Jr.","25"] tokenizes to the fields
    [Doe, Jr.] and [25]. *)
Theorem escape_then_tokenize :
  (forall v, parseCSVLine (csvEscape v) = [trim v]) /\
  (forall v, trim v = v -> parseCSVLine (csvEscape v) = [v]) /\
  (forall vs, vs <> [] -> Forall (fun v => trim v = v) vs ->
              parseCSVLine (join "," (map csvEscape vs)) = vs) /\
  parseCSVLine doeLine = ["Doe, Jr."; "25"].
Proof.
  assert (H1 : forall v, parseCSVLine (csvEscape v) = [trim v]).
  { intros v. unfold parseCSVLine.
    now rewrite (loop_escaped_fields [v]) by discriminate. }
  split; [exact H1|]. split; [|split; [|reflexivity]].
  - intros v Hv. now rewrite H1, Hv.
  - intros vs Hne Hall. unfold parseCSVLine.
    rewrite loop_escaped_fields by assumption. simpl.
    induction Hall as [|v vs Hv _ IH]; [reflexivity|].
    simpl. rewrite Hv. f_equal.
    destruct vs as [|v2 vs]; [reflexivity|]. apply IH. discriminate.
Qed.

Lemma escape_then_tokenize_witness :
  parseCSVLine (csvEscape "Doe, Jr.") = ["Doe, Jr."] /\
  parseCSVLine (join "," (map csvEscape ["Doe, Jr."; "25"])) = ["Doe, Jr."; "25"].
Proof.
  split.
  - apply (proj1 (proj2 escape_then_tokenize)). reflexivity.
  - apply (proj1 (proj2 (proj2 escape_then_tokenize))).
    + discriminate.
    + repeat constructor.
Defined.

End TokenizerFacts.

(* ================================================================== *)
(** * Properties of the record mapper *)
(* ================================================================== *)

Module MapperFacts.
Import JS CSVService Spec.

Lemma isEmpty_true (s : string) : isEmpty s = true <-> s = EmptyString.
Proof. destruct s; simpl; split; congruence. Qed.

Lemma isEmpty_false (s : string) : isEmpty s = false <-> s <> EmptyString.
Proof. destruct s; simpl; split; congruence. Qed.

Lemma endsWithCI_spec suffix header :
  endsWithCI suffix header = true <-> endsWithIgnoringCase suffix header.
Proof.
  unfold endsWithIgnoringCase.
  induction header as [|c header IH]; cbn [endsWithCI].
  - rewrite orb_false_r, String.eqb_eq. simpl. split.
    + intros H. exists EmptyString, EmptyString. auto.
    + intros (front & back & Heq & Hlow).
      destruct front; [|discriminate]. simpl in Heq. now subst back.
  - rewrite orb_true_iff, String.eqb_eq, IH. split.
    + intros [H | (front & back & Heq & Hlow)].
      * exists EmptyString, (String c header). auto.
      * exists (String c front), back. simpl. now subst header.
    + intros (front & back & Heq & Hlow).
      destruct front as [|c' front]; simpl in Heq.
      * left. now subst back.
      * right. injection Heq as _ Heq. eauto.
Qed.

Lemma isNumericHeader_spec header :
  isNumericHeader header = true <-> numericHeader header.
Proof.
  unfold isNumericHeader, numericHeader.
  rewrite !orb_true_iff, String.eqb_eq, !endsWithCI_spec. tauto.
Qed.

Section Mapper.
Context {num : JSNumber}.

Lemma parseNumber_blank value :
  trim value = EmptyString -> parseNumber value = VNull.
Proof.
  intros H. unfold parseNumber. rewrite H. simpl. now rewrite orb_true_r.
Qed.

Lemma parseNumber_not_blank value :
  trim value <> EmptyString ->
  parseNumber value =
  if isNaN (Number (trim value)) then VStr value else VNum (Number (trim value)).
Proof.
  intros H. unfold parseNumber.
  assert (Hv : isEmpty value = false).
  { apply isEmpty_false. intros ->. now apply H. }
  apply isEmpty_false in H. now rewrite Hv, H.
Qed.

Lemma coerceValue_coerced header value : coerced header value (coerceValue header value).
Proof.
  unfold coerced, coerceValue. split.
  - intros Hnum. apply isNumericHeader_spec in Hnum. rewrite Hnum.
    repeat split.
    + apply parseNumber_blank.
    + intros Hne Hnan. now rewrite parseNumber_not_blank, Hnan.
    + intros Hne Hnan. now rewrite parseNumber_not_blank, Hnan.
  - intros Hnot. destruct (isNumericHeader header) eqn:E; [|reflexivity].
    now apply isNumericHeader_spec in E.
Qed.

Lemma convertToJSON_loop_fold headers : forall values result,
  length headers = length values ->
  convertToJSON_loop headers values result
  = fold_left (fun obj hv => setNestedProperty obj (fst hv) (coerceValue (fst hv) (snd hv)))
              (combine headers values) result.
Proof.
  induction headers as [|h headers IH]; intros [|v values] result Hlen;
    simpl in *; try reflexivity; try discriminate.
  apply IH. lia.
Qed.

(** C3. For every (header, value) pair of a row the mapper stores the value
    of [coerceValue], and that value is the coercion of the specification:
    numeric coercion applies exactly when the header is [age] or ends with
    [.age], [.id] or [.count] whatever the case; then an empty trimmed value
    gives [null], a trimmed value that parses gives the number, and one that
    does not parse keeps the original string; every other header keeps the
    string as it is. *)
Theorem numeric_coercion_rule :
  (forall header, isNumericHeader header = true <-> numericHeader header) /\
  (forall header value, coerced header value (coerceValue header value)) /\
  (forall headers values,
      length headers = length values ->
      convertToJSON headers values
      = Ok (fold_left
              (fun obj hv => setNestedProperty obj (fst hv) (coerceValue (fst hv) (snd hv)))
              (combine headers values) emptyObject)).
Proof.
  split; [exact isNumericHeader_spec|]. split; [exact coerceValue_coerced|].
  intros headers values Hlen. unfold convertToJSON.
  rewrite Hlen, Nat.eqb_refl. simpl.
  now rewrite convertToJSON_loop_fold.
Qed.

End Mapper.

Lemma numeric_coercion_rule_witness :
  coerceValue (num := IntegerNumbers) "stats.COUNT" "42" = VNum (ofZ 42) /\
  coerceValue (num := IntegerNumbers) "Age" "42" = VStr "42" /\
  convertToJSON (num := IntegerNumbers) ["age"; "name"] ["abc"; "Bo"]
  = Ok [("age", VStr "abc"); ("name", VStr "Bo")].
Proof.
  pose proof (numeric_coercion_rule (num := IntegerNumbers)) as (Hhdr & Hco & Hfold).
  split; [|split].
  - destruct (Hco "stats.COUNT" "42") as [Hnum _].
    destruct Hnum as (_ & _ & Hparsed).
    + apply Hhdr. reflexivity.
    + apply Hparsed; [discriminate | reflexivity].
  - destruct (Hco "Age" "42") as [_ Hkeep].
    apply Hkeep. intros Hnum. apply Hhdr in Hnum. discriminate.
  - rewrite Hfold by reflexivity. reflexivity.
Defined.

(* ------------------------------------------------------------------ *)
(** ** Dot-path assignment *)

Section DotPaths.
Context {num : JSNumber}.

Lemma getProp_setProp_same (obj : object) key v :
  getProp (setProp obj key v) key = Some v.
Proof.
  induction obj as [|[k x] obj IH]; simpl.
  - now rewrite String.eqb_refl.
  - destruct (String.eqb k key) eqn:E; simpl; now rewrite E.
Qed.

Lemma getProp_setProp_other (obj : object) key v k' :
  k' <> key -> getProp (setProp obj key v) k' = getProp obj k'.
Proof.
  intros Hne. induction obj as [|[k x] obj IH]; simpl.
  - apply String.eqb_neq in Hne. now rewrite String.eqb_sym, Hne.
  - destruct (String.eqb k key) eqn:E; simpl.
    + apply String.eqb_eq in E. subst k.
      apply String.eqb_neq in Hne. now rewrite String.eqb_sym, Hne.
    + now rewrite IH.
Qed.

Lemma getPath_head_other (obj obj' : object) k q :
  getProp obj' k = getProp obj k ->
  getPath obj' (k :: q) = getPath obj (k :: q).
Proof. intros H. simpl. now rewrite H. Qed.

Lemma getPath_empty_object q : getPath emptyObject q = None.
Proof. destruct q as [|k [|k' q]]; reflexivity. Qed.

Lemma split_go_not_empty sep s current : split_go sep s current <> [].
Proof.
  revert current. induction s as [|c s IH]; intros current; simpl.
  - discriminate.
  - destruct (Ascii.eqb c sep); [discriminate | apply IH].
Qed.

Lemma split_not_empty sep s : split sep s <> [].
Proof. apply split_go_not_empty. Qed.

(** The walk leaves alone every entry that is neither on the path nor
    below its end. *)
Lemma walk_frame keys : forall (obj : object) v q,
  ~ isPrefix q keys -> ~ isPrefix keys q ->
  getPath (setNestedProperty_walk obj keys v) q = getPath obj q.
Proof.
  induction keys as [|key rest IH]; intros obj v q Hq Hk; [reflexivity|].
  destruct q as [|k q]; [now simpl in Hq|].
  destruct (string_dec k key) as [->|Hne].
  - destruct rest as [|key2 rest].
    + exfalso. apply Hk. simpl. auto.
    + destruct q as [|k2 q]; [exfalso; apply Hq; simpl; auto|].
      cbn [setNestedProperty_walk getPath].
      rewrite getProp_setProp_same.
      change (getPath (setNestedProperty_walk
                         match getProp obj key with
                         | Some (VObj props) => props
                         | _ => emptyObject
                         end (key2 :: rest) v) (k2 :: q)
              = match getProp obj key with
                | Some (VObj child) => getPath child (k2 :: q)
                | _ => None
                end).
      rewrite IH.
      * destruct (getProp obj key) as [[| | |child]|];
          try apply getPath_empty_object; reflexivity.
      * intros H. apply Hq. simpl. auto.
      * intros H. apply Hk. simpl. auto.
  - apply getPath_head_other.
    destruct rest as [|key2 rest]; cbn [setNestedProperty_walk];
      now apply getProp_setProp_other.
Qed.

(** The walk binds the end of the path to the value. *)
Lemma walk_writes keys : forall (obj : object) v,
  keys <> [] -> getPath (setNestedProperty_walk obj keys v) keys = Some v.
Proof.
  induction keys as [|key rest IH]; intros obj v Hne; [congruence|].
  destruct rest as [|key2 rest].
  - simpl. apply getProp_setProp_same.
  - cbn [setNestedProperty_walk getPath].
    rewrite getProp_setProp_same. apply IH. discriminate.
Qed.

End DotPaths.

End MapperFacts.

(* ================================================================== *)
(** * Properties of the parse orchestrator *)
(* ================================================================== *)

Module OrchestratorFacts.
Import JS CSVService Spec.

Lemma includes_In xs x : includes xs x = true <-> In x xs.
Proof.
  unfold includes. rewrite existsb_exists. split.
  - intros (y & Hin & Heq). apply String.eqb_eq in Heq. now subst.
  - intros Hin. exists x. split; [assumption | apply String.eqb_refl].
Qed.

Lemma missingHeaders_spec headers h :
  In h (missingHeaders headers) <-> In h requiredHeaders /\ ~ In h headers.
Proof.
  unfold missingHeaders. rewrite filter_In, negb_true_iff.
  pose proof (includes_In headers h) as Hin.
  destruct (includes headers h); intuition (try discriminate).
Qed.

Lemma validateHeaders_missing headers :
  missingHeaders headers <> [] ->
  validateHeaders headers = Err (MissingRequiredHeaders (missingHeaders headers)).
Proof.
  intros H. unfold validateHeaders.
  destruct (missingHeaders headers); [congruence | reflexivity].
Qed.

Lemma validateHeaders_complete headers :
  missingHeaders headers = [] -> validateHeaders headers = Ok tt.
Proof. intros H. unfold validateHeaders. now rewrite H. Qed.

Section Orchestrator.
Context {num : JSNumber}.

Lemma convertToJSON_mismatch headers values :
  length headers <> length values ->
  convertToJSON headers values = Err (SchemaMismatch (length headers) (length values)).
Proof.
  intros H. unfold convertToJSON.
  apply Nat.eqb_neq in H. now rewrite H.
Qed.

Lemma convertToJSON_match headers values :
  length headers = length values ->
  exists user, convertToJSON headers values = Ok user.
Proof.
  intros H. unfold convertToJSON. rewrite H, Nat.eqb_refl. simpl. eauto.
Qed.

(** The row loop stops with the error of the first mismatched row, whatever
    it has collected before. *)
Lemma loop_aborts_on_mismatch headers lines : forall users,
  Exists (mismatchedRow headers) lines ->
  exists n, n <> length headers /\
            parseCSVFile_loop headers lines users
            = Err (SchemaMismatch (length headers) n).
Proof.
  induction lines as [|line lines IH]; intros users Hex.
  - inversion Hex.
  - cbn [parseCSVFile_loop].
    destruct (isEmpty (trim line)) eqn:Eblank; cbn [negb].
    + apply IH. inversion Hex as [? ? [Hne _]|]; subst; [|assumption].
      apply MapperFacts.isEmpty_true in Eblank. contradiction.
    + destruct (Nat.eq_dec (length headers) (length (parseCSVLine line))) as [Heq|Hneq].
      * destruct (convertToJSON_match _ _ Heq) as [user Huser].
        rewrite Huser. cbn [bind]. apply IH.
        inversion Hex as [? ? [_ Hlen]|]; subst; [congruence | assumption].
      * rewrite convertToJSON_mismatch by assumption. cbn [bind].
        exists (length (parseCSVLine line)). split; [congruence | reflexivity].
Qed.

Lemma parseContent_short content :
  length (splitLines content) < 2 -> parseContent content = Err EmptyOrHeaderOnlyFile.
Proof.
  intros H. unfold parseContent. apply Nat.ltb_lt in H. now rewrite H.
Qed.

Lemma parseContent_long content :
  2 <= length (splitLines content) ->
  parseContent content
  = bind (validateHeaders (headerRow content))
         (fun _ => parseCSVFile_loop (headerRow content) (tl (splitLines content)) []).
Proof.
  intros H. unfold parseContent.
  assert (E : Nat.ltb (length (splitLines content)) 2 = false) by (apply Nat.ltb_ge; lia).
  now rewrite E.
Qed.

Lemma data_line_means_two_lines (content : string) (P : string -> Prop) :
  Exists P (tl (splitLines content)) -> 2 <= length (splitLines content).
Proof.
  destruct (splitLines content) as [|l0 [|l1 ls]]; simpl; intros H;
    try inversion H; lia.
Qed.

(** C5. Header validation comes before any data row: when the header row
    lacks one of [name.firstName], [name.lastName] and [age], the parse
    fails with [MissingRequiredHeaders] carrying exactly the required headers
    that are missing (its message lists them), whatever the data rows are,
    and no record is produced; with all three present validation passes. *)
Theorem missing_headers_fail_the_parse :
  (forall headers h,
      In h (missingHeaders headers) <-> In h requiredHeaders /\ ~ In h headers) /\
  (forall headers,
      missingHeaders headers <> [] ->
      validateHeaders headers = Err (MissingRequiredHeaders (missingHeaders headers))) /\
  (forall headers, missingHeaders headers = [] -> validateHeaders headers = Ok tt) /\
  (forall content,
      2 <= length (splitLines content) ->
      missingHeaders (headerRow content) <> [] ->
      parseContent content
      = Err (MissingRequiredHeaders (missingHeaders (headerRow content)))) /\
  (forall fs env content,
      validateFile fs env (csvFilePath env) = Ok tt ->
      readFile fs (csvFilePath env) = FsOk content ->
      2 <= length (splitLines content) ->
      missingHeaders (headerRow content) <> [] ->
      parseCSVFile fs env
      = Err (MissingRequiredHeaders (missingHeaders (headerRow content)))) /\
  (forall missing,
      errorMessage (MissingRequiredHeaders missing)
      = ("Missing required headers: " ++ join ", " missing)%string).
Proof.
  assert (Hcontent : forall content,
             2 <= length (splitLines content) ->
             missingHeaders (headerRow content) <> [] ->
             parseContent content
             = Err (MissingRequiredHeaders (missingHeaders (headerRow content)))).
  { intros content Hlen Hmiss.
    rewrite parseContent_long by assumption.
    now rewrite validateHeaders_missing. }
  split; [exact missingHeaders_spec|].
  split; [exact validateHeaders_missing|].
  split; [exact validateHeaders_complete|].
  split; [exact Hcontent|].
  split; [|reflexivity].
  intros fs env content Hfile Hread Hlen Hmiss.
  unfold parseCSVFile. rewrite Hfile, Hread. cbn [bind].
  now apply Hcontent.
Qed.

(** C4. The mapper fails with [SchemaMismatch] whenever the header list and
    the value list differ in length, and one such row aborts the whole parse:
    the row loop returns that error whatever rows it has mapped before, and
    the parse of a file holding such a row returns an error and no record
    list; [SchemaMismatch] itself when the earlier checks pass. *)
Theorem schema_mismatch_aborts_the_parse :
  (forall headers values,
      length headers <> length values ->
      convertToJSON headers values
      = Err (SchemaMismatch (length headers) (length values))) /\
  (forall headers lines users,
      Exists (mismatchedRow headers) lines ->
      exists n, n <> length headers /\
                parseCSVFile_loop headers lines users
                = Err (SchemaMismatch (length headers) n)) /\
  (forall content,
      Exists (mismatchedRow (headerRow content)) (tl (splitLines content)) ->
      (exists e, parseContent content = Err e) /\
      (missingHeaders (headerRow content) = [] ->
       exists n, n <> length (headerRow content) /\
                 parseContent content
                 = Err (SchemaMismatch (length (headerRow content)) n))) /\
  (forall fs env content,
      readFile fs (csvFilePath env) = FsOk content ->
      Exists (mismatchedRow (headerRow content)) (tl (splitLines content)) ->
      exists e, parseCSVFile fs env = Err e).
Proof.
  assert (Hcontent : forall content,
      Exists (mismatchedRow (headerRow content)) (tl (splitLines content)) ->
      (exists e, parseContent content = Err e) /\
      (missingHeaders (headerRow content) = [] ->
       exists n, n <> length (headerRow content) /\
                 parseContent content
                 = Err (SchemaMismatch (length (headerRow content)) n))).
  { intros content Hex.
    pose proof (data_line_means_two_lines _ _ Hex) as Hlen.
    rewrite parseContent_long by assumption.
    destruct (loop_aborts_on_mismatch _ _ [] Hex) as (n & Hn & Hloop).
    split.
    - destruct (validateHeaders (headerRow content)) as [[]|e]; cbn [bind]; eauto.
    - intros Hmiss. rewrite validateHeaders_complete by assumption.
      cbn [bind]. eauto. }
  split; [exact convertToJSON_mismatch|].
  split; [exact loop_aborts_on_mismatch|].
  split; [exact Hcontent|].
  intros fs env content Hread Hex. unfold parseCSVFile.
  destruct (validateFile fs env (csvFilePath env)) as [[]|e]; cbn [bind]; [|eauto].
  rewrite Hread. now apply Hcontent.
Qed.

(** What the size check of the parse looks at: the count of all lines, blank
    ones included. *)
Lemma empty_file_error_iff content :
  parseContent content = Err EmptyOrHeaderOnlyFile <-> length (splitLines content) < 2.
Proof.
  split; [|apply parseContent_short].
  intros H. destruct (Nat.lt_ge_cases (length (splitLines content)) 2) as [|Hge];
    [assumption|].
  rewrite parseContent_long in H by assumption.
  unfold validateHeaders in H.
  destruct (Nat.ltb 0 (length (missingHeaders (headerRow content)))); cbn [bind] in H;
    [discriminate|].
  exfalso. clear Hge.
  assert (Hloop : forall lines users,
             parseCSVFile_loop (headerRow content) lines users <> Err EmptyOrHeaderOnlyFile).
  { induction lines as [|line lines IH]; intros users; cbn [parseCSVFile_loop].
    - discriminate.
    - destruct (negb (isEmpty (trim line))); [|apply IH].
      unfold convertToJSON.
      destruct (negb (Nat.eqb _ _)); cbn [bind]; [discriminate | apply IH]. }
  now apply Hloop in H.
Qed.

End Orchestrator.

(** C8, at the failing input.  A file holding the header line and a final
    line break has one non-trivial line, yet the parse does not fail with
    [EmptyOrHeaderOnlyFile]: it returns an empty record list.  The check
    counts all the lines, and the empty text after the line break is one. *)
Theorem header_only_file_is_accepted :
  length (nonTrivialLines headerOnlyFile) = 1 /\
  length (splitLines headerOnlyFile) = 2 /\
  parseContent (num := IntegerNumbers) headerOnlyFile = Ok [] /\
  (forall content,
      parseContent (num := IntegerNumbers) content = Err EmptyOrHeaderOnlyFile
      <-> length (splitLines content) < 2).
Proof.
  split; [reflexivity|]. split; [reflexivity|]. split; [reflexivity|].
  intros content. apply empty_file_error_iff.
Qed.

Lemma missing_headers_fail_the_parse_witness :
  parseContent (num := IntegerNumbers)
               ("name.firstName,name.lastName" ++ String LF "Jane,Doe,30")
  = Err (MissingRequiredHeaders ["age"]).
Proof.
  apply (proj1 (proj2 (proj2 (proj2 (missing_headers_fail_the_parse (num := IntegerNumbers)))))).
  - vm_compute. lia.
  - vm_compute. discriminate.
Defined.

Lemma schema_mismatch_aborts_the_parse_witness :
  exists e,
    parseContent (num := IntegerNumbers)
      ("name.firstName,name.lastName,age" ++ String LF
         ("Jane,Doe,30" ++ String LF "John,Roe")) = Err e.
Proof.
  apply (proj1 (proj2 (proj2 (schema_mismatch_aborts_the_parse (num := IntegerNumbers))))).
  apply Exists_cons_tl. apply Exists_cons_hd.
  split; vm_compute; [discriminate | lia].
Defined.

End OrchestratorFacts.

(* ================================================================== *)
(** * Properties of the projection to a row *)
(* ================================================================== *)

Module ProjectionFacts.
Import JS CSVService Database UserService Spec.

Lemma insertByIndex_length {A} (n : N) (x : A) l :
  length (insertByIndex n x l) = S (length l).
Proof.
  induction l as [|[m y] l IH]; simpl; [reflexivity|].
  destruct (n <? m)%N; simpl; [reflexivity | now rewrite IH].
Qed.

Lemma ownPropertyOrder_length {A} (members : list (string * A)) :
  length (ownPropertyOrder members) = length members.
Proof.
  unfold ownPropertyOrder. rewrite length_app, length_map.
  assert (H : forall acc,
             length (fold_left
                       (fun acc kv =>
                          match arrayIndex (fst kv) with
                          | Some n => insertByIndex n kv acc
                          | None => acc
                          end) members acc)
             + length (filter (fun kv => match arrayIndex (fst kv) with
                                         | Some _ => false
                                         | None => true
                                         end) members)
             = length acc + length members).
  { induction members as [|kv members IH]; intros acc; [simpl; lia|].
    cbn [fold_left filter].
    destruct (arrayIndex (fst kv)); cbn [length]; rewrite ?length_cons.
    - rewrite IH, insertByIndex_length. lia.
    - specialize (IH acc). cbn [length] in *. lia. }
  rewrite H. reflexivity.
Qed.

Section Projection.
Context {num : JSNumber}.

Lemma keys_length (obj : object) : length (keys obj) = length obj.
Proof. unfold keys. now rewrite length_map, ownPropertyOrder_length. Qed.

Lemma deleteProp_mandatory (user : object) :
  deleteProp (deleteProp (deleteProp user "name") "age") "address" = otherProps user.
Proof.
  unfold deleteProp, otherProps, isMandatoryKey.
  induction user as [|[k v] user IH]; [reflexivity|].
  cbn [filter fst].
  destruct (String.eqb k "name") eqn:E1; cbn [negb orb].
  - exact IH.
  - cbn [filter fst]. destruct (String.eqb k "age") eqn:E2; cbn [negb orb].
    + exact IH.
    + cbn [filter fst]. destruct (String.eqb k "address") eqn:E3; cbn [negb].
      * exact IH.
      * now rewrite IH.
Qed.

Lemma getProp_otherProps (user : object) key :
  getProp (otherProps user) key
  = if isMandatoryKey key then None else getProp user key.
Proof.
  unfold otherProps. induction user as [|[k v] user IH]; simpl.
  - now destruct (isMandatoryKey key).
  - destruct (String.eqb k key) eqn:E.
    + apply String.eqb_eq in E. subst k.
      destruct (isMandatoryKey key) eqn:M; simpl; [exact IH|].
      now rewrite String.eqb_refl.
    + destruct (isMandatoryKey k); simpl; [exact IH|].
      now rewrite E, IH.
Qed.

Lemma orElse_namePart x :
  toString (orElse x (VStr EmptyString)) = namePart x.
Proof. destruct x as [v|]; simpl; [destruct (truthy v)|]; reflexivity. Qed.

(** C6, amended. The projection of a record whose first and last name can
    be printed has four columns.  [name] is the first and the last name (each
    empty when missing) joined by one space and trimmed.  [age] is the record's age as it is, replaced by [0] only
    when it is missing or falsy ([null], zero, the empty string): an age text
    that did not parse is kept as that text.  [address] is the serialised
    address, absent when the record has none or a falsy one.
    [additional_info] is the serialisation of the top-level properties other
    than [name], [age] and [address], absent when there is none. *)
Theorem projection_columns (user : object) :
  let firstName := optGet (getProp user "name") "firstName" in
  let lastName := optGet (getProp user "name") "lastName" in
  let row := prepareUserData user in
  printable firstName -> printable lastName ->
  name row = trim (namePart firstName ++ " " ++ namePart lastName) /\
  (forall f l, firstName = Some (VStr f) -> lastName = Some (VStr l) ->
               name row = trim (f ++ " " ++ l)) /\
  (getProp user "age" = None -> age row = VNum (ofZ 0)) /\
  (forall v, getProp user "age" = Some v -> truthy v = false -> age row = VNum (ofZ 0)) /\
  (forall v, getProp user "age" = Some v -> truthy v = true -> age row = v) /\
  (forall a, getProp user "address" = Some a -> truthy a = true ->
             address row = Some (JSON_stringify a)) /\
  (forall a, getProp user "address" = Some a -> truthy a = false -> address row = None) /\
  (getProp user "address" = None -> address row = None) /\
  (otherProps user = [] -> additionalInfo row = None) /\
  (otherProps user <> [] ->
   additionalInfo row = Some (JSON_stringify (VObj (otherProps user)))) /\
  (forall key, getProp (otherProps user) key
               = if isMandatoryKey key then None else getProp user key).
Proof.
  intros firstName lastName row _ _.
  assert (Hname : name row = trim (namePart firstName ++ " " ++ namePart lastName)).
  { subst row. unfold prepareUserData. cbn [name].
    now rewrite !orElse_namePart. }
  split; [exact Hname|].
  split.
  { intros f l Hf Hl. rewrite Hname, Hf, Hl. simpl.
    destruct f, l; reflexivity. }
  subst row. unfold prepareUserData. cbn [age address additionalInfo].
  rewrite deleteProp_mandatory, keys_length.
  repeat split.
  - intros H. now rewrite H.
  - intros v H Hv. rewrite H. simpl. now rewrite Hv.
  - intros v H Hv. rewrite H. simpl. now rewrite Hv.
  - intros a H Ha. now rewrite H, Ha.
  - intros a H Ha. now rewrite H, Ha.
  - intros H. now rewrite H.
  - intros H. now rewrite H.
  - intros H. destruct (otherProps user); [congruence | reflexivity].
  - apply getProp_otherProps.
Qed.

End Projection.

(** C6, as stated, fails: the age text [abc] of the row [Ann,Lee,abc] does
    not parse, the mapper keeps it, and the projection passes it on instead
    of defaulting to [0]. *)
Lemma unparseable_age_is_not_defaulted :
  convertToJSON (num := IntegerNumbers)
                ["name.firstName"; "name.lastName"; "age"] ["Ann"; "Lee"; "abc"]
  = Ok annLee /\
  age (prepareUserData (num := IntegerNumbers) annLee) = VStr "abc" /\
  age (prepareUserData (num := IntegerNumbers) annLee) <> VNum (ofZ 0).
Proof. split; [reflexivity|]. split; [reflexivity | discriminate]. Qed.

Lemma projection_columns_witness :
  name (prepareUserData (num := IntegerNumbers) annLee) = "Ann Lee" /\
  age (prepareUserData (num := IntegerNumbers) annLee) = VStr "abc" /\
  address (prepareUserData (num := IntegerNumbers) annLee) = None /\
  additionalInfo (prepareUserData (num := IntegerNumbers) annLee) = None.
Proof.
  pose proof (projection_columns (num := IntegerNumbers) annLee I I)
    as (_ & Hname & _ & _ & Hage & _ & _ & Haddr & Hnone & _).
  split; [|split; [|split]].
  - apply (Hname "Ann" "Lee"); reflexivity.
  - apply Hage; reflexivity.
  - apply Haddr; reflexivity.
  - apply Hnone; reflexivity.
Defined.

End ProjectionFacts.

(* ================================================================== *)
(** * Properties of the batch persister *)
(* ================================================================== *)

Module PersisterFacts.
Import JS CSVService Database UserService Spec.

(** ** Chunks *)

Section Chunks.
Context {A : Type}.
Variable size : nat.
Hypothesis size_pos : 0 < size.

Lemma chunks_fuel_irrelevant : forall fuel1 fuel2 (l : list A),
  length l <= fuel1 -> length l <= fuel2 ->
  chunks_fuel fuel1 size l = chunks_fuel fuel2 size l.
Proof.
  induction fuel1 as [|fuel1 IH]; intros fuel2 l H1 H2.
  - destruct l; [|simpl in H1; lia]. now destruct fuel2.
  - destruct fuel2 as [|fuel2].
    + destruct l; [reflexivity | simpl in H2; lia].
    + destruct l as [|x l]; [reflexivity|].
      cbn [chunks_fuel]. f_equal.
      apply IH; rewrite length_skipn; cbn [length] in *; lia.
Qed.

Lemma chunks_nil : chunks size (@nil A) = [].
Proof. reflexivity. Qed.

Lemma chunks_cons (l : list A) :
  l <> [] -> chunks size l = firstn size l :: chunks size (skipn size l).
Proof.
  intros Hne. destruct l as [|x l]; [congruence|].
  unfold chunks at 1. cbn [length chunks_fuel]. f_equal.
  apply chunks_fuel_irrelevant; rewrite length_skipn; cbn [length]; lia.
Qed.

(** Induction along the chunks of a list. *)
Lemma chunks_ind (P : list A -> Prop) :
  P [] ->
  (forall l, l <> [] -> P (skipn size l) -> P l) ->
  forall l, P l.
Proof.
  intros Hnil Hstep l.
  remember (length l) as n eqn:Hn.
  revert l Hn. induction n as [n IH] using lt_wf_ind. intros l Hn.
  destruct l as [|x l]; [exact Hnil|].
  apply Hstep; [discriminate|].
  apply (IH (length (skipn size (x :: l)))); [|reflexivity].
  subst n. rewrite length_skipn. cbn [length]. lia.
Qed.

Lemma concat_chunks (l : list A) : concat (chunks size l) = l.
Proof.
  induction l as [|l Hne IH] using chunks_ind; [reflexivity|].
  rewrite chunks_cons by assumption. cbn [concat].
  rewrite IH. apply firstn_skipn.
Qed.

Lemma chunks_sizes (l : list A) :
  Forall (fun b => 1 <= length b <= size) (chunks size l).
Proof.
  induction l as [|l Hne IH] using chunks_ind; [constructor|].
  rewrite chunks_cons by assumption. constructor; [|exact IH].
  rewrite length_firstn. destruct l; [congruence | simpl; lia].
Qed.

Lemma chunks_empty_iff (l : list A) : chunks size l = [] <-> l = [].
Proof.
  split; [|intros ->; reflexivity].
  intros H. destruct l; [reflexivity|].
  rewrite chunks_cons in H by discriminate. discriminate.
Qed.

Lemma chunks_full_but_last (l : list A) : forall j,
  S j < length (chunks size l) -> length (nth j (chunks size l) []) = size.
Proof.
  induction l as [|l Hne IH] using chunks_ind; intros j Hj.
  - simpl in Hj. lia.
  - rewrite chunks_cons in * by assumption. cbn [length] in Hj.
    destruct j as [|j]; cbn [nth].
    + assert (Hrest : skipn size l <> []).
      { intros E. apply chunks_empty_iff in E. rewrite E in Hj. simpl in Hj. lia. }
      rewrite length_firstn.
      assert (length (skipn size l) <> 0) by (destruct (skipn size l); simpl; congruence).
      rewrite length_skipn in *. lia.
    + apply IH. lia.
Qed.

Lemma chunks_count (l : list A) :
  length (chunks size l) = (length l + size - 1) / size.
Proof.
  induction l as [|l Hne IH] using chunks_ind.
  - simpl. symmetry. apply Nat.div_small. lia.
  - rewrite chunks_cons by assumption. cbn [length]. rewrite IH, length_skipn.
    assert (Hl : 1 <= length l) by (destruct l; [congruence | simpl; lia]).
    destruct (Nat.le_gt_cases size (length l)) as [Hge|Hlt].
    + replace (length l + size - 1) with ((length l - size + size - 1) + 1 * size) by lia.
      rewrite Nat.div_add by lia. lia.
    + replace (length l - size + size - 1) with (size - 1) by lia.
      rewrite (Nat.div_small (size - 1)) by lia.
      apply (Nat.div_unique _ _ 1 (length l - 1)); lia.
Qed.

End Chunks.

(** ** Slices *)

Lemma firstn_at_most {A} (n : nat) (l : list A) :
  firstn (Nat.min n (length l)) l = firstn n l.
Proof.
  destruct (Nat.le_gt_cases n (length l)) as [H|H].
  - now rewrite Nat.min_l.
  - rewrite Nat.min_r, !firstn_all2 by lia. reflexivity.
Qed.

Lemma slice_is_chunk {A} (xs : list A) (k size : nat) :
  0 < size -> k <= length xs ->
  slice xs (Z.of_nat k) (Z.of_nat k + Z.of_nat size) = firstn size (skipn k xs).
Proof.
  intros Hsize Hk. unfold slice.
  assert (E1 : (Z.of_nat k <? 0)%Z = false) by (apply Z.ltb_ge; lia).
  assert (E2 : (Z.of_nat k + Z.of_nat size <? 0)%Z = false) by (apply Z.ltb_ge; lia).
  rewrite E1, E2.
  rewrite (Z.min_l (Z.of_nat k)) by lia.
  rewrite Nat2Z.id.
  rewrite <- (firstn_at_most size (skipn k xs)), length_skipn.
  f_equal. lia.
Qed.

(** ** The insert statement of a chunk *)

Section InsertStatement.
Context {num : JSNumber}.
Variable typeRow : ParamRow -> option UserRow.
Variable faulty : list statement -> bool.

Lemma nth_error_app_some {A} (l extra : list A) n x :
  nth_error l n = Some x -> nth_error (l ++ extra) n = Some x.
Proof.
  intros H. rewrite nth_error_app1; [assumption|].
  apply nth_error_Some. congruence.
Qed.

Lemma resolveGroup_more values extra g p :
  resolveGroup values g = Some p -> resolveGroup (values ++ extra) g = Some p.
Proof.
  destruct g as [[[a b] c] d]. unfold resolveGroup.
  destruct (nth_error values (a - 1)) as [x|] eqn:Ea; [|discriminate].
  destruct (nth_error values (b - 1)) as [y|] eqn:Eb; [|discriminate].
  destruct (nth_error values (c - 1)) as [z|] eqn:Ec; [|discriminate].
  destruct (nth_error values (d - 1)) as [w|] eqn:Ed; [|discriminate].
  now rewrite (nth_error_app_some _ extra _ _ Ea), (nth_error_app_some _ extra _ _ Eb),
    (nth_error_app_some _ extra _ _ Ec), (nth_error_app_some _ extra _ _ Ed).
Qed.

Lemma resolveGroup_last (values : list jsval) x y z w :
  let n := S (length values) in
  resolveGroup (values ++ [x; y; z; w]) (n, n + 1, n + 2, n + 3) = Some (x, y, z, w).
Proof.
  intros n. subst n. unfold resolveGroup.
  replace (S (length values) - 1) with (length values + 0) by lia.
  replace (S (length values) + 1 - 1) with (length values + 1) by lia.
  replace (S (length values) + 2 - 1) with (length values + 2) by lia.
  replace (S (length values) + 3 - 1) with (length values + 3) by lia.
  rewrite !nth_error_app2 by lia.
  replace (length values + 0 - length values) with 0 by lia.
  replace (length values + 1 - length values) with 1 by lia.
  replace (length values + 2 - length values) with 2 by lia.
  replace (length values + 3 - length values) with 3 by lia.
  cbn [nth_error].
  replace (Nat.eqb (S (length values)) 0) with false by reflexivity.
  replace (Nat.eqb (S (length values) + 1) 0) with false
    by (symmetry; apply Nat.eqb_neq; lia).
  replace (Nat.eqb (S (length values) + 2) 0) with false
    by (symmetry; apply Nat.eqb_neq; lia).
  replace (Nat.eqb (S (length values) + 3) 0) with false
    by (symmetry; apply Nat.eqb_neq; lia).
  reflexivity.
Qed.

Lemma insertUserBatch_loop_resolves users : forall values placeholders paramIndex params,
  paramIndex = S (length values) ->
  Forall2 (fun g p => resolveGroup values g = Some p) placeholders params ->
  Forall2 (fun g p =>
             resolveGroup (fst (insertUserBatch_loop users values placeholders paramIndex)) g
             = Some p)
          (snd (insertUserBatch_loop users values placeholders paramIndex))
          (params ++ map paramsOf users).
Proof.
  induction users as [|user users IH]; intros values placeholders paramIndex params Hidx Hres.
  - simpl. now rewrite app_nil_r.
  - cbn [insertUserBatch_loop map].
    replace (params ++ paramsOf user :: map paramsOf users)
      with ((params ++ [paramsOf user]) ++ map paramsOf users)
      by (now rewrite <- app_assoc).
    apply IH.
    + rewrite length_app. simpl. lia.
    + apply Forall2_app.
      * eapply Forall2_impl; [|exact Hres].
        intros g p Hg. now apply resolveGroup_more.
      * constructor; [|constructor]. subst paramIndex.
        apply resolveGroup_last.
Qed.

Lemma allSome_Forall2 {A B} (f : A -> option B) l ys :
  Forall2 (fun x y => f x = Some y) l ys -> allSome (map f l) = Some ys.
Proof.
  induction 1 as [|x y l ys Hxy _ IH]; simpl; [reflexivity|].
  now rewrite Hxy, IH.
Qed.

Lemma allSome_length {A} (l : list (option A)) xs :
  allSome l = Some xs -> length xs = length l.
Proof.
  revert xs. induction l as [|[x|] l IH]; intros xs H; simpl in H.
  - now inversion H.
  - destruct (allSome l) as [xs'|]; [|discriminate].
    inversion H. simpl. f_equal. now apply IH.
  - discriminate.
Qed.

(** The statement built for a chunk binds, row by row, the four parameters of
    each record, and the store writes the rows it types them to. *)
Lemma insertStatement_rows (batch : list object) :
  batch <> [] ->
  exists placeholders values,
    insertStatement batch = INSERT_USERS placeholders values /\
    insertedRows typeRow placeholders values
    = allSome (map (fun user => typeRow (paramsOf user)) batch).
Proof.
  intros Hne. unfold insertStatement.
  pose proof (insertUserBatch_loop_resolves batch [] [] 1 [] eq_refl (Forall2_nil _)) as H.
  destruct (insertUserBatch_loop batch [] [] 1) as [values placeholders].
  cbn [fst snd app] in H.
  exists placeholders, values. split; [reflexivity|].
  unfold insertedRows.
  rewrite (allSome_Forall2 _ _ _ H), map_map.
  destruct placeholders as [|g placeholders]; [|reflexivity].
  inversion H as [Hnil|]. destruct batch; [congruence | discriminate].
Qed.

Lemma execute_insert_in_transaction (batch : list object) (db : Db) pending :
  batch <> [] -> tx db = InTransaction pending ->
  execute typeRow faulty (insertStatement batch) db
  = if faulty (log db) then
      (Err queryError, withTx db Aborted (insertStatement batch))
    else
      match allSome (map (fun user => typeRow (paramsOf user)) batch) with
      | None => (Err queryError, withTx db Aborted (insertStatement batch))
      | Some new =>
          (Ok (noRows (length new)),
           withTx db (InTransaction (pending ++ new)) (insertStatement batch))
      end.
Proof.
  intros Hne Htx.
  destruct (insertStatement_rows batch Hne) as (placeholders & values & Hst & Hrows).
  rewrite Hst. cbn [execute]. rewrite Htx, Hrows.
  destruct (faulty (log db)); [reflexivity|].
  destruct (allSome _); reflexivity.
Qed.

End InsertStatement.

(** ** The chunk loop and the transaction *)

Section Transaction.
Context {num : JSNumber}.
Variable typeRow : ParamRow -> option UserRow.
Variable faulty : list statement -> bool.

Lemma runBatches_rows batches : forall history new,
  snd (runBatches typeRow faulty history batches) = Some new ->
  length new = length (concat batches) /\
  fst (runBatches typeRow faulty history batches) = map insertStatement batches.
Proof.
  induction batches as [|batch batches IH]; intros history new H.
  - simpl in *. inversion H. auto.
  - cbn [runBatches] in *.
    destruct (faulty history); [discriminate|].
    destruct (allSome _) as [rows|] eqn:Erows; [|discriminate].
    destruct (runBatches typeRow faulty (history ++ [insertStatement batch]) batches)
      as [issued [more|]] eqn:Erun; cbn [fst snd option_map] in *; [|discriminate].
    inversion H; subst new.
    destruct (IH (history ++ [insertStatement batch]) more) as [Hlen Hiss].
    { now rewrite Erun. }
    rewrite Erun in Hiss. cbn [fst] in Hiss.
    split.
    + cbn [concat map]. rewrite !length_app, Hlen.
      apply allSome_length in Erows. rewrite length_map in Erows. lia.
    + cbn [map]. now rewrite Hiss.
Qed.

Lemma runBatches_issued_prefix batches : forall history,
  exists j, j <= length batches /\
            fst (runBatches typeRow faulty history batches)
            = firstn j (map insertStatement batches).
Proof.
  induction batches as [|batch batches IH]; intros history.
  - exists 0. auto.
  - cbn [runBatches].
    destruct (faulty history).
    + exists 1. simpl. split; [lia | reflexivity].
    + destruct (allSome _).
      * destruct (IH (history ++ [insertStatement batch])) as (j & Hj & Hiss).
        destruct (runBatches typeRow faulty (history ++ [insertStatement batch]) batches)
          as [issued outcome].
        cbn [fst] in *. exists (S j). simpl. split; [lia | now rewrite Hiss].
      * exists 1. simpl. split; [lia | reflexivity].
Qed.

Lemma db_eta (db : Db) : {| table := table db; tx := tx db; log := log db |} = db.
Proof. now destruct db. Qed.

(** The loop from index [k] on performs the run of the chunks of the records
    left. *)
Lemma loop_performs_run (users : list object) (size : nat) :
  0 < size ->
  forall rest k fuel count db pending,
    rest = skipn k users ->
    length rest < fuel ->
    tx db = InTransaction pending ->
    batchInsertUsers_loop typeRow faulty fuel users (Z.of_nat size) (Z.of_nat k) count db
    = Some (afterRun db pending count
                     (runBatches typeRow faulty (log db) (chunks size rest))).
Proof.
  intros Hsize rest.
  induction rest as [|rest Hne IH] using (chunks_ind size Hsize);
    intros k fuel count db pending Hrest Hfuel Htx.
  - destruct fuel as [|fuel]; [simpl in Hfuel; lia|].
    cbn [batchInsertUsers_loop].
    assert (Hk : (Z.of_nat k <? Z.of_nat (length users))%Z = false).
    { apply Z.ltb_ge.
      assert (length (skipn k users) = 0) by now rewrite <- Hrest.
      rewrite length_skipn in *. lia. }
    rewrite Hk. unfold ret, afterRun. cbn [chunks chunks_fuel length runBatches fst snd].
    rewrite !app_nil_r, Nat.add_0_r, <- Htx. now rewrite db_eta.
  - destruct fuel as [|fuel]; [lia|].
    cbn [batchInsertUsers_loop].
    assert (Hlen : k < length users).
    { assert (length (skipn k users) <> 0)
        by (rewrite <- Hrest; destruct rest; simpl; congruence).
      rewrite length_skipn in *. lia. }
    assert (Hk : (Z.of_nat k <? Z.of_nat (length users))%Z = true)
      by (apply Z.ltb_lt; lia).
    rewrite Hk, slice_is_chunk, <- Hrest by lia.
    rewrite (chunks_cons size Hsize rest Hne). cbn [runBatches].
    assert (Hbatch : firstn size rest <> []).
    { destruct rest; [congruence|]. destruct size; [lia | discriminate]. }
    unfold bindM at 1. unfold insertUserBatch, query.
    rewrite (execute_insert_in_transaction typeRow faulty _ db pending Hbatch Htx).
    destruct (faulty (log db)); [reflexivity|].
    destruct (allSome _) as [new|] eqn:Enew; [|reflexivity].
    cbn [rowCount noRows].
    replace (Z.of_nat k + Z.of_nat size)%Z with (Z.of_nat (k + size)) by lia.
    rewrite (IH (k + size) fuel (count + length new)
                (withTx db (InTransaction (pending ++ new)) (insertStatement (firstn size rest)))
                (pending ++ new)).
    + unfold afterRun, withTx. cbn [log table].
      destruct (runBatches typeRow faulty (log db ++ [insertStatement (firstn size rest)])
                           (chunks size (skipn size rest))) as [issued [more|]];
        cbn [fst snd option_map].
      * rewrite length_app, <- !app_assoc, Nat.add_assoc. reflexivity.
      * rewrite <- app_assoc. reflexivity.
    + rewrite Hrest, skipn_skipn. f_equal. lia.
    + rewrite length_skipn.
      assert (1 <= length rest) by (destruct rest; [congruence | simpl; lia]). lia.
    + reflexivity.
Qed.

End Transaction.

Section AllOrNothing.
Context {num : JSNumber}.
Variable typeRow : ParamRow -> option UserRow.
Variable faulty : list statement -> bool.

(** C1. With a positive chunk size, on a session with no transaction open,
    [batchInsertUsers] comes back (given fuel for one iteration per record
    and one more) and behaves as follows.  The records are cut into
    consecutive chunks that concatenate to the input, each of the configured
    size but possibly the last, which is not empty; there are
    [ceil(length / size)] of them, 3 for 2500 records and size 1000.  The
    statements sent are one [BEGIN], then one insert per chunk in order up to
    the first one the store fails, then one [COMMIT] if none failed and one
    [ROLLBACK] otherwise.  If none failed the call returns the number of
    records and the table has gained the rows of all of them; if one failed
    the call throws and the table is what it was: no row is committed. *)
Theorem batch_insert_all_or_nothing (fuel : nat) (env : Env) (users : list object) (db : Db) :
  let batchSize := intOr (BATCH_SIZE env) 1000 in
  (0 < batchSize)%Z -> tx db = Idle -> length users < fuel ->
  let size := Z.to_nat batchSize in
  let batches := chunks size users in
  let run := runBatches typeRow faulty (log db ++ [BEGIN]) batches in
  (concat batches = users /\
   Forall (fun b => 1 <= length b <= size) batches /\
   (forall j, S j < length batches -> length (nth j batches []) = size) /\
   length batches = (length users + size - 1) / size /\
   (length users = 2500 -> batchSize = 1000%Z -> length batches = 3)) /\
  (exists j, j <= length batches /\ fst run = firstn j (map insertStatement batches)) /\
  match snd run with
  | Some new =>
      fst run = map insertStatement batches /\
      length new = length users /\
      batchInsertUsers typeRow faulty fuel env users db
      = Some (Ok (length users),
              {| table := table db ++ new; tx := Idle;
                 log := log db ++ BEGIN :: fst run ++ [COMMIT] |})
  | None =>
      batchInsertUsers typeRow faulty fuel env users db
      = Some (Err queryError,
              {| table := table db; tx := Idle;
                 log := log db ++ BEGIN :: fst run ++ [ROLLBACK] |})
  end.
Proof.
  intros batchSize Hpos Htx Hfuel size batches run.
  assert (Hsize : 0 < size) by (subst size; lia).
  split; [|split].
  - subst batches.
    split; [apply concat_chunks; assumption|].
    split; [apply chunks_sizes; assumption|].
    split; [apply chunks_full_but_last; assumption|].
    split; [apply chunks_count; assumption|].
    intros Hlen Hbs. rewrite chunks_count by assumption.
    subst size. rewrite Hlen, Hbs. reflexivity.
  - apply runBatches_issued_prefix.
  - assert (Hloop :
      batchInsertUsers_loop typeRow faulty fuel users batchSize 0 0
                            (withTx db (InTransaction []) BEGIN)
      = Some (afterRun (withTx db (InTransaction []) BEGIN) [] 0 run)).
    { replace batchSize with (Z.of_nat size) by (subst size; lia).
      change 0%Z with (Z.of_nat 0).
      apply (loop_performs_run typeRow faulty users size Hsize users 0);
        [reflexivity | assumption | reflexivity]. }
    assert (Hcall :
      batchInsertUsers typeRow faulty fuel env users db
      = match snd run with
        | Some new =>
            Some (Ok (length new),
                  {| table := table db ++ new; tx := Idle;
                     log := log db ++ BEGIN :: fst run ++ [COMMIT] |})
        | None =>
            Some (Err queryError,
                  {| table := table db; tx := Idle;
                     log := log db ++ BEGIN :: fst run ++ [ROLLBACK] |})
        end).
    { unfold batchInsertUsers, tryCatch, bindM, query, ret, throw.
      cbn [execute]. rewrite Htx. fold batchSize. rewrite Hloop.
      unfold afterRun, withTx. cbn [table log tx].
      destruct (snd run) as [new|]; cbn [execute tx table log app Nat.add];
        rewrite <- !app_assoc; reflexivity. }
    rewrite Hcall.
    destruct (snd run) as [new|] eqn:Erun; [|reflexivity].
    destruct (runBatches_rows typeRow faulty batches _ new Erun) as [Hlen Hissued].
    fold run in Hissued.
    assert (Hall : length new = length users).
    { rewrite Hlen. subst batches. now rewrite concat_chunks. }
    split; [exact Hissued|]. split; [exact Hall|].
    now rewrite Hall.
Qed.

End AllOrNothing.

Lemma batch_insert_all_or_nothing_witness :
  exists db',
    batchInsertUsers (num := IntegerNumbers) typeIntegerRow failsFourthStatement 2501
                     defaultEnv (repeat janeDoe 2500) emptyStore
    = Some (Err queryError, db') /\
    table db' = [] /\
    tx db' = Idle /\
    map isInsert (log db') = [false; true; true; true; false].
Proof.
  destruct (batch_insert_all_or_nothing (num := IntegerNumbers)
              typeIntegerRow failsFourthStatement 2501 defaultEnv
              (repeat janeDoe 2500) emptyStore) as (_ & _ & Hrun).
  - reflexivity.
  - reflexivity.
  - rewrite repeat_length. apply Nat.lt_succ_diag_r.
  - cbv zeta in Hrun.
    match type of Hrun with
    | match ?x with _ => _ end =>
        assert (E : x = None) by (vm_compute; reflexivity); rewrite E in Hrun
    end.
    eexists. split; [exact Hrun|].
    split; [reflexivity|]. split; [reflexivity|].
    vm_compute. reflexivity.
Defined.

End PersisterFacts.

(* ================================================================== *)
(** * Properties of the age report *)
(* ================================================================== *)

Module ReportFacts.
Import JS Database UserService ReportService Spec.

Lemma fold_min_least (l : list Z) : forall x,
  isLeast (fold_left Z.min l x) (x :: l).
Proof.
  unfold isLeast. induction l as [|y l IH]; intros x; cbn [fold_left].
  - split; [now left|]. intros a [<-|[]]. lia.
  - destruct (IH (Z.min x y)) as [Hin Hle]. split.
    + destruct Hin as [Hin|Hin]; [|now right; right].
      rewrite <- Hin. destruct (Z.min_spec x y) as [[_ ->]|[_ ->]]; simpl; auto.
    + intros a [<-|[<-|Ha]].
      * specialize (Hle (Z.min x y) (or_introl eq_refl)). lia.
      * specialize (Hle (Z.min x y) (or_introl eq_refl)). lia.
      * apply Hle. now right.
Qed.

Lemma fold_max_greatest (l : list Z) : forall x,
  isGreatest (fold_left Z.max l x) (x :: l).
Proof.
  unfold isGreatest. induction l as [|y l IH]; intros x; cbn [fold_left].
  - split; [now left|]. intros a [<-|[]]. lia.
  - destruct (IH (Z.max x y)) as [Hin Hle]. split.
    + destruct Hin as [Hin|Hin]; [|now right; right].
      rewrite <- Hin. destruct (Z.max_spec x y) as [[_ ->]|[_ ->]]; simpl; auto.
    + intros a [<-|[<-|Ha]].
      * specialize (Hle (Z.max x y) (or_introl eq_refl)). lia.
      * specialize (Hle (Z.max x y) (or_introl eq_refl)). lia.
      * apply Hle. now right.
Qed.

Lemma minZ_spec (ages : list Z) :
  match minZ ages with
  | Some m => isLeast m ages
  | None => ages = []
  end.
Proof. destruct ages as [|x l]; [reflexivity | apply fold_min_least]. Qed.

Lemma maxZ_spec (ages : list Z) :
  match maxZ ages with
  | Some m => isGreatest m ages
  | None => ages = []
  end.
Proof. destruct ages as [|x l]; [reflexivity | apply fold_max_greatest]. Qed.

(** A bucket count of the query is the number of rows of interest in the
    bucket. *)
Lemma countWhere_rows (p q : Z -> bool) (users : list UserRow) :
  (forall a, (0 < a)%Z -> p a = q a) ->
  countWhere p (reportedAges users)
  = Z.of_nat (length (filter (fun r => (0 <? col_age r)%Z && q (col_age r)) users)).
Proof.
  intros Hpq. unfold countWhere, reportedAges. f_equal.
  induction users as [|r users IH]; [reflexivity|].
  cbn [filter]. destruct (0 <? col_age r)%Z eqn:E; cbn [map filter andb]; [|exact IH].
  apply Z.ltb_lt in E. rewrite (Hpq _ E).
  destruct (q (col_age r)); cbn [length]; now rewrite IH.
Qed.

Lemma buckets_partition (ages : list Z) :
  (countWhere (fun age => age <? 20) ages
   + countWhere (fun age => (20 <=? age) && (age <? 40)) ages
   + countWhere (fun age => (40 <=? age) && (age <? 60)) ages
   + countWhere (fun age => 60 <=? age) ages
   = Z.of_nat (length ages))%Z.
Proof.
  unfold countWhere. induction ages as [|a ages IH]; [reflexivity|].
  cbn [filter length].
  destruct (Z.ltb_spec a 20), (Z.leb_spec 20 a), (Z.ltb_spec a 40),
    (Z.leb_spec 40 a), (Z.ltb_spec a 60), (Z.leb_spec 60 a);
    cbn [andb length]; lia.
Qed.

Lemma reportedAges_positive (users : list UserRow) :
  Forall (fun a => 0 < a)%Z (reportedAges users).
Proof.
  unfold reportedAges. induction users as [|r users IH]; [constructor|].
  cbn [filter]. destruct (0 <? col_age r)%Z eqn:E; [|exact IH].
  cbn [map]. constructor; [now apply Z.ltb_lt | exact IH].
Qed.

Lemma sumZ_nonneg (ages : list Z) :
  Forall (fun a => 0 < a)%Z ages -> (0 <= sumZ ages)%Z.
Proof. induction 1; simpl; lia. Qed.

Lemma meanOf_nonneg (ages : list Z) :
  Forall (fun a => 0 < a)%Z ages -> (0 <= meanOf ages)%Q.
Proof.
  intros H. apply sumZ_nonneg in H. unfold meanOf.
  set (s := sumZ ages) in *. clearbody s.
  destruct ages as [|a l]; unfold Qle, Qdiv, Qmult, Qinv, inject_Z;
    cbn [length Z.of_nat Qnum Qden]; lia.
Qed.

(** What the aggregate query answers on a table. *)
Lemma selectAgeStatistics_spec (users : list UserRow) :
  let stats := selectAgeStatistics users in
  let ages := reportedAges users in
  total_users stats = Z.of_nat (length ages) /\
  under_20 stats = countInBucket 0 (Some 20%Z) users /\
  age_20_to_40 stats = countInBucket 20 (Some 40%Z) users /\
  age_40_to_60 stats = countInBucket 40 (Some 60%Z) users /\
  over_60 stats = countInBucket 60 None users /\
  (under_20 stats + age_20_to_40 stats + age_40_to_60 stats + over_60 stats
   = total_users stats)%Z /\
  (ages = [] ->
   average_age stats = None /\ min_age stats = None /\ max_age stats = None) /\
  (ages <> [] ->
   average_age stats = Some (meanOf ages) /\
   exists lo hi, min_age stats = Some lo /\ isLeast lo ages /\
                 max_age stats = Some hi /\ isGreatest hi ages).
Proof.
  intros stats ages. subst stats. unfold selectAgeStatistics.
  change (map col_age (filter ageOfInterest users)) with ages.
  cbn [total_users under_20 age_20_to_40 age_40_to_60 over_60 average_age min_age max_age].
  split; [reflexivity|].
  split; [|split; [|split; [|split]]].
  - subst ages. unfold countInBucket. rewrite (countWhere_rows _ (fun a => (0 <=? a) && (a <? 20))%Z).
    + do 2 f_equal. apply filter_ext. intros r. now rewrite andb_assoc.
    + intros a Ha. destruct (Z.leb_spec 0 a); [reflexivity | lia].
  - subst ages. unfold countInBucket. rewrite (countWhere_rows _ (fun a => (20 <=? a) && (a <? 40))%Z).
    + do 2 f_equal. apply filter_ext. intros r. now rewrite andb_assoc.
    + reflexivity.
  - subst ages. unfold countInBucket. rewrite (countWhere_rows _ (fun a => (40 <=? a) && (a <? 60))%Z).
    + do 2 f_equal. apply filter_ext. intros r. now rewrite andb_assoc.
    + reflexivity.
  - subst ages. unfold countInBucket. rewrite (countWhere_rows _ (fun a => (60 <=? a) && true)%Z).
    + do 2 f_equal. apply filter_ext. intros r. now rewrite andb_assoc.
    + intros a _. now rewrite andb_true_r.
  - split; [apply buckets_partition|]. split.
    + intros ->. auto.
    + intros Hne. split; [destruct ages; [congruence | reflexivity]|].
      pose proof (minZ_spec ages) as Hmin. pose proof (maxZ_spec ages) as Hmax.
      destruct (minZ ages) as [lo|]; [|congruence].
      destruct (maxZ ages) as [hi|]; [|congruence].
      exists lo, hi. auto.
Qed.

Section Report.
Context {num : JSNumber} {b64 : Binary64}.
Variable typeRow : ParamRow -> option UserRow.
Variable faulty : list statement -> bool.

Lemma getAgeStatistics_runs (db : Db) :
  tx db = Idle ->
  getAgeStatistics typeRow faulty db
  = Some (Ok (Some (selectAgeStatistics (table db))),
          withTx db Idle SELECT_AGE_STATISTICS).
Proof.
  intros Htx. unfold getAgeStatistics, bindM, query, ret.
  cbn [execute]. unfold visibleRows. rewrite Htx. reflexivity.
Qed.

Lemma getAgeDistribution_runs (db : Db) :
  tx db = Idle ->
  getAgeDistribution typeRow faulty db
  = Some (Ok (ageDistributionOf (Some (selectAgeStatistics (table db)))),
          withTx db Idle SELECT_AGE_STATISTICS).
Proof.
  intros Htx. unfold getAgeDistribution, bindM.
  rewrite getAgeStatistics_runs by assumption. reflexivity.
Qed.

(** C2, amended.  On a session with no transaction open, the statistics
    query restricts to the rows with [age > 0] and answers their number, the
    numbers in the four buckets [0,20), [20,40), [40,60) and [60,inf), which
    add up to the total, and the mean, the least and the greatest age, the
    last three being [NULL] when there is no such row.
    [getAgeDistribution] reports, when there is such a row, the same total
    and the four bucket counts in that order, the same least and greatest
    age, and the mean as [parseFloat] and [toFixed(1)] print it; when there
    is none it returns total 0, no age group at all, average 0 and the range
    0 to 0.  Neither call fails.  On the ages 10, 25, 45 and 70 every bucket
    counts 1, the mean is 75/2, the range is 10 to 70. *)
Theorem age_report (db : Db) :
  tx db = Idle ->
  let ages := reportedAges (table db) in
  let stats := selectAgeStatistics (table db) in
  let report := ageDistributionOf (Some stats) in
  let db' := withTx db Idle SELECT_AGE_STATISTICS in
  getAgeStatistics typeRow faulty db = Some (Ok (Some stats), db') /\
  getAgeDistribution typeRow faulty db = Some (Ok report, db') /\
  (total_users stats = Z.of_nat (length ages) /\
   under_20 stats = countInBucket 0 (Some 20%Z) (table db) /\
   age_20_to_40 stats = countInBucket 20 (Some 40%Z) (table db) /\
   age_40_to_60 stats = countInBucket 40 (Some 60%Z) (table db) /\
   over_60 stats = countInBucket 60 None (table db) /\
   (under_20 stats + age_20_to_40 stats + age_40_to_60 stats + over_60 stats
    = total_users stats)%Z) /\
  (ages = [] ->
   average_age stats = None /\ min_age stats = None /\ max_age stats = None /\
   report = emptyReport) /\
  (ages <> [] ->
   average_age stats = Some (meanOf ages) /\
   (exists lo hi, min_age stats = Some lo /\ isLeast lo ages /\
                  max_age stats = Some hi /\ isGreatest hi ages) /\
   totalUsers report = Z.of_nat (length ages) /\
   map count (ageGroups report)
   = [under_20 stats; age_20_to_40 stats; age_40_to_60 stats; over_60 stats] /\
   map group (ageGroups report) = ["< 20"; "20 to 40"; "40 to 60"; "> 60"] /\
   averageAge report = JSStr (toFixed1 (parseFloat (meanOf ages))) /\
   ageRange report = {| min := min_age stats; max := max_age stats |}) /\
  (ages = [10; 25; 45; 70]%Z ->
   map count (ageGroups report) = [1; 1; 1; 1]%Z /\
   average_age stats = Some (meanOf [10; 25; 45; 70]%Z) /\
   (meanOf [10; 25; 45; 70]%Z == 75 # 2)%Q /\
   averageAge report = JSStr (toFixed1 (parseFloat (meanOf [10; 25; 45; 70]%Z))) /\
   ageRange report = {| min := Some 10%Z; max := Some 70%Z |}).
Proof.
  intros Htx ages stats report db'.
  destruct (selectAgeStatistics_spec (table db))
    as (Htotal & Hu & Ha & Hb & Ho & Hsum & Hempty & Hsome).
  fold ages in Htotal, Hempty, Hsome. fold stats in Htotal, Hu, Ha, Hb, Ho, Hsum, Hempty, Hsome.
  split; [now apply getAgeStatistics_runs|].
  split; [now apply getAgeDistribution_runs|].
  split; [repeat split; assumption|].
  split; [|split].
  - intros Hnil. destruct (Hempty Hnil) as (Havg & Hmin & Hmax).
    repeat split; try assumption.
    subst report. unfold ageDistributionOf. rewrite Htotal, Hnil. reflexivity.
  - intros Hne. destruct (Hsome Hne) as (Havg & Hrange).
    split; [assumption|]. split; [assumption|].
    assert (Hnz : (total_users stats =? 0)%Z = false).
    { apply Z.eqb_neq. rewrite Htotal. destruct ages; [congruence | simpl; lia]. }
    subst report. unfold ageDistributionOf. rewrite Hnz.
    cbn [totalUsers ageGroups averageAge ageRange map count group].
    rewrite Havg. repeat split; try assumption; try reflexivity.
  - intros Hages. subst report stats. unfold ageDistributionOf, selectAgeStatistics.
    change (map col_age (filter ageOfInterest (table db))) with ages.
    rewrite Hages. repeat split.
Qed.

End Report.

(** C2, as stated, fails on the table with no row of interest: the report
    has no age group, so no four bucket counts, and the statistics row has
    [NULL], not zero, for the average, the minimum and the maximum. *)
Lemma empty_report_has_no_buckets :
  getAgeDistribution (num := IntegerNumbers) (b64 := ExactArithmetic)
                     typeIntegerRow neverFaulty emptyStore
  = Some (Ok emptyReport, withTx emptyStore Idle SELECT_AGE_STATISTICS) /\
  map count (ageGroups emptyReport) <> [0; 0; 0; 0]%Z /\
  (exists stats db',
      getAgeStatistics (num := IntegerNumbers) typeIntegerRow neverFaulty emptyStore
      = Some (Ok (Some stats), db') /\
      average_age stats <> Some 0%Q /\
      min_age stats <> Some 0%Z /\ max_age stats <> Some 0%Z).
Proof.
  split; [reflexivity|]. split; [discriminate|].
  eexists. eexists. split; [reflexivity|].
  repeat split; discriminate.
Qed.

Lemma age_report_witness :
  exists report db',
    getAgeDistribution (num := IntegerNumbers) (b64 := ExactArithmetic)
                       typeIntegerRow neverFaulty fourAges
    = Some (Ok report, db') /\
    map count (ageGroups report) = [1; 1; 1; 1]%Z /\
    averageAge report = JSStr "37.5" /\
    ageRange report = {| min := Some 10%Z; max := Some 70%Z |}.
Proof.
  destruct (age_report (num := IntegerNumbers) (b64 := ExactArithmetic)
                       typeIntegerRow neverFaulty fourAges eq_refl)
    as (_ & Hrun & _ & _ & _ & Hfour).
  destruct (Hfour eq_refl) as (Hcount & _ & _ & Havg & Hrange).
  eexists. eexists. split; [exact Hrun|].
  split; [exact Hcount|]. split; [exact Havg | exact Hrange].
Defined.

End ReportFacts.

(* ================================================================== *)
(** * Worked examples *)
(* ================================================================== *)

Module Examples.
Import JS CSVService Database UserService ReportService Spec.

(** The row of section 8 of the specification: age becomes a number. *)
Example mapper_on_jane :
  convertToJSON (num := IntegerNumbers)
                ["name.firstName"; "name.lastName"; "age"; "address.city"]
                ["Jane"; "Doe"; "30"; "Boston"]
  = Ok [("name", VObj [("firstName", VStr "Jane"); ("lastName", VStr "Doe")]);
        ("age", VNum (ofZ 30));
        ("address", VObj [("city", VStr "Boston")])].
Proof. reflexivity. Qed.

(** A path that runs into a value that is no object replaces it. *)
Example mapper_overwrites_a_leaf :
  convertToJSON (num := IntegerNumbers) ["a"; "a.b"] ["x"; "y"]
  = Ok [("a", VObj [("b", VStr "y")])].
Proof. reflexivity. Qed.

Example tokenizer_on_open_quote :
  parseCSVLine (String DQUOTE "a,b") = ["a,b"].
Proof. reflexivity. Qed.

Example splitLines_on_mixed_endings :
  splitLines ("a" ++ String CR (String LF ("b" ++ String LF ("c" ++ String CR "d"))))%string
  = ["a"; "b"; ("c" ++ String CR "d")%string].
Proof. reflexivity. Qed.

(** Parse, persist and report on four people. *)
Example pipeline_on_four_people :
  match parseContent (num := IntegerNumbers) fourPeople with
  | Ok users =>
      match batchInsertUsers typeIntegerRow neverFaulty 5 defaultEnv users emptyStore with
      | Some (Ok inserted, db1) =>
          inserted = 4 /\
          map col_name (table db1) = ["Jane Doe"; "Tim Roe"; "Ann Lee"; "Bob Ray"] /\
          map col_age (table db1) = [30; 10; 45; 70]%Z /\
          hd_error (map col_address (table db1))
          = Some (Some ("{" ++ quoteJSONString "city" ++ ":"
                            ++ quoteJSONString "Boston" ++ "}")%string) /\
          match getAgeDistribution (b64 := ExactArithmetic)
                                   typeIntegerRow neverFaulty db1 with
          | Some (Ok report, _) =>
              report
              = {| totalUsers := 4;
                   ageGroups :=
                     [ {| group := "< 20"; count := 1; percentage := 25 |};
                       {| group := "20 to 40"; count := 1; percentage := 25 |};
                       {| group := "40 to 60"; count := 1; percentage := 25 |};
                       {| group := "> 60"; count := 1; percentage := 25 |} ];
                   averageAge := JSStr "38.8";
                   ageRange := {| min := Some 10%Z; max := Some 70%Z |} |}
          | _ => False
          end
      | _ => False
      end
  | Err _ => False
  end.
Proof. vm_compute. repeat split. Qed.

(** An age that is no number reaches the store as text; the store refuses
    the row and the whole batch is rolled back. *)
Example pipeline_on_bad_age :
  match parseContent (num := IntegerNumbers) badAge with
  | Ok users =>
      length users = 2 /\
      match batchInsertUsers typeIntegerRow neverFaulty 3 defaultEnv users emptyStore with
      | Some (Err _, db1) =>
          table db1 = [] /\ map isInsert (log db1) = [false; true; false]
      | _ => False
      end
  | Err _ => False
  end.
Proof. vm_compute. repeat split. Qed.

End Examples.

(* ================================================================== *)
(** * Further properties of the tokenizer *)
(* ================================================================== *)

Module TokenizerMore.
Import JS CSVService Spec Vocabulary.

(** ** Lines *)

Lemma string_length_ind (P : string -> Prop) :
  (forall s, (forall t, String.length t < String.length s -> P t) -> P s) ->
  forall s, P s.
Proof.
  intros H s. remember (String.length s) as n eqn:Hn. revert s Hn.
  induction n as [n IH] using lt_wf_ind. intros s Hn.
  apply H. intros t Ht. apply (IH (String.length t)); [lia | reflexivity].
Qed.

Lemma splitLines_go_not_empty content : forall current,
  splitLines_go content current <> [].
Proof.
  induction content as [content IH] using string_length_ind.
  intros current. destruct content as [|c rest]; [discriminate|].
  cbn [splitLines_go]. destruct (Ascii.eqb c LF); [discriminate|].
  destruct rest as [|c2 rest2]; [discriminate|].
  destruct (Ascii.eqb c CR && Ascii.eqb c2 LF); [discriminate|].
  apply IH. simpl. lia.
Qed.

Lemma join_cons sep x xs :
  xs <> [] -> join sep (x :: xs) = (x ++ sep ++ join sep xs)%string.
Proof. destruct xs; [congruence | reflexivity]. Qed.

Lemma contains_cons c x s :
  contains c (String x s) = false -> x <> c /\ contains c s = false.
Proof.
  simpl. intros H. apply orb_false_iff in H. destruct H as [H1 H2].
  apply Ascii.eqb_neq in H1. auto.
Qed.

(** Without CR in the text, joining the lines with LF gives the text back. *)
Lemma join_splitLines_go content : forall current,
  contains CR content = false ->
  join (String LF EmptyString) (splitLines_go content current)
  = (current ++ content)%string.
Proof.
  induction content as [|c rest IH]; intros current Hcr.
  - simpl. now rewrite TokenizerFacts.append_empty_r.
  - apply contains_cons in Hcr. destruct Hcr as [Hc Hrest].
    assert (Hstep : splitLines_go (String c rest) current
                    = if Ascii.eqb c LF then current :: splitLines_go rest EmptyString
                      else splitLines_go rest (push_char current c)).
    { cbn [splitLines_go]. destruct (Ascii.eqb c LF); [reflexivity|].
      destruct rest as [|c2 rest2]; [reflexivity|].
      apply Ascii.eqb_neq in Hc. now rewrite Hc. }
    rewrite Hstep. destruct (Ascii.eqb c LF) eqn:E.
    + apply Ascii.eqb_eq in E. subst c.
      rewrite join_cons by apply splitLines_go_not_empty.
      now rewrite IH.
    + rewrite IH by assumption. apply TokenizerFacts.push_char_append.
Qed.

Lemma splitLines_go_plain_end l : forall current,
  contains LF l = false ->
  splitLines_go l current = [(current ++ l)%string].
Proof.
  induction l as [|c l IH]; intros current Hlf.
  - simpl. now rewrite TokenizerFacts.append_empty_r.
  - apply contains_cons in Hlf. destruct Hlf as [Hc Hl].
    apply Ascii.eqb_neq in Hc.
    cbn [splitLines_go]. rewrite Hc.
    destruct l as [|c2 l2].
    + reflexivity.
    + destruct (contains_cons _ _ _ Hl) as [Hc2 _].
      apply Ascii.eqb_neq in Hc2. rewrite Hc2, andb_false_r.
      rewrite IH by assumption. now rewrite TokenizerFacts.push_char_append.
Qed.

Lemma splitLines_go_plain l : forall current rest,
  plainLine l ->
  splitLines_go (l ++ String LF rest) current
  = (current ++ l)%string :: splitLines_go rest EmptyString.
Proof.
  induction l as [|c l IH]; intros current rest [Hlf Hcr].
  - cbn [append splitLines_go]. rewrite Ascii.eqb_refl.
    now rewrite TokenizerFacts.append_empty_r.
  - apply contains_cons in Hlf. destruct Hlf as [Hc Hl].
    apply Ascii.eqb_neq in Hc.
    cbn [append splitLines_go]. rewrite Hc.
    destruct l as [|c2 l2].
    + cbn [append]. simpl in Hcr. rewrite Hcr. cbn [andb].
      change (String LF rest) with (EmptyString ++ String LF rest)%string.
      rewrite IH by (split; reflexivity).
      now rewrite TokenizerFacts.append_empty_r.
    + destruct (contains_cons _ _ _ Hl) as [Hc2 _].
      apply Ascii.eqb_neq in Hc2.
      cbn [append]. rewrite Hc2, andb_false_r.
      change (String c2 (l2 ++ String LF rest))
        with (String c2 l2 ++ String LF rest)%string.
      rewrite IH by (split; [assumption | exact Hcr]).
      now rewrite TokenizerFacts.push_char_append.
Qed.

Lemma splitLines_go_no_LF content : forall current,
  contains LF current = false ->
  Forall (fun l => contains LF l = false) (splitLines_go content current).
Proof.
  induction content as [content IH] using string_length_ind.
  intros current Hcur. destruct content as [|c rest].
  - constructor; [assumption | constructor].
  - assert (Hpush : Ascii.eqb c LF = false ->
                    contains LF (push_char current c) = false).
    { intros E. unfold push_char.
      clear - Hcur E. induction current as [|x cur IHc]; simpl in *.
      - now rewrite E.
      - apply orb_false_iff in Hcur. destruct Hcur as [-> Hcur]. now apply IHc. }
    cbn [splitLines_go]. destruct (Ascii.eqb c LF) eqn:E.
    + constructor; [assumption|]. apply IH; [simpl; lia | reflexivity].
    + destruct rest as [|c2 rest2].
      * apply IH; [simpl; lia | now apply Hpush].
      * destruct (Ascii.eqb c CR && Ascii.eqb c2 LF).
        -- constructor; [assumption|]. apply IH; [simpl; lia | reflexivity].
        -- apply IH; [simpl; lia | now apply Hpush].
Qed.

(** X1. [splitLines] always returns at least one line and no line holds a
    line feed; it undoes joining with LF for lines that hold no LF and do not
    end with CR, and without CR in the text joining its lines with LF gives
    the text back. *)
Theorem splitLines_round_trip :
  (forall content,
      splitLines content <> [] /\
      Forall (fun l => contains LF l = false) (splitLines content)) /\
  (forall ls, ls <> [] -> Forall plainLine ls ->
              splitLines (join (String LF EmptyString) ls) = ls) /\
  (forall content, contains CR content = false ->
                   join (String LF EmptyString) (splitLines content) = content).
Proof.
  split; [|split].
  - intros content. split.
    + apply splitLines_go_not_empty.
    + apply splitLines_go_no_LF. reflexivity.
  - intros ls Hne Hall. unfold splitLines.
    induction Hall as [|l ls Hl Hall IH]; [congruence|].
    destruct ls as [|l2 ls].
    + cbn [join String.concat]. destruct Hl as [Hlf _].
      now rewrite splitLines_go_plain_end.
    + rewrite join_cons by discriminate.
      cbn [append]. rewrite splitLines_go_plain by assumption.
      cbn [append]. f_equal. apply IH. discriminate.
  - intros content Hcr. unfold splitLines.
    now rewrite join_splitLines_go.
Qed.

Lemma splitLines_round_trip_witness :
  splitLines (join (String LF EmptyString) ["a,b"; EmptyString; "c"]) = ["a,b"; EmptyString; "c"] /\
  join (String LF EmptyString) (splitLines "no line break") = "no line break".
Proof.
  split.
  - apply (proj1 (proj2 splitLines_round_trip)).
    + discriminate.
    + repeat constructor.
  - apply (proj2 (proj2 splitLines_round_trip)). reflexivity.
Defined.

(** ** Fields *)

Lemma loop_without_quotes line : forall result current,
  contains DQUOTE line = false ->
  parseCSVLine_loop line result current false
  = result ++ map trim (split_go COMMA line current).
Proof.
  induction line as [|c line IH]; intros result current Hq; [reflexivity|].
  apply contains_cons in Hq. destruct Hq as [Hc Hline].
  apply Ascii.eqb_neq in Hc.
  assert (Hstep : parseCSVLine_loop (String c line) result current false
                  = if Ascii.eqb c COMMA
                    then parseCSVLine_loop line (result ++ [trim current]) EmptyString false
                    else parseCSVLine_loop line result (push_char current c) false).
  { cbn [parseCSVLine_loop]. rewrite Hc. now rewrite andb_true_r. }
  rewrite Hstep. cbn [split_go].
  destruct (Ascii.eqb c COMMA); rewrite IH by assumption.
  - now rewrite <- app_assoc.
  - reflexivity.
Qed.

Lemma split_go_length sep s : forall current,
  length (split_go sep s current) = S (countChar sep s).
Proof.
  induction s as [|c s IH]; intros current; [reflexivity|].
  cbn [split_go countChar]. destruct (Ascii.eqb c sep); cbn [length]; now rewrite IH.
Qed.

(** X2. On a line without double quotes [parseCSVLine] is [split(',')]
    followed by [trim] on every piece, so the line has one field more than it
    has commas. *)
Theorem parseCSVLine_without_quotes (line : string) :
  contains DQUOTE line = false ->
  parseCSVLine line = map trim (split COMMA line) /\
  length (parseCSVLine line) = S (countChar COMMA line).
Proof.
  intros Hq. unfold parseCSVLine, split.
  rewrite loop_without_quotes by assumption. cbn [app].
  split; [reflexivity|]. now rewrite length_map, split_go_length.
Qed.

Lemma parseCSVLine_without_quotes_witness :
  parseCSVLine " Jane , Doe,,30 " = ["Jane"; "Doe"; EmptyString; "30"].
Proof.
  rewrite (proj1 (parseCSVLine_without_quotes " Jane , Doe,,30 " eq_refl)).
  reflexivity.
Defined.

Lemma trimStart_cleanStart s : cleanStart (trimStart s).
Proof.
  induction s as [|c s IH]; simpl; [exact I|].
  destruct (isWhiteSpace c) eqn:E; [exact IH | exact E].
Qed.

Lemma trimStart_clean s : cleanStart s -> trimStart s = s.
Proof. destruct s as [|c s]; simpl; [reflexivity|]. now intros ->. Qed.

Lemma trimEnd_cleanStart s : cleanStart s -> cleanStart (trimEnd s).
Proof.
  destruct s as [|c s]; simpl; [exact (fun H => H)|].
  intros Hc. destruct (trimEnd s); simpl; [now rewrite Hc | exact Hc].
Qed.

Lemma trimEnd_step c s :
  trimEnd (String c s)
  = match trimEnd s with
    | EmptyString => if isWhiteSpace c then EmptyString else String c EmptyString
    | r => String c r
    end.
Proof. reflexivity. Qed.

Lemma trimEnd_idempotent s : trimEnd (trimEnd s) = trimEnd s.
Proof.
  induction s as [|c s IH]; [reflexivity|].
  rewrite trimEnd_step. destruct (trimEnd s) as [|d r] eqn:E.
  - destruct (isWhiteSpace c) eqn:W; [reflexivity|]. simpl. now rewrite W.
  - rewrite trimEnd_step, IH. reflexivity.
Qed.

Lemma trim_idempotent s : trim (trim s) = trim s.
Proof.
  unfold trim.
  rewrite (trimStart_clean (trimEnd (trimStart s)))
    by apply trimEnd_cleanStart, trimStart_cleanStart.
  apply trimEnd_idempotent.
Qed.

Lemma loop_fields_trimmed line : forall result current inQuotes,
  Forall (fun f => trim f = f) result ->
  Forall (fun f => trim f = f) (parseCSVLine_loop line result current inQuotes).
Proof.
  induction line as [line IH] using string_length_ind.
  intros result current inQuotes Hres.
  assert (Hpush : Forall (fun f => trim f = f) (result ++ [trim current])).
  { apply Forall_app. split; [assumption|].
    constructor; [apply trim_idempotent | constructor]. }
  destruct line as [|char rest]; [exact Hpush|].
  cbn [parseCSVLine_loop].
  destruct (Ascii.eqb char DQUOTE).
  - destruct rest as [|next rest2]; [apply IH; [simpl; lia | assumption]|].
    destruct (inQuotes && Ascii.eqb next DQUOTE);
      (apply IH; [simpl; lia | assumption]).
  - destruct (Ascii.eqb char COMMA && negb inQuotes);
      (apply IH; [simpl; lia | assumption]).
Qed.

(** X3. Every field [parseCSVLine] returns is trimmed: it carries no white
    space at either end, quoted or not. *)
Theorem parseCSVLine_fields_trimmed (line : string) :
  Forall (fun field => trim field = field) (parseCSVLine line) /\
  Forall (fun field => cleanStart field) (parseCSVLine line).
Proof.
  assert (H : Forall (fun field => trim field = field) (parseCSVLine line))
    by (apply loop_fields_trimmed; constructor).
  split; [exact H|].
  eapply Forall_impl; [|exact H].
  intros f Hf. rewrite <- Hf. unfold trim.
  apply trimEnd_cleanStart, trimStart_cleanStart.
Qed.

Lemma loop_inside_open_quote v : forall result current,
  contains DQUOTE v = false ->
  parseCSVLine_loop v result current true = result ++ [trim (current ++ v)].
Proof.
  induction v as [|c v IH]; intros result current Hq.
  - simpl. now rewrite TokenizerFacts.append_empty_r.
  - apply contains_cons in Hq. destruct Hq as [Hc Hv].
    apply Ascii.eqb_neq in Hc.
    cbn [parseCSVLine_loop]. rewrite Hc, andb_false_r.
    rewrite IH by assumption. now rewrite TokenizerFacts.push_char_append.
Qed.

(** X4. A quote that is never closed takes the rest of the line: after an
    opening quote with no further quote, commas no longer separate, and the
    line yields the fields before the quote and one last field that holds
    everything from there on. *)
Theorem unclosed_quote_swallows_the_rest (before v : string) :
  contains DQUOTE before = false ->
  contains DQUOTE v = false ->
  parseCSVLine (before ++ String COMMA (String DQUOTE v))
  = map trim (split COMMA before) ++ [trim v] /\
  parseCSVLine (String DQUOTE v) = [trim v].
Proof.
  intros Hb Hv. split.
  - unfold parseCSVLine, split.
    assert (H : forall result current,
               parseCSVLine_loop (before ++ String COMMA (String DQUOTE v))
                                 result current false
               = result ++ map trim (split_go COMMA before current) ++ [trim v]).
    { clear - Hb Hv. induction before as [|c before IH]; intros result current.
      - cbn [append]. rewrite TokenizerFacts.loop_on_comma, TokenizerFacts.loop_open_quote.
        rewrite loop_inside_open_quote by assumption.
        cbn [split_go map append]. now rewrite <- app_assoc.
      - apply contains_cons in Hb. destruct Hb as [Hc Hb'].
        apply Ascii.eqb_neq in Hc.
        cbn [append parseCSVLine_loop split_go]. rewrite Hc, andb_true_r.
        destruct (Ascii.eqb c COMMA); rewrite IH by assumption.
        + now rewrite <- app_assoc.
        + reflexivity. }
    now rewrite H.
  - unfold parseCSVLine. rewrite TokenizerFacts.loop_open_quote.
    now rewrite loop_inside_open_quote.
Qed.

Lemma unclosed_quote_swallows_the_rest_witness :
  parseCSVLine ("a, b" ++ String COMMA (String DQUOTE "c, d,e")) = ["a"; "b"; "c, d,e"].
Proof.
  rewrite (proj1 (unclosed_quote_swallows_the_rest "a, b" "c, d,e" eq_refl eq_refl)).
  reflexivity.
Defined.

End TokenizerMore.

(* ================================================================== *)
(** * Further properties of the record mapper *)
(* ================================================================== *)

Module MapperMore.
Import JS CSVService Spec Vocabulary.

Section Mapper.
Context {num : JSNumber}.

(** ** Writing twice *)

Lemma setProp_setProp (obj : object) key v w :
  setProp (setProp obj key v) key w = setProp obj key w.
Proof.
  induction obj as [|[k x] obj IH]; simpl.
  - now rewrite String.eqb_refl.
  - destruct (String.eqb k key) eqn:E; simpl; rewrite E; [reflexivity | now rewrite IH].
Qed.

Lemma walk_step (obj : object) key key2 rest v :
  setNestedProperty_walk obj (key :: key2 :: rest) v
  = setProp obj key
            (VObj (setNestedProperty_walk
                     match getProp obj key with
                     | Some (VObj props) => props
                     | _ => emptyObject
                     end (key2 :: rest) v)).
Proof. reflexivity. Qed.

Lemma walk_overwrites keys : forall (obj : object) v w,
  setNestedProperty_walk (setNestedProperty_walk obj keys v) keys w
  = setNestedProperty_walk obj keys w.
Proof.
  induction keys as [|key rest IH]; intros obj v w; [reflexivity|].
  destruct rest as [|key2 rest].
  - simpl. apply setProp_setProp.
  - rewrite (walk_step obj key key2 rest v).
    rewrite walk_step, MapperFacts.getProp_setProp_same, setProp_setProp.
    rewrite IH. symmetry. apply walk_step.
Qed.

(** ** Reading a column back *)

Lemma loop_keeps_unrelated headers : forall values (result : object) q,
  Forall (fun h => unrelated q (pathOf h)) headers ->
  getPath (convertToJSON_loop headers values result) q = getPath result q.
Proof.
  induction headers as [|h headers IH]; intros values result q Hall; [reflexivity|].
  destruct values as [|v values]; [reflexivity|].
  inversion Hall as [|? ? [Hqh Hhq] Hrest]; subst.
  cbn [convertToJSON_loop]. rewrite IH by assumption.
  unfold setNestedProperty. now apply MapperFacts.walk_frame.
Qed.

Lemma loop_append hs1 : forall vs1 hs2 vs2 (result : object),
  length hs1 = length vs1 ->
  convertToJSON_loop (hs1 ++ hs2) (vs1 ++ vs2) result
  = convertToJSON_loop hs2 vs2 (convertToJSON_loop hs1 vs1 result).
Proof.
  induction hs1 as [|h hs1 IH]; intros [|v vs1] hs2 vs2 result Hlen;
    simpl in Hlen; try discriminate; [reflexivity|].
  cbn [app convertToJSON_loop]. apply IH. lia.
Qed.

(** X6. A column can be read back at its path: for headers without a
    segment [__proto__], after [convertToJSON] the entry at the path of a
    header is the coerced value of that column, provided no later header
    names a path that runs along it (a prefix or an extension of it, or the
    same path again). *)
Theorem convertToJSON_column_read_back
        (before after : list string) (header : string)
        (valuesBefore valuesAfter : list string) (value : string) :
  Forall ordinaryHeader (before ++ header :: after) ->
  length before = length valuesBefore ->
  length after = length valuesAfter ->
  Forall (fun h => unrelated (pathOf header) (pathOf h)) after ->
  exists record,
    convertToJSON (before ++ header :: after) (valuesBefore ++ value :: valuesAfter)
    = Ok record /\
    getPath record (pathOf header) = Some (coerceValue header value).
Proof.
  intros _ Hb Ha Hfree. unfold convertToJSON.
  rewrite !length_app. cbn [length]. rewrite Hb, Ha, Nat.eqb_refl. cbn [negb].
  eexists. split; [reflexivity|].
  rewrite loop_append by assumption.
  cbn [convertToJSON_loop].
  rewrite loop_keeps_unrelated by assumption.
  unfold setNestedProperty, pathOf.
  apply MapperFacts.walk_writes, MapperFacts.split_not_empty.
Qed.

(** ** The shape of a record *)

Lemma uniqueKeys_object (props : object) :
  uniqueKeys (VObj props)
  <-> NoDup (map fst props) /\ Forall (fun kv => uniqueKeys (snd kv)) props.
Proof.
  cbn [uniqueKeys]. split; intros [Hnd Hall]; (split; [exact Hnd|]).
  - induction props as [|kv props IH]; [constructor|].
    destruct Hall as [Hkv Hall]. constructor; [exact Hkv|].
    apply IH; [now inversion Hnd | exact Hall].
  - clear Hnd. induction Hall as [|kv props Hkv _ IH]; [exact I | now split].
Qed.

Lemma setProp_keys (obj : object) key v k :
  In k (map fst (setProp obj key v)) <-> k = key \/ In k (map fst obj).
Proof.
  induction obj as [|[k0 x] obj IH]; simpl.
  - intuition.
  - destruct (String.eqb k0 key) eqn:E; simpl.
    + apply String.eqb_eq in E. subst k0. intuition.
    + rewrite IH. intuition.
Qed.

Lemma setProp_NoDup (obj : object) key v :
  NoDup (map fst obj) -> NoDup (map fst (setProp obj key v)).
Proof.
  induction obj as [|[k0 x] obj IH]; simpl; intros Hnd.
  - constructor; [intros [] | constructor].
  - inversion Hnd as [|? ? Hnotin Hnd']; subst.
    destruct (String.eqb k0 key) eqn:E; simpl.
    + constructor; assumption.
    + constructor; [|now apply IH].
      rewrite setProp_keys. intros [->|Hin]; [|contradiction].
      now rewrite String.eqb_refl in E.
Qed.

Lemma setProp_Forall (P : string * jsval -> Prop) (obj : object) key v :
  (forall k, P (k, v)) -> Forall P obj -> Forall P (setProp obj key v).
Proof.
  intros Hv Hall. induction Hall as [|[k0 x] obj Hx Hall IH]; simpl.
  - constructor; [apply Hv | constructor].
  - destruct (String.eqb k0 key); constructor; auto.
Qed.

Lemma getProp_Forall (P : string * jsval -> Prop) (obj : object) key v :
  Forall P obj -> getProp obj key = Some v -> exists k, P (k, v).
Proof.
  intros Hall. induction Hall as [|[k0 x] obj Hx _ IH]; simpl; [discriminate|].
  destruct (String.eqb k0 key); [|exact IH].
  intros [= <-]. eauto.
Qed.

Lemma getProp_bound (obj : object) key :
  getProp obj key <> None <-> In key (map fst obj).
Proof.
  induction obj as [|[k0 x] obj IH]; simpl; [intuition|].
  destruct (String.eqb k0 key) eqn:E.
  - apply String.eqb_eq in E. split; [auto | discriminate].
  - apply String.eqb_neq in E. rewrite IH. intuition.
Qed.

Lemma walk_uniqueKeys keys : forall (obj : object) v,
  uniqueKeys (VObj obj) -> uniqueKeys v ->
  uniqueKeys (VObj (setNestedProperty_walk obj keys v)).
Proof.
  induction keys as [|key rest IH]; intros obj v Hobj Hv; [exact Hobj|].
  assert (Hset : forall x, uniqueKeys x -> uniqueKeys (VObj (setProp obj key x))).
  { intros x Hx. apply uniqueKeys_object in Hobj. destruct Hobj as [Hnd Hall].
    apply uniqueKeys_object. split; [now apply setProp_NoDup|].
    apply setProp_Forall; [intros k; exact Hx | exact Hall]. }
  destruct rest as [|key2 rest]; [now apply Hset|].
  rewrite walk_step. apply Hset. apply IH; [|exact Hv].
  destruct (getProp obj key) as [[| | |props]|] eqn:E;
    try (apply uniqueKeys_object; split; constructor).
  apply uniqueKeys_object in Hobj. destruct Hobj as [_ Hall].
  destruct (getProp_Forall _ _ _ _ Hall E) as [k Hk]. exact Hk.
Qed.

Lemma walk_keys keys : forall (obj : object) v k,
  keys <> [] ->
  In k (map fst (setNestedProperty_walk obj keys v))
  <-> k = hd EmptyString keys \/ In k (map fst obj).
Proof.
  intros obj v k Hne. destruct keys as [|key [|key2 rest]]; [congruence | |].
  - simpl. apply setProp_keys.
  - rewrite walk_step. apply setProp_keys.
Qed.

Lemma coerceValue_primitive header value : isPrimitive (coerceValue header value).
Proof.
  unfold coerceValue, parseNumber.
  destruct (isNumericHeader header); [|exact I].
  destruct (isEmpty value || isEmpty (trim value)); [exact I|].
  destruct (isNaN (Number (trim value))); exact I.
Qed.

Lemma primitive_uniqueKeys v : isPrimitive v -> uniqueKeys v.
Proof. destruct v; simpl; tauto. Qed.

Lemma loop_shape headers : forall values (result : object),
  uniqueKeys (VObj result) ->
  uniqueKeys (VObj (convertToJSON_loop headers values result)) /\
  (length headers = length values ->
   forall k, In k (map fst (convertToJSON_loop headers values result))
             <-> In k (map firstSegment headers) \/ In k (map fst result)).
Proof.
  induction headers as [|h headers IH]; intros values result Hres.
  - split; [exact Hres|]. intros _ k. simpl. intuition.
  - destruct values as [|v values].
    + split; [exact Hres|]. discriminate.
    + cbn [convertToJSON_loop].
      assert (Hnext : uniqueKeys (VObj (setNestedProperty result h (coerceValue h v)))).
      { apply walk_uniqueKeys; [exact Hres|].
        apply primitive_uniqueKeys, coerceValue_primitive. }
      destruct (IH values _ Hnext) as [Huniq Hkeys].
      split; [exact Huniq|].
      intros Hlen k. rewrite Hkeys by (simpl in Hlen; lia).
      unfold setNestedProperty.
      rewrite walk_keys by apply MapperFacts.split_not_empty.
      cbn [map In]. unfold firstSegment, pathOf. intuition.
Qed.

(** X7. For headers without a segment [__proto__], a record the mapper
    returns is a well-formed object tree: no object in it, at any depth,
    holds a key twice, and its top-level keys are exactly the first segments
    of the headers. *)
Theorem convertToJSON_record_shape (headers values : list string) (record : object) :
  Forall ordinaryHeader headers ->
  convertToJSON headers values = Ok record ->
  uniqueKeys (VObj record) /\
  (forall k, In k (map fst record) <-> In k (map firstSegment headers)) /\
  (forall k, getProp record k <> None <-> In k (map firstSegment headers)).
Proof.
  intros _. unfold convertToJSON.
  destruct (Nat.eqb (length headers) (length values)) eqn:E; [|discriminate].
  apply Nat.eqb_eq in E. cbn [negb]. intros [= <-].
  assert (Hempty : uniqueKeys (VObj emptyObject)) by (split; [constructor | exact I]).
  destruct (loop_shape headers values emptyObject Hempty) as [Huniq Hkeys].
  split; [exact Huniq|].
  assert (Hk : forall k, In k (map fst (convertToJSON_loop headers values emptyObject))
                         <-> In k (map firstSegment headers)).
  { intros k. rewrite (Hkeys E). simpl. intuition. }
  split; [exact Hk|].
  intros k. now rewrite getProp_bound, Hk.
Qed.

End Mapper.

Lemma convertToJSON_column_read_back_witness :
  exists record,
    convertToJSON (num := IntegerNumbers)
                  (["age"] ++ "address.city" :: ["address.zip"; "age"])
                  (["30"] ++ "Boston" :: ["02101"; "31"])
    = Ok record /\
    getPath record (pathOf "address.city") = Some (VStr "Boston").
Proof.
  apply (convertToJSON_column_read_back (num := IntegerNumbers)
           ["age"] ["address.zip"; "age"] "address.city" ["30"] ["02101"; "31"] "Boston").
  - vm_compute. repeat constructor; intros H; discriminate H.
  - reflexivity.
  - reflexivity.
  - repeat constructor; vm_compute; intuition discriminate.
Defined.

Lemma convertToJSON_record_shape_witness :
  uniqueKeys (num := IntegerNumbers)
             (VObj [("name", VObj [("firstName", VStr "Jane"); ("lastName", VStr "Doe")]);
                    ("age", VNum (ofZ 30));
                    ("address", VObj [("city", VStr "Boston")])]).
Proof.
  apply (proj1 (convertToJSON_record_shape (num := IntegerNumbers)
                  ["name.firstName"; "name.lastName"; "age"; "address.city"]
                  ["Jane"; "Doe"; "30"; "Boston"] _
                  ltac:(vm_compute; repeat constructor; intros H; discriminate H)
                  eq_refl)).
Defined.

End MapperMore.

(* ================================================================== *)
(** * Further properties of the parse orchestrator *)
(* ================================================================== *)

Module OrchestratorMore.
Import JS CSVService Spec Vocabulary.

Section Orchestrator.
Context {num : JSNumber}.

Lemma loop_succeeds_iff headers lines : forall users result,
  parseCSVFile_loop headers lines users = Ok result
  <-> Forall (fun l => length (parseCSVLine l) = length headers)
             (filter (fun line => negb (isEmpty (trim line))) lines) /\
      result = users ++ map (rowRecord headers)
                            (filter (fun line => negb (isEmpty (trim line))) lines).
Proof.
  induction lines as [|line lines IH]; intros users result.
  - simpl. rewrite app_nil_r. split.
    + intros [= <-]. split; [constructor | reflexivity].
    + intros [_ ->]. reflexivity.
  - cbn [parseCSVFile_loop filter].
    destruct (negb (isEmpty (trim line))); [|apply IH].
    unfold convertToJSON.
    destruct (Nat.eqb (length headers) (length (parseCSVLine line))) eqn:E; cbn [negb bind].
    + apply Nat.eqb_eq in E. rewrite IH. cbn [map].
      rewrite <- app_assoc. cbn [app]. unfold rowRecord.
      split; intros [Hall Hres]; (split; [|exact Hres]).
      * constructor; [now symmetry | exact Hall].
      * now inversion Hall.
    + apply Nat.eqb_neq in E. split; [discriminate|].
      intros [Hall _]. inversion Hall; subst. congruence.
Qed.

Lemma validateFile_ok_iff fs env filePath :
  validateFile fs env filePath = Ok tt
  <-> exists stats, stat fs filePath = FsOk stats /\ isFile stats = true /\
                    (size stats <= maxSizeBytes env)%Z.
Proof.
  unfold validateFile, maxSizeBytes.
  destruct (stat fs filePath) as [stats|code].
  - destruct (isFile stats) eqn:F; cbn [negb].
    + destruct (Z.gtb_spec (size stats) (intOr (MAX_FILE_SIZE_MB env) 100 * 1024 * 1024)).
      * split; [discriminate|]. intros (s & [= <-] & _ & Hle). lia.
      * split; [|reflexivity]. intros _. exists stats. auto.
    + split; [discriminate|]. intros (s & [= <-] & Hf & _). congruence.
  - split.
    + destruct (String.eqb code "ENOENT"); discriminate.
    + intros (s & Hs & _). discriminate.
Qed.

(** X8. For a file whose header row has no segment [__proto__], the parse
    succeeds exactly when the path is a regular file within the size limit
    that can be read, the text has at least two lines, the header row holds
    the three required headers, and every data line that is not blank has as
    many fields as the header row; its result is then one record per such
    line, in the order of the file, blank lines leaving no trace. *)
Theorem parseCSVFile_succeeds_exactly_when
        (fs : FileSystem) (env : Env) (users : list object) :
  (forall content, readFile fs (csvFilePath env) = FsOk content ->
                   Forall ordinaryHeader (headerRow content)) ->
  parseCSVFile fs env = Ok users
  <-> exists stats content,
        stat fs (csvFilePath env) = FsOk stats /\
        isFile stats = true /\
        (size stats <= maxSizeBytes env)%Z /\
        readFile fs (csvFilePath env) = FsOk content /\
        2 <= length (splitLines content) /\
        missingHeaders (headerRow content) = [] /\
        Forall (fun l => length (parseCSVLine l) = length (headerRow content))
               (dataLines content) /\
        users = map (rowRecord (headerRow content)) (dataLines content).
Proof.
  intros _. unfold parseCSVFile. split.
  - destruct (validateFile fs env (csvFilePath env)) as [[]|e] eqn:V; cbn [bind];
      [|discriminate].
    apply validateFile_ok_iff in V. destruct V as (stats & Hstat & Hfile & Hsize).
    destruct (readFile fs (csvFilePath env)) as [content|code] eqn:R; [|discriminate].
    intros Hparse. exists stats, content.
    repeat (split; [assumption|]). split; [reflexivity|].
    destruct (Nat.lt_ge_cases (length (splitLines content)) 2) as [Hlt|Hge].
    { rewrite OrchestratorFacts.parseContent_short in Hparse by assumption. discriminate. }
    split; [assumption|].
    rewrite OrchestratorFacts.parseContent_long in Hparse by assumption.
    destruct (missingHeaders (headerRow content)) as [|m ms] eqn:M.
    + rewrite OrchestratorFacts.validateHeaders_complete in Hparse by assumption.
      cbn [bind] in Hparse. apply loop_succeeds_iff in Hparse.
      split; [reflexivity | exact Hparse].
    + rewrite OrchestratorFacts.validateHeaders_missing in Hparse
        by (rewrite M; discriminate).
      discriminate.
  - intros (stats & content & Hstat & Hfile & Hsize & Hread & Hlen & Hmiss & Hall & ->).
    assert (V : validateFile fs env (csvFilePath env) = Ok tt)
      by (apply validateFile_ok_iff; eauto).
    rewrite V, Hread. cbn [bind].
    rewrite OrchestratorFacts.parseContent_long by assumption.
    rewrite OrchestratorFacts.validateHeaders_complete by assumption. cbn [bind].
    apply loop_succeeds_iff. split; [exact Hall | reflexivity].
Qed.

(** X9. What the parse answers when it does not succeed, in the order of its
    checks: a missing file, a path that is no regular file, a file over the
    size limit (the limit itself is accepted; a limit of 0 or no limit means
    100 MB), any other failure of [stat] or of the read passed on with its
    code, and only then the errors of the content. *)
Theorem parseCSVFile_failures (fs : FileSystem) (env : Env) :
  let path := csvFilePath env in
  (stat fs path = FsFail "ENOENT" -> parseCSVFile fs env = Err (FileNotFound path)) /\
  (forall code, stat fs path = FsFail code -> code <> "ENOENT" ->
                parseCSVFile fs env = Err (FsError code)) /\
  (forall stats, stat fs path = FsOk stats -> isFile stats = false ->
                 parseCSVFile fs env = Err (NotARegularFile path)) /\
  (forall stats, stat fs path = FsOk stats -> isFile stats = true ->
                 (maxSizeBytes env < size stats)%Z ->
                 exists sizeMB,
                   parseCSVFile fs env
                   = Err (FileTooLarge sizeMB (intOr (MAX_FILE_SIZE_MB env) 100))) /\
  (forall stats code, stat fs path = FsOk stats -> isFile stats = true ->
                      (size stats <= maxSizeBytes env)%Z ->
                      readFile fs path = FsFail code ->
                      parseCSVFile fs env = Err (FsError code)) /\
  (forall stats content, stat fs path = FsOk stats -> isFile stats = true ->
                         (size stats <= maxSizeBytes env)%Z ->
                         readFile fs path = FsOk content ->
                         parseCSVFile fs env = parseContent content) /\
  (MAX_FILE_SIZE_MB env = None \/ MAX_FILE_SIZE_MB env = Some 0%Z ->
   maxSizeBytes env = 104857600%Z).
Proof.
  intros path. unfold parseCSVFile, validateFile, maxSizeBytes. fold path.
  repeat split.
  - intros ->. reflexivity.
  - intros code -> Hne. apply String.eqb_neq in Hne. now rewrite Hne.
  - intros stats -> ->. reflexivity.
  - intros stats -> -> Hbig.
    assert (E : (size stats >? intOr (MAX_FILE_SIZE_MB env) 100 * 1024 * 1024)%Z = true)
      by (apply Z.gtb_lt; lia).
    cbn [negb]. rewrite E. cbn [bind]. eauto.
  - intros stats code -> -> Hsmall ->.
    assert (E : (size stats >? intOr (MAX_FILE_SIZE_MB env) 100 * 1024 * 1024)%Z = false)
      by (rewrite Z.gtb_ltb; apply Z.ltb_ge; lia).
    cbn [negb]. rewrite E. reflexivity.
  - intros stats content -> -> Hsmall ->.
    assert (E : (size stats >? intOr (MAX_FILE_SIZE_MB env) 100 * 1024 * 1024)%Z = false)
      by (rewrite Z.gtb_ltb; apply Z.ltb_ge; lia).
    cbn [negb]. rewrite E. reflexivity.
  - intros [-> | ->]; reflexivity.
Qed.

End Orchestrator.

Lemma parseCSVFile_succeeds_exactly_when_witness :
  parseCSVFile (num := IntegerNumbers)
               (oneFile 44 (unlines ["name.firstName,name.lastName,age"; "Jane,Doe,30"]))
               defaultEnv
  = Ok [janeDoe].
Proof.
  apply (parseCSVFile_succeeds_exactly_when (num := IntegerNumbers)).
  - intros content [= <-]. vm_compute. repeat constructor; intros H; discriminate H.
  - exists {| isFile := true; size := 44 |},
           (unlines ["name.firstName,name.lastName,age"; "Jane,Doe,30"]).
    split; [reflexivity|]. split; [reflexivity|]. split; [vm_compute; discriminate|].
    split; [reflexivity|]. split; [vm_compute; lia|]. split; [reflexivity|].
    split; [repeat constructor | reflexivity].
Defined.

Lemma parseCSVFile_failures_witness :
  exists sizeMB,
    parseCSVFile (num := IntegerNumbers) (oneFile 104857601 EmptyString) defaultEnv
    = Err (FileTooLarge sizeMB 100).
Proof.
  destruct (parseCSVFile_failures (num := IntegerNumbers)
              (oneFile 104857601 EmptyString) defaultEnv)
    as (_ & _ & _ & Hbig & _).
  apply (Hbig {| isFile := true; size := 104857601 |}); reflexivity.
Defined.

End OrchestratorMore.

(* ================================================================== *)
(** * Further properties of the batch persister *)
(* ================================================================== *)

Module PersisterMore.
Import JS CSVService Database UserService Spec Vocabulary.

Section Persister.
Context {num : JSNumber}.
Variable typeRow : ParamRow -> option UserRow.
Variable faulty : list statement -> bool.

(** ** The statement of a chunk *)

Lemma insertUserBatch_loop_layout users : forall values placeholders base,
  insertUserBatch_loop users values placeholders (4 * base + 1)
  = (values ++ flat_map paramList users,
     placeholders ++ map placeholderGroup (seq base (length users))).
Proof.
  induction users as [|user users IH]; intros values placeholders base.
  - simpl. now rewrite !app_nil_r.
  - cbn [insertUserBatch_loop flat_map length seq map].
    replace (4 * base + 1 + 4) with (4 * S base + 1) by lia.
    replace (4 * base + 1 + 1) with (4 * base + 2) by lia.
    replace (4 * base + 1 + 2) with (4 * base + 3) by lia.
    replace (4 * base + 1 + 3) with (4 * base + 4) by lia.
    rewrite IH, <- !app_assoc. reflexivity.
Qed.

Lemma Forall2_map_some {A B} (f : A -> option B) l ys :
  Forall2 (fun x y => f x = Some y) l ys -> map f l = map Some ys.
Proof. induction 1 as [|x y l ys Hxy _ IH]; simpl; [reflexivity | now rewrite Hxy, IH]. Qed.

(** X10. The insert statement of a chunk binds exactly four parameters per
    record, in the order name, age, address, additional_info and record after
    record; the placeholder groups number them consecutively from [$1], and
    each group selects the four parameters of its record. *)
Theorem insertStatement_layout (users : list object) :
  insertStatement users
  = INSERT_USERS (map placeholderGroup (seq 0 (length users)))
                 (flat_map paramList users) /\
  length (flat_map paramList users) = 4 * length users /\
  map (resolveGroup (flat_map paramList users))
      (map placeholderGroup (seq 0 (length users)))
  = map (fun user => Some (paramsOf user)) users.
Proof.
  assert (Hloop := insertUserBatch_loop_layout users [] [] 0).
  change (4 * 0 + 1) with 1 in Hloop. cbn [app] in Hloop.
  split; [unfold insertStatement; now rewrite Hloop|].
  split.
  - clear Hloop. induction users as [|u users IH]; [reflexivity|].
    cbn [flat_map]. rewrite length_app, IH.
    change (length (paramList u)) with 4. cbn [length]. lia.
  - pose proof (PersisterFacts.insertUserBatch_loop_resolves users [] [] 1 []
                  eq_refl (Forall2_nil _)) as H.
    rewrite Hloop in H. cbn [fst snd app] in H.
    rewrite (Forall2_map_some _ _ _ H). now rewrite map_map.
Qed.

(** ** The call as a whole *)

Lemma batchInsertUsers_steps fuel env users (db : Db) :
  tx db = Idle ->
  batchInsertUsers typeRow faulty fuel env users db
  = match batchInsertUsers_loop typeRow faulty fuel users
                                (intOr (BATCH_SIZE env) 1000) 0 0
                                (withTx db (InTransaction []) BEGIN) with
    | None => None
    | Some (Ok n, d) => Some (Ok n, snd (execute typeRow faulty COMMIT d))
    | Some (Err e, d) => Some (Err e, withTx d Idle ROLLBACK)
    end.
Proof.
  intros Htx. unfold batchInsertUsers, tryCatch, bindM, query, ret, throw.
  cbn [execute]. rewrite Htx.
  destruct (batchInsertUsers_loop typeRow faulty fuel users
              (intOr (BATCH_SIZE env) 1000) 0 0 (withTx db (InTransaction []) BEGIN))
    as [[[n|e] d]|]; try reflexivity.
  destruct (tx d); reflexivity.
Qed.

Lemma allSome_app {A} (l1 l2 : list (option A)) :
  allSome (l1 ++ l2)
  = match allSome l1 with
    | Some a => option_map (app a) (allSome l2)
    | None => None
    end.
Proof.
  induction l1 as [|[x|] l1 IH]; simpl.
  - destruct (allSome l2); reflexivity.
  - rewrite IH. destruct (allSome l1); [|reflexivity].
    destruct (allSome l2); reflexivity.
  - reflexivity.
Qed.

Lemma allSome_some_iff {A B} (f : A -> option B) l ys :
  allSome (map f l) = Some ys <-> Forall2 (fun x y => f x = Some y) l ys.
Proof.
  split; [|apply PersisterFacts.allSome_Forall2].
  revert ys. induction l as [|x l IH]; intros ys; simpl.
  - intros [= <-]. constructor.
  - destruct (f x) as [y|] eqn:E; [|discriminate].
    destruct (allSome (map f l)) as [ys'|]; [|discriminate].
    intros [= <-]. constructor; [exact E | now apply IH].
Qed.

Lemma allSome_none_iff {A B} (f : A -> option B) l :
  allSome (map f l) = None <-> Exists (fun x => f x = None) l.
Proof.
  induction l as [|x l IH]; simpl.
  - split; [discriminate | intros H; inversion H].
  - destruct (f x) as [y|] eqn:E.
    + destruct (allSome (map f l)) eqn:El.
      * split; [discriminate|]. intros H. inversion H; subst; [congruence|].
        apply IH in H1. discriminate.
      * split; [|reflexivity]. intros _. apply Exists_cons_tl. now apply IH.
    + split; [|reflexivity]. intros _. now apply Exists_cons_hd.
Qed.

Lemma runBatches_without_faults batches : forall history,
  (forall h, faulty h = false) ->
  snd (runBatches typeRow faulty history batches)
  = allSome (map (fun user => typeRow (paramsOf user)) (concat batches)).
Proof.
  induction batches as [|batch batches IH]; intros history Hnever; [reflexivity|].
  cbn [runBatches concat]. rewrite Hnever, map_app, allSome_app.
  destruct (allSome (map (fun user => typeRow (paramsOf user)) batch)); [|reflexivity].
  specialize (IH (history ++ [insertStatement batch]) Hnever).
  destruct (runBatches typeRow faulty (history ++ [insertStatement batch]) batches)
    as [issued outcome].
  cbn [snd] in *. now rewrite IH.
Qed.

Lemma batchInsertUsers_without_faults (fuel : nat) (env : Env) (users : list object) (db : Db) :
  (0 < intOr (BATCH_SIZE env) 1000)%Z -> tx db = Idle -> length users < fuel ->
  (forall history, faulty history = false) ->
  exists db',
    batchInsertUsers typeRow faulty fuel env users db
    = Some (match allSome (map (fun user => typeRow (paramsOf user)) users) with
            | Some _ => Ok (length users)
            | None => Err queryError
            end, db') /\
    table db' = match allSome (map (fun user => typeRow (paramsOf user)) users) with
                | Some rows => table db ++ rows
                | None => table db
                end /\
    tx db' = Idle /\
    last (log db') BEGIN
    = match allSome (map (fun user => typeRow (paramsOf user)) users) with
      | Some _ => COMMIT
      | None => ROLLBACK
      end.
Proof.
  intros Hpos Htx Hfuel Hnever.
  set (size := Z.to_nat (intOr (BATCH_SIZE env) 1000)).
  assert (Hsize : 0 < size) by (subst size; lia).
  assert (Hloop :
    batchInsertUsers_loop typeRow faulty fuel users (intOr (BATCH_SIZE env) 1000) 0 0
                          (withTx db (InTransaction []) BEGIN)
    = Some (afterRun (withTx db (InTransaction []) BEGIN) [] 0
                     (runBatches typeRow faulty (log db ++ [BEGIN]) (chunks size users)))).
  { replace (intOr (BATCH_SIZE env) 1000) with (Z.of_nat size) by (subst size; lia).
    change 0%Z with (Z.of_nat 0).
    apply (PersisterFacts.loop_performs_run typeRow faulty users size Hsize users 0);
      [reflexivity | assumption | reflexivity]. }
  assert (Hrun : snd (runBatches typeRow faulty (log db ++ [BEGIN]) (chunks size users))
                 = allSome (map (fun user => typeRow (paramsOf user)) users)).
  { rewrite runBatches_without_faults by assumption.
    now rewrite PersisterFacts.concat_chunks. }
  rewrite batchInsertUsers_steps, Hloop by assumption.
  unfold afterRun. rewrite Hrun.
  destruct (allSome (map (fun user => typeRow (paramsOf user)) users)) as [rows|] eqn:Hrows.
  - cbn [execute tx table snd app Nat.add].
    apply PersisterFacts.allSome_length in Hrows. rewrite length_map in Hrows.
    rewrite Hrows. eexists. split; [reflexivity|]. cbn [table tx log].
    split; [reflexivity|]. split; [reflexivity|]. apply last_last.
  - eexists. split; [reflexivity|]. cbn [table tx log withTx].
    split; [reflexivity|]. split; [reflexivity|]. apply last_last.
Qed.

(** X11. On a store that fails an insert only for a row it cannot type, the
    call succeeds exactly when every record has a row: then the table gains
    one row per record, in the order of the records, each typed from the
    projection of its record; one record without a row anywhere in the input
    makes the call throw and leaves the table as it was. *)
Theorem batch_insert_rows_in_order (fuel : nat) (env : Env) (users : list object) (db : Db) :
  (0 < intOr (BATCH_SIZE env) 1000)%Z -> tx db = Idle -> length users < fuel ->
  (forall history, faulty history = false) ->
  (forall rows,
      Forall2 (fun user row => typeRow (paramsOf user) = Some row) users rows ->
      exists db',
        batchInsertUsers typeRow faulty fuel env users db = Some (Ok (length users), db') /\
        table db' = table db ++ rows /\ tx db' = Idle) /\
  (Exists (fun user => typeRow (paramsOf user) = None) users ->
   exists db',
     batchInsertUsers typeRow faulty fuel env users db = Some (Err queryError, db') /\
     table db' = table db /\ tx db' = Idle).
Proof.
  intros Hpos Htx Hfuel Hnever.
  destruct (batchInsertUsers_without_faults fuel env users db Hpos Htx Hfuel Hnever)
    as (db' & Hcall & Htable & Hidle & _).
  split.
  - intros rows Hrows. apply allSome_some_iff in Hrows. rewrite Hrows in Hcall, Htable.
    now exists db'.
  - intros Hbad. apply allSome_none_iff in Hbad. rewrite Hbad in Hcall, Htable.
    now exists db'.
Qed.

(** ** A negative chunk size *)

Lemma slice_backwards_is_empty {A} (xs : list A) (step : Z) :
  (step < 0)%Z -> slice xs step (step + step) = [].
Proof.
  intros Hneg. unfold slice.
  assert (E1 : (step <? 0)%Z = true) by (apply Z.ltb_lt; lia).
  assert (E2 : (step + step <? 0)%Z = true) by (apply Z.ltb_lt; lia).
  rewrite E1, E2.
  replace (Z.to_nat (Z.max (Z.of_nat (length xs) + (step + step)) 0
                     - Z.max (Z.of_nat (length xs) + step) 0)) with 0 by lia.
  reflexivity.
Qed.

Lemma execute_empty_insert (db : Db) pending :
  tx db = InTransaction pending ->
  execute typeRow faulty (insertStatement []) db
  = (Err queryError, withTx db Aborted (insertStatement [])).
Proof.
  intros Htx. change (insertStatement []) with (INSERT_USERS [] []).
  cbn [execute]. rewrite Htx. destruct (faulty (log db)); reflexivity.
Qed.

Lemma execute_insert_outcome (batch : list object) (db : Db) pending :
  tx db = InTransaction pending ->
  execute typeRow faulty (insertStatement batch) db
  = (Err queryError, withTx db Aborted (insertStatement batch)) \/
  exists new,
    execute typeRow faulty (insertStatement batch) db
    = (Ok (noRows (length new)),
       withTx db (InTransaction (pending ++ new)) (insertStatement batch)).
Proof.
  intros Htx. destruct batch as [|u batch].
  - left. now apply execute_empty_insert with (pending := pending).
  - rewrite (PersisterFacts.execute_insert_in_transaction typeRow faulty
               (u :: batch) db pending) by (assumption || discriminate).
    destruct (faulty (log db)); [now left|].
    destruct (allSome _) as [new|]; [right; eauto | now left].
Qed.

(** X12. With a negative chunk size and at least one record the call never
    commits: the second slice at the latest is empty, its insert has no row
    to insert and fails, and the call rolls back and throws, whatever the
    store accepts. *)
Theorem negative_batch_size_commits_nothing
        (fuel : nat) (env : Env) (users : list object) (db : Db) :
  (intOr (BATCH_SIZE env) 1000 < 0)%Z -> users <> [] -> tx db = Idle -> 2 <= fuel ->
  exists db',
    batchInsertUsers typeRow faulty fuel env users db = Some (Err queryError, db') /\
    table db' = table db /\ tx db' = Idle.
Proof.
  intros Hneg Hne Htx Hfuel.
  rewrite batchInsertUsers_steps by assumption.
  set (step := intOr (BATCH_SIZE env) 1000) in *.
  destruct fuel as [|[|fuel]]; try lia.
  assert (Hlen : (0 <? Z.of_nat (length users))%Z = true).
  { apply Z.ltb_lt. destruct users; [congruence | simpl; lia]. }
  assert (Hlen2 : (step <? Z.of_nat (length users))%Z = true)
    by (apply Z.ltb_lt; lia).
  cbn [batchInsertUsers_loop]. rewrite Hlen.
  unfold bindM at 1. unfold insertUserBatch at 1. unfold query at 1.
  destruct (execute_insert_outcome (slice users 0 (0 + step))
              (withTx db (InTransaction []) BEGIN) [] eq_refl) as [E | [new E]];
    rewrite E.
  - eexists. split; [reflexivity|]. split; reflexivity.
  - cbn [Z.add]. rewrite Hlen2.
    unfold bindM, insertUserBatch, query.
    rewrite slice_backwards_is_empty by assumption.
    rewrite (execute_empty_insert _ ([] ++ new)) by reflexivity.
    eexists. split; [reflexivity|]. split; reflexivity.
Qed.

End Persister.

Lemma batch_insert_rows_in_order_witness :
  exists db',
    batchInsertUsers (num := IntegerNumbers) typeIntegerRow neverFaulty 3 defaultEnv
                     [janeDoe; annLee] emptyStore
    = Some (Err queryError, db') /\
    table db' = [] /\ tx db' = Idle.
Proof.
  apply (proj2 (batch_insert_rows_in_order (num := IntegerNumbers)
                  typeIntegerRow neverFaulty 3 defaultEnv [janeDoe; annLee] emptyStore
                  eq_refl eq_refl (le_n 3) (fun _ => eq_refl))).
  apply Exists_cons_tl, Exists_cons_hd. reflexivity.
Defined.

Lemma negative_batch_size_commits_nothing_witness :
  exists db',
    batchInsertUsers (num := IntegerNumbers) typeIntegerRow neverFaulty 2
                     {| CSV_FILE_PATH := None; MAX_FILE_SIZE_MB := None;
                        BATCH_SIZE := Some (-1)%Z |}
                     [janeDoe; janeDoe; janeDoe] emptyStore
    = Some (Err queryError, db') /\
    table db' = [] /\ tx db' = Idle.
Proof.
  apply (negative_batch_size_commits_nothing (num := IntegerNumbers)
           typeIntegerRow neverFaulty 2); [reflexivity | discriminate | reflexivity | lia].
Defined.

End PersisterMore.

(* ================================================================== *)
(** * From a parsed row to its columns *)
(* ================================================================== *)

Module ProjectionMore.
Import JS CSVService Database UserService Spec Vocabulary.

Section Projection.
Context {num : JSNumber}.

Lemma in_combine_split (hs : list string) : forall (vs : list string) h v,
  NoDup hs -> length hs = length vs -> In (h, v) (combine hs vs) ->
  exists before after valuesBefore valuesAfter,
    hs = before ++ h :: after /\ vs = valuesBefore ++ v :: valuesAfter /\
    length before = length valuesBefore /\ length after = length valuesAfter /\
    ~ In h after.
Proof.
  induction hs as [|h0 hs IH]; intros [|v0 vs] h v Hnd Hlen Hin;
    simpl in *; try contradiction; try discriminate.
  inversion Hnd as [|? ? Hnotin Hnd']; subst.
  destruct Hin as [[= -> ->]|Hin].
  - exists [], hs, [], vs. repeat split; auto.
  - destruct (IH vs h v Hnd' ltac:(lia) Hin)
      as (b & a & vb & va & -> & -> & Hb & Ha & Hna).
    exists (h0 :: b), a, (v0 :: vb), va. simpl. repeat split; auto.
Qed.

Lemma loop_column before after header valuesBefore valuesAfter value (result : object) :
  length before = length valuesBefore ->
  Forall (fun h => unrelated (pathOf header) (pathOf h)) after ->
  getPath (convertToJSON_loop (before ++ header :: after)
                              (valuesBefore ++ value :: valuesAfter) result)
          (pathOf header)
  = Some (coerceValue header value).
Proof.
  intros Hb Hfree.
  rewrite MapperMore.loop_append by assumption.
  cbn [convertToJSON_loop].
  rewrite MapperMore.loop_keeps_unrelated by assumption.
  unfold setNestedProperty, pathOf.
  apply MapperFacts.walk_writes, MapperFacts.split_not_empty.
Qed.

Lemma other_top_level_unrelated (p : list string) (h : string) :
  firstSegment h <> hd EmptyString p -> p <> [] -> unrelated p (pathOf h).
Proof.
  unfold firstSegment. intros Hne Hp.
  pose proof (MapperFacts.split_not_empty DOT h) as Hh. unfold pathOf in *.
  destruct p as [|k p]; [congruence|].
  destruct (split DOT h) as [|k' q]; [congruence|].
  simpl in Hne. split; simpl; intros [E _]; congruence.
Qed.

Lemma required_column_unrelated headers header after before :
  plainHeaders headers -> In header requiredHeaders ->
  headers = before ++ header :: after -> ~ In header after ->
  Forall (fun h => unrelated (pathOf header) (pathOf h)) after.
Proof.
  intros (_ & _ & Hall) Hreq -> Hnotin.
  apply Forall_app in Hall. destruct Hall as [_ Hall].
  inversion Hall as [|? ? _ Hafter]; subst. clear Hall.
  apply Forall_forall. intros h Hh.
  rewrite Forall_forall in Hafter. specialize (Hafter h Hh).
  assert (Hdiff : h <> header) by (intros ->; contradiction).
  destruct Hafter as [Hin | [Hname Hage]].
  - simpl in Hreq, Hin.
    destruct Hreq as [<-|[<-|[<-|[]]]]; destruct Hin as [<-|[<-|[<-|[]]]];
      try congruence; vm_compute; intuition discriminate.
  - simpl in Hreq.
    destruct Hreq as [<-|[<-|[<-|[]]]];
      (apply other_top_level_unrelated; [assumption | discriminate]).
Qed.

Lemma optGet_is_getPath (record : object) a b :
  optGet (getProp record a) b = getPath record [a; b].
Proof. simpl. destruct (getProp record a) as [[| | |props]|]; reflexivity. Qed.

(** X13. From a row to its columns.  Under a header row whose columns do
    not write over one another and have no segment [__proto__], a row with as many values as headers is
    mapped and projected so that [name] is the first-name and last-name
    texts of the row joined by one space and trimmed, and [age] is what
    [parseNumber] makes of the age text, or [0] when that is falsy (an empty
    text, a zero). *)
Theorem parsed_row_columns (headers values : list string) (first last ageText : string) :
  plainHeaders headers ->
  length headers = length values ->
  In ("name.firstName", first) (combine headers values) ->
  In ("name.lastName", last) (combine headers values) ->
  In ("age", ageText) (combine headers values) ->
  exists record,
    convertToJSON headers values = Ok record /\
    name (prepareUserData record) = trim (first ++ " " ++ last) /\
    age (prepareUserData record)
    = (if truthy (parseNumber ageText) then parseNumber ageText else VNum (ofZ 0)).
Proof.
  intros Hplain Hlen Hfirst Hlast Hage.
  unfold convertToJSON. rewrite Hlen, Nat.eqb_refl. cbn [negb].
  eexists. split; [reflexivity|].
  set (record := convertToJSON_loop headers values emptyObject).
  assert (Hcol : forall h v, In h requiredHeaders -> In (h, v) (combine headers values) ->
                             getPath record (pathOf h) = Some (coerceValue h v)).
  { intros h v Hreq Hin.
    destruct (in_combine_split headers values h v (proj1 Hplain) Hlen Hin)
      as (b & a & vb & va & Hh & Hv & Hb & Ha & Hna).
    subst record. rewrite Hh, Hv. apply loop_column; [assumption|].
    eapply required_column_unrelated; eauto. }
  assert (H1 := Hcol "name.firstName" first ltac:(simpl; auto) Hfirst).
  assert (H2 := Hcol "name.lastName" last ltac:(simpl; auto) Hlast).
  assert (H3 := Hcol "age" ageText ltac:(simpl; auto) Hage).
  change (pathOf "name.firstName") with ["name"; "firstName"] in H1.
  change (pathOf "name.lastName") with ["name"; "lastName"] in H2.
  change (pathOf "age") with ["age"] in H3.
  change (coerceValue "name.firstName" first) with (VStr first) in H1.
  change (coerceValue "name.lastName" last) with (VStr last) in H2.
  change (coerceValue "age" ageText) with (parseNumber ageText) in H3.
  rewrite <- optGet_is_getPath in H1, H2. cbn [getPath] in H3.
  unfold prepareUserData. cbn [name age].
  rewrite !ProjectionFacts.orElse_namePart, H1, H2, H3.
  split; [|reflexivity].
  cbn [namePart truthy toString]. destruct first, last; reflexivity.
Qed.

End Projection.

Lemma parsed_row_columns_witness :
  exists record,
    convertToJSON (num := IntegerNumbers)
                  ["name.firstName"; "address.city"; "age"; "name.lastName"]
                  ["Jane"; "Boston"; "30"; "Doe"] = Ok record /\
    name (prepareUserData record) = "Jane Doe" /\
    age (prepareUserData record) = VNum (ofZ 30).
Proof.
  apply (parsed_row_columns (num := IntegerNumbers)
           ["name.firstName"; "address.city"; "age"; "name.lastName"]
           ["Jane"; "Boston"; "30"; "Doe"] "Jane" "Doe" "30").
  - split; [|split].
    + repeat constructor; simpl; intuition discriminate.
    + vm_compute. repeat constructor; intros H; discriminate H.
    + repeat constructor; vm_compute; intuition discriminate.
  - reflexivity.
  - simpl. auto.
  - simpl. auto.
  - simpl. auto.
Defined.

End ProjectionMore.

(* ================================================================== *)
(** * The import request, end to end *)
(* ================================================================== *)

Module ControllerFacts.
Import JS CSVService Database UserService ReportService CSVController.
Import Spec Vocabulary.

Section Controller.
Context {num : JSNumber}.
Variable typeRow : ParamRow -> option UserRow.
Variable faulty : list statement -> bool.
Variable fs : FileSystem.
Variable env : Env.



End Controller.


End ControllerFacts.

(* ================================================================== *)
(** * The limiter of heavy operations *)
(* ================================================================== *)

Module LimiterFacts.
Import ErrorHandler ValidateRequest LimiterRuns.

Lemma get_set_same (store : RateLimitStore) key value :
  get (set store key value) key = Some value.
Proof.
  induction store as [|[k v] store IH]; simpl.
  - now rewrite String.eqb_refl.
  - destruct (String.eqb k key) eqn:E; simpl; rewrite E; [reflexivity | exact IH].
Qed.

Lemma get_set_other (store : RateLimitStore) key key' value :
  key <> key' -> get (set store key value) key' = get store key'.
Proof.
  intros Hne. induction store as [|[k v] store IH]; simpl.
  - destruct (String.eqb_spec key key'); [contradiction | reflexivity].
  - destruct (String.eqb_spec k key) as [->|Hk]; simpl.
    + destruct (String.eqb_spec key key'); [contradiction | reflexivity].
    + destruct (String.eqb k key'); [reflexivity | exact IH].
Qed.

Lemma withinLastMinute_app now l1 l2 :
  withinLastMinute now (l1 ++ l2) = withinLastMinute now l1 ++ withinLastMinute now l2.
Proof. apply filter_app. Qed.

Lemma withinLastMinute_later now now' (times : list Z) :
  (now <= now')%Z ->
  withinLastMinute now' (withinLastMinute now times) = withinLastMinute now' times.
Proof.
  intros Hle. unfold withinLastMinute.
  induction times as [|a times IH]; [reflexivity|].
  cbn [filter].
  destruct (Z.ltb_spec (now - a) 60000); cbn [filter];
    destruct (Z.ltb_spec (now' - a) 60000); try rewrite IH; try reflexivity.
  lia.
Qed.

Lemma filter_length_le {A} (p q : A -> bool) (l : list A) :
  (forall a, In a l -> p a = true -> q a = true) ->
  length (filter p l) <= length (filter q l).
Proof.
  induction l as [|a l IH]; intros H; [constructor|].
  cbn [filter].
  assert (IH' := IH (fun b Hb => H b (or_intror Hb))).
  destruct (p a) eqn:Ep.
  - rewrite (H a (or_introl eq_refl) Ep). simpl. lia.
  - destruct (q a); simpl; lia.
Qed.

(** One request keeps the relation between the store and the history, and is
    decided by the history. *)
Lemma limiter_step (ip userIP : string) (now clock : Z) (store : RateLimitStore)
      (history : list Z) :
  limiterInvariant ip store history clock -> (clock <= now)%Z ->
  let d := fst (heavyOperationLimiter userIP now store) in
  let store' := snd (heavyOperationLimiter userIP now store) in
  limiterInvariant ip store'
    (history ++ (if isNext d && String.eqb userIP ip then [now] else [])) now /\
  (userIP = ip ->
   d = if Nat.ltb (length (withinLastMinute now history)) 5 then Next
       else NextError tooManyHeavyOperations).
Proof.
  intros (Hpast & Hsame & Hwindow) Hclock.
  unfold heavyOperationLimiter.
  fold (storedTimes store userIP).
  fold (withinLastMinute now (storedTimes store userIP)).
  destruct (String.eqb_spec userIP ip) as [->|Hother].
  - rewrite (Hsame now Hclock).
    destruct (Nat.leb_spec 5 (length (withinLastMinute now history))) as [Hfull|Hroom];
      cbn [fst snd isNext andb].
    + rewrite app_nil_r. split.
      * split; [|split].
        -- intros a Ha. specialize (Hpast a Ha). lia.
        -- intros now' Hnow'. apply Hsame. lia.
        -- exact Hwindow.
      * intros _. destruct (Nat.ltb_spec (length (withinLastMinute now history)) 5);
          [lia | reflexivity].
    + split.
      * split; [|split].
        -- intros a Ha. apply in_app_or in Ha. destruct Ha as [Ha|[<-|[]]]; [|lia].
           specialize (Hpast a Ha). lia.
        -- intros now' Hnow'. unfold storedTimes. rewrite get_set_same.
           rewrite !withinLastMinute_app, !length_app.
           rewrite withinLastMinute_later by assumption.
           fold (storedTimes store ip). rewrite Hsame by lia. reflexivity.
        -- intros t. unfold inMinuteEndingAt. rewrite filter_app, length_app.
           cbn [filter].
           destruct ((t - now <? 60000)%Z && (now <=? t)%Z) eqn:Ein.
           ++ apply andb_prop in Ein. destruct Ein as [E1 E2].
              apply Z.ltb_lt in E1. apply Z.leb_le in E2.
              assert (Hle : length (filter (fun time => (t - time <? 60000)%Z
                                                        && (time <=? t)%Z) history)
                            <= length (withinLastMinute now history)).
              { apply filter_length_le. intros a Ha Hp.
                apply andb_prop in Hp. destruct Hp as [P1 _].
                apply Z.ltb_lt in P1. apply Z.ltb_lt. lia. }
              simpl. lia.
           ++ specialize (Hwindow t). unfold inMinuteEndingAt in Hwindow. simpl. lia.
      * intros _. destruct (Nat.ltb_spec (length (withinLastMinute now history)) 5);
          [reflexivity | lia].
  - assert (Hkept : storedTimes
                      (snd (if Nat.leb 5 (length (withinLastMinute now (storedTimes store userIP)))
                            then (NextError (createError
                                    "Too many heavy operations. Please wait before trying again."
                                    429), store)
                            else (Next, set store userIP
                                    (withinLastMinute now (storedTimes store userIP) ++ [now]))))
                      ip
                    = storedTimes store ip).
    { destruct (Nat.leb 5 _); cbn [snd]; [reflexivity|].
      unfold storedTimes at 1. now rewrite get_set_other. }
    rewrite andb_false_r, app_nil_r. split; [|intros E; contradiction].
    split; [|split].
    + intros a Ha. specialize (Hpast a Ha). lia.
    + intros now' Hnow'. rewrite Hkept. apply Hsame. lia.
    + exact Hwindow.
Qed.

Lemma limiter_run (ip : string) (before : list (string * Z)) :
  forall (store : RateLimitStore) (history : list Z) (clock : Z) (rest : list (string * Z)),
    monotoneFrom clock (before ++ rest) ->
    limiterInvariant ip store history clock ->
    exists clock',
      monotoneFrom clock' rest /\
      limiterInvariant ip (storeAfter before store)
                       (history ++ acceptedTimes ip before store) clock'.
Proof.
  induction before as [|[userIP now] before IH]; intros store history clock rest Hmono Hinv.
  - exists clock. simpl. rewrite app_nil_r. auto.
  - cbn [app monotoneFrom] in Hmono. destruct Hmono as [Hclock Hmono].
    destruct (limiter_step ip userIP now clock store history Hinv Hclock) as [Hstep _].
    destruct (IH _ _ _ rest Hmono Hstep) as (clock' & Hrest & Hinv').
    exists clock'. split; [assumption|].
    cbn [storeAfter acceptedTimes].
    destruct (heavyOperationLimiter userIP now store) as [d store'] eqn:Eh.
    cbn [fst snd] in *. now rewrite app_assoc.
Qed.

Lemma decisions_app (before rest : list (string * Z)) : forall store,
  decisions (before ++ rest) store
  = decisions before store ++ decisions rest (storeAfter before store).
Proof.
  induction before as [|[userIP now] before IH]; intros store; [reflexivity|].
  cbn [app decisions storeAfter]. now rewrite IH.
Qed.

Lemma decisions_length (requests : list (string * Z)) : forall store,
  length (decisions requests store) = length requests.
Proof.
  induction requests as [|[userIP now] requests IH]; intros store; [reflexivity|].
  cbn [decisions length]. now rewrite IH.
Qed.

Lemma empty_store_invariant (ip : string) (clock : Z) :
  limiterInvariant ip [] [] clock.
Proof.
  split; [|split].
  - intros a [].
  - reflexivity.
  - intros t. simpl. lia.
Qed.

(** X16. The limiter of heavy operations.  On a process that starts with
    no store and a clock that never goes back, a request is let through
    exactly when fewer than five requests of the same address were let
    through less than a minute before it, and is otherwise answered with the
    429 error; requests that were refused and requests of other addresses
    do not count.  Hence in no period of one minute are more than five
    requests of one address let through. *)
Theorem limiter_lets_five_a_minute (start : Z) (requests : list (string * Z)) :
  monotoneFrom start requests ->
  (forall before ip now after,
      requests = before ++ (ip, now) :: after ->
      nth_error (decisions requests []) (length before)
      = Some (if Nat.ltb (length (withinLastMinute now (acceptedTimes ip before []))) 5
              then Next
              else NextError tooManyHeavyOperations)) /\
  (forall ip t, length (inMinuteEndingAt t (acceptedTimes ip requests [])) <= 5).
Proof.
  intros Hmono. split.
  - intros before ip now after ->.
    destruct (limiter_run ip before [] [] start ((ip, now) :: after) Hmono
                          (empty_store_invariant ip start))
      as (clock & [Hclock _] & Hinv).
    rewrite decisions_app, nth_error_app2 by (rewrite decisions_length; lia).
    rewrite decisions_length, Nat.sub_diag. cbn [decisions nth_error].
    destruct (limiter_step ip ip now clock _ _ Hinv Hclock) as [_ Hd].
    now rewrite (Hd eq_refl).
  - intros ip t.
    destruct (limiter_run ip requests [] [] start [] ltac:(now rewrite app_nil_r)
                          (empty_store_invariant ip start))
      as (clock & _ & _ & _ & Hwindow).
    apply Hwindow.
Qed.

Lemma limiter_lets_five_a_minute_witness :
  nth_error (decisions [("10.0.0.1", 0); ("10.0.0.1", 10); ("10.0.0.1", 20);
                        ("10.0.0.1", 30); ("10.0.0.2", 35); ("10.0.0.1", 40);
                        ("10.0.0.1", 59999); ("10.0.0.1", 60000)]%Z [])
            6
  = Some (NextError tooManyHeavyOperations).
Proof.
  exact (proj1 (limiter_lets_five_a_minute 0
                  [("10.0.0.1", 0); ("10.0.0.1", 10); ("10.0.0.1", 20);
                   ("10.0.0.1", 30); ("10.0.0.2", 35); ("10.0.0.1", 40);
                   ("10.0.0.1", 59999); ("10.0.0.1", 60000)]%Z
                  ltac:(simpl; lia))
               [("10.0.0.1", 0); ("10.0.0.1", 10); ("10.0.0.1", 20);
                ("10.0.0.1", 30); ("10.0.0.2", 35); ("10.0.0.1", 40)]%Z
               "10.0.0.1" 59999%Z [("10.0.0.1", 60000%Z)] eq_refl).
Defined.

End LimiterFacts.

(* ================================================================== *)
(** * The error middleware *)
(* ================================================================== *)

Module ErrorHandlerFacts.
Import ErrorHandler.

(** X17. The error middleware.  An error made by [createError] is answered
    with its own status and message under every [NODE_ENV].  A plain [Error]
    is answered with 500, and with its message except in production, where
    the message is [Internal server error].  For every error the status
    does not depend on [NODE_ENV]; the message depends on it only for an
    error that is not operational; and the error itself is part of the
    answer exactly in development. *)
Theorem errorHandler_answers (NODE_ENV : option string) :
  (forall m s,
      let r := errorHandler NODE_ENV (createError m s) in
      status r = s /\ errorStatusCode r = s /\ errorMessage r = m) /\
  (forall m,
      let r := errorHandler NODE_ENV (plainError m) in
      status r = 500 /\ errorStatusCode r = 500 /\
      errorMessage r = if match NODE_ENV with
                          | Some e => String.eqb e "production"
                          | None => false
                          end
                       then "Internal server error" else m) /\
  (forall e,
      status (errorHandler NODE_ENV e) = status (errorHandler None e) /\
      errorStatusCode (errorHandler NODE_ENV e) = status (errorHandler NODE_ENV e) /\
      (isOperational e = true ->
       errorMessage (errorHandler NODE_ENV e) = errorMessage (errorHandler None e)) /\
      (exposed (errorHandler NODE_ENV e) = Some e <-> NODE_ENV = Some "development") /\
      (exposed (errorHandler NODE_ENV e) = None <-> NODE_ENV <> Some "development")).
Proof.
  split; [|split].
  - intros m s. unfold errorHandler, createError, codeIs. cbn.
    rewrite andb_false_r. repeat split; reflexivity.
  - intros m. unfold errorHandler, plainError, codeIs. cbn.
    rewrite andb_true_r. repeat split; reflexivity.
  - intros e. unfold errorHandler.
    set (decided := if codeIs e "ENOENT" then _ else _).
    destruct decided as [s m].
    cbn [status errorStatusCode errorMessage exposed].
    split; [reflexivity|]. split; [reflexivity|]. split; [|split].
    + intros ->. cbn [negb]. now rewrite andb_false_r.
    + destruct NODE_ENV as [env|]; [|split; discriminate].
      destruct (String.eqb_spec env "development") as [->|Hne].
      * split; reflexivity.
      * split; [discriminate|]. intros [= E]. contradiction.
    + destruct NODE_ENV as [env|]; [|split; [discriminate | reflexivity]].
      destruct (String.eqb_spec env "development") as [->|Hne].
      * split; [discriminate|]. intros H. now contradiction H.
      * split; [|reflexivity]. intros _ [= E]. contradiction.
Qed.

End ErrorHandlerFacts.

(* ================================================================== *)
(** * The paged listing *)
(* ================================================================== *)

Module ListingFacts.
Import CSVService Database CSVController CSVController.Users ListingPages Spec.

Lemma nth_chunks {A} (size : nat) (k : nat) : forall (l : list A),
  0 < size ->
  nth k (chunks size l) [] = firstn size (skipn (k * size) l).
Proof.
  induction k as [|k IH]; intros l Hsize.
  - cbn [Nat.mul skipn]. destruct l as [|x l].
    + now rewrite firstn_nil.
    + now rewrite (PersisterFacts.chunks_cons size Hsize) by discriminate.
  - destruct l as [|x l].
    + rewrite skipn_nil, firstn_nil. reflexivity.
    + rewrite (PersisterFacts.chunks_cons size Hsize) by discriminate.
      cbn [nth]. rewrite IH by assumption. rewrite skipn_skipn.
      do 2 f_equal. simpl. lia.
Qed.

Lemma ceilDiv_count (len size : nat) :
  0 < size ->
  ceilDiv (Z.of_nat len) (Z.of_nat size) = Z.of_nat ((len + size - 1) / size).
Proof.
  intros Hsize. unfold ceilDiv.
  rewrite Nat2Z.inj_div.
  replace (Z.of_nat (len + size - 1)) with (Z.of_nat len + Z.of_nat size - 1)%Z by lia.
  set (a := Z.of_nat len). set (b := Z.of_nat size).
  assert (Hb : (0 < b)%Z) by (subst b; lia).
  pose proof (Z.mul_div_le (- a) b Hb) as H1.
  pose proof (Z.mul_succ_div_gt (- a) b Hb) as H2.
  set (q := (- a / b)%Z) in *. clearbody a b q.
  apply (Z.div_unique_pos _ _ _ (a + b - 1 + b * q)%Z); lia.
Qed.

Lemma map_nth_from_one {A} (d : A) (l : list A) :
  map (fun p => nth (p - 1) l d) (seq 1 (length l)) = l.
Proof.
  rewrite <- seq_shift, map_map.
  rewrite (map_ext _ (fun i => nth i l d))
    by (intros i; cbn [Nat.sub]; now rewrite Nat.sub_0_r).
  induction l as [|x l IH]; [reflexivity|].
  cbn [length seq map nth]. f_equal.
  rewrite <- seq_shift, map_map. exact IH.
Qed.

Lemma getUsers_page {Row} (queryLimit : option Z) (rows : list Row) (p : nat) :
  (1 <= intOr queryLimit 10)%Z -> safeInteger (intOr queryLimit 10) -> 1 <= p ->
  safeInteger ((Z.of_nat p - 1) * intOr queryLimit 10) ->
  getUsers (Some (Z.of_nat p)) queryLimit rows
  = Responded 200 "Users retrieved successfully"
      {| users := nth (p - 1) (chunks (Z.to_nat (intOr queryLimit 10)) rows) [];
         pagination :=
           {| currentPage := Z.of_nat p;
              totalPages :=
                Z.of_nat (length (chunks (Z.to_nat (intOr queryLimit 10)) rows));
              totalRecords := Z.of_nat (length rows);
              limit := intOr queryLimit 10 |} |}.
Proof.
  unfold safeInteger. intros Hlimit Hsafe Hp Hoffset. unfold getUsers.
  assert (Epage : intOr (Some (Z.of_nat p)) 1 = Z.of_nat p).
  { unfold intOr. destruct (Z.eqb_spec (Z.of_nat p) 0); [lia | reflexivity]. }
  rewrite Epage. set (size := intOr queryLimit 10) in *.
  unfold UserListing.getUsers, UserListing.selectPage, UserListing.selectCount,
    UserListing.maxBigint.
  assert (E1 : (size <? 0)%Z = false) by (apply Z.ltb_ge; lia).
  assert (E2 : ((Z.of_nat p - 1) * size <? 0)%Z = false) by (apply Z.ltb_ge; nia).
  assert (E3 : (9223372036854775807 <? size)%Z = false) by (apply Z.ltb_ge; lia).
  assert (E4 : (9223372036854775807 <? (Z.of_nat p - 1) * size)%Z = false)
    by (apply Z.ltb_ge; lia).
  rewrite E1, E2, E3, E4. cbn [orb bind UserListing.users UserListing.total].
  assert (Hsize : 0 < Z.to_nat size) by lia.
  rewrite (nth_chunks _ _ _ Hsize).
  rewrite (PersisterFacts.chunks_count (Z.to_nat size) Hsize).
  rewrite <- (ceilDiv_count _ _ Hsize). rewrite Z2Nat.id by lia.
  do 4 f_equal. nia.
Qed.

(** X18. The pages of the listing.  For a limit of at least 1 (10 when
    none is given) and a table, both within the safe integers: the pages 1
    to [totalPages], one after the other, are the rows of the table in the
    order of their ids; every page from 1 on whose offset is a safe integer
    is answered with status 200, [totalRecords] the number of rows and the
    same [totalPages]; of these, the pages up to [totalPages] have at least
    one row and at most [limit] rows, and the later ones are empty. *)
Theorem listing_pages {Row : Type} (queryLimit : option Z) (rows : list Row) :
  (1 <= intOr queryLimit 10)%Z -> safeInteger (intOr queryLimit 10) ->
  safeInteger (Z.of_nat (length rows)) ->
  let n := Z.to_nat (pageCount queryLimit rows) in
  concat (map (fun p => pageOf queryLimit rows (Z.of_nat p)) (seq 1 n)) = rows /\
  (forall p, 1 <= p -> safeInteger ((Z.of_nat p - 1) * intOr queryLimit 10) ->
     (exists data,
         getUsers (Some (Z.of_nat p)) queryLimit rows
         = Responded 200 "Users retrieved successfully" data /\
         totalRecords (pagination data) = Z.of_nat (length rows) /\
         totalPages (pagination data) = Z.of_nat n /\
         currentPage (pagination data) = Z.of_nat p) /\
     (p <= n ->
      (1 <= Z.of_nat (length (pageOf queryLimit rows (Z.of_nat p)))
       <= intOr queryLimit 10)%Z) /\
     (n < p -> pageOf queryLimit rows (Z.of_nat p) = [])).
Proof.
  intros Hlimit Hsafe Hrows n.
  set (size := Z.to_nat (intOr queryLimit 10)).
  assert (Hsize : 0 < size) by (subst size; lia).
  assert (Hn : n = length (chunks size rows)).
  { subst n. unfold pageCount. unfold getUsers.
    change (intOr None 1) with 1%Z.
    unfold UserListing.getUsers, UserListing.selectPage, UserListing.selectCount,
      UserListing.maxBigint.
    assert (E1 : (intOr queryLimit 10 <? 0)%Z = false) by (apply Z.ltb_ge; lia).
    assert (E3 : (9223372036854775807 <? intOr queryLimit 10)%Z = false)
      by (apply Z.ltb_ge; unfold safeInteger in Hsafe; lia).
    change ((1 - 1) * intOr queryLimit 10)%Z with 0%Z.
    rewrite E1, E3. change (0 <? 0)%Z with false.
    change (9223372036854775807 <? 0)%Z with false.
    cbn [orb bind pagination totalPages UserListing.total].
    rewrite <- (Z2Nat.id (intOr queryLimit 10)) at 1 by lia. fold size.
    rewrite (ceilDiv_count _ _ Hsize), Nat2Z.id.
    now rewrite (PersisterFacts.chunks_count size Hsize). }
  assert (Hcount : (n * size < length rows + size)%nat).
  { rewrite Hn, (PersisterFacts.chunks_count size Hsize).
    pose proof (Nat.Div0.mul_div_le (length rows + size - 1) size). lia. }
  assert (Hpage : forall p, 1 <= p ->
            safeInteger ((Z.of_nat p - 1) * intOr queryLimit 10) ->
            pageOf queryLimit rows (Z.of_nat p) = nth (p - 1) (chunks size rows) []).
  { intros p Hp Ho. unfold pageOf. now rewrite getUsers_page. }
  assert (Hwithin : forall p, 1 <= p <= n ->
            safeInteger ((Z.of_nat p - 1) * intOr queryLimit 10)).
  { intros p Hp. unfold safeInteger in *.
    assert ((p - 1) * size < length rows)%nat by nia.
    replace (intOr queryLimit 10) with (Z.of_nat size) by (subst size; lia).
    rewrite Z.abs_eq by nia. nia. }
  split.
  - rewrite (map_ext_in _ (fun p => nth (p - 1) (chunks size rows) [])).
    + rewrite Hn, map_nth_from_one. apply (PersisterFacts.concat_chunks size Hsize).
    + intros p Hp. apply in_seq in Hp. apply Hpage; [lia|]. apply Hwithin. lia.
  - intros p Hp Ho. split; [|split].
    + rewrite getUsers_page by assumption. eexists. split; [reflexivity|].
      cbn [pagination totalRecords totalPages currentPage].
      fold size. rewrite Hn. repeat split.
    + intros Hle. rewrite Hpage by assumption.
      pose proof (PersisterFacts.chunks_sizes size Hsize rows) as Hall.
      rewrite Forall_forall in Hall.
      specialize (Hall (nth (p - 1) (chunks size rows) [])
                       ltac:(apply nth_In; lia)).
      subst size. lia.
    + intros Hlt. rewrite Hpage by assumption. apply nth_overflow. lia.
Qed.

Lemma listing_pages_witness :
  concat (map (fun p => pageOf (Some 2%Z) [1; 2; 3; 4; 5] (Z.of_nat p)) (seq 1 3))
  = [1; 2; 3; 4; 5].
Proof.
  exact (proj1 (listing_pages (Some 2%Z) [1; 2; 3; 4; 5]
                  ltac:(simpl; lia) ltac:(unfold safeInteger; simpl; lia)
                  ltac:(unfold safeInteger; simpl; lia))).
Defined.

(** X19. What the listing refuses.  For a page and a limit within the safe
    integers whose offset is one too, the handler forwards an error of the
    store exactly when the page or the limit is negative; nothing checks
    them before the statement is sent.  Whatever the page, a limit above the
    greatest [bigint] is refused as well.  A page or a limit of 0, like one
    that is absent or no number, is replaced by 1 and by 10. *)
Theorem listing_refuses_negative {Row : Type} (queryPage queryLimit : option Z)
        (rows : list Row) :
  (safeInteger (intOr queryPage 1) -> safeInteger (intOr queryLimit 10) ->
   safeInteger ((intOr queryPage 1 - 1) * intOr queryLimit 10) ->
   (getUsers queryPage queryLimit rows = Forwarded queryError <->
    (intOr queryPage 1 < 0 \/ intOr queryLimit 10 < 0)%Z) /\
   ((forall data, getUsers queryPage queryLimit rows
                  <> Responded 200 "Users retrieved successfully" data) <->
    (intOr queryPage 1 < 0 \/ intOr queryLimit 10 < 0)%Z)) /\
  ((UserListing.maxBigint < intOr queryLimit 10)%Z ->
   getUsers queryPage queryLimit rows = Forwarded queryError) /\
  getUsers (Some 0%Z) queryLimit rows = getUsers None queryLimit rows /\
  getUsers queryPage (Some 0%Z) rows = getUsers queryPage None rows.
Proof.
  assert (Hp : intOr queryPage 1 <> 0%Z).
  { unfold intOr. destruct queryPage as [z|]; [|discriminate].
    destruct (Z.eqb_spec z 0); [discriminate | assumption]. }
  assert (Hl : intOr queryLimit 10 <> 0%Z).
  { unfold intOr. destruct queryLimit as [z|]; [|discriminate].
    destruct (Z.eqb_spec z 0); [discriminate | assumption]. }
  unfold getUsers, UserListing.getUsers, UserListing.selectPage, UserListing.maxBigint,
    safeInteger.
  set (page := intOr queryPage 1) in *. set (size := intOr queryLimit 10) in *.
  clearbody page size.
  split; [|split; [|split; reflexivity]].
  - intros Spage Ssize Soffset.
    assert (E3 : (9223372036854775807 <? size)%Z = false) by (apply Z.ltb_ge; lia).
    assert (E4 : (9223372036854775807 <? (page - 1) * size)%Z = false)
      by (apply Z.ltb_ge; lia).
    rewrite E3, E4, !orb_false_r.
    split.
    + destruct (Z.ltb_spec size 0) as [Hneg|Hpos]; cbn [orb bind].
      * split; [intros _; now right | reflexivity].
      * destruct (Z.ltb_spec ((page - 1) * size) 0) as [Hoff|Hoff]; cbn [bind].
        -- split; [intros _; left; nia | reflexivity].
        -- split; [discriminate|]. intros [H|H]; [nia | lia].
    + destruct (Z.ltb_spec size 0) as [Hneg|Hpos]; cbn [orb bind].
      * split; [intros _; now right | discriminate].
      * destruct (Z.ltb_spec ((page - 1) * size) 0) as [Hoff|Hoff]; cbn [bind].
        -- split; [intros _; left; nia | discriminate].
        -- split; [|intros [H|H]; [nia | lia]].
           intros H. exfalso. eapply H. reflexivity.
  - intros Hbig.
    assert (E3 : (9223372036854775807 <? size)%Z = true) by (apply Z.ltb_lt; lia).
    rewrite E3, orb_true_r. cbn [orb bind]. reflexivity.
Qed.

Lemma listing_refuses_negative_witness :
  getUsers (Some (-1)%Z) (Some 5%Z) [1; 2; 3] = Forwarded queryError.
Proof.
  apply (proj1 (listing_refuses_negative (Some (-1)%Z) (Some 5%Z) [1; 2; 3])).
  - unfold safeInteger. simpl. lia.
  - unfold safeInteger. simpl. lia.
  - unfold safeInteger. simpl. lia.
  - left. simpl. lia.
Defined.

End ListingFacts.

(* ================================================================== *)
(** * Dot paths and the prototype chain *)
(* ================================================================== *)

Module PrototypeFacts.
Import JS CSVService Spec Vocabulary Prototypes.

Section Chain.
Context {num : JSNumber}.

Lemma isProto_ordinary (key : string) : key <> "__proto__" -> isProto key = false.
Proof. intros H. now apply String.eqb_neq. Qed.

Lemma chain_walk_step (current objectPrototype : object) key key2 rest v :
  Prototypes.setNestedProperty_walk current objectPrototype (key :: key2 :: rest) v
  = match getProp current key with
    | Some (VObj child) =>
        below current key
              (Prototypes.setNestedProperty_walk child objectPrototype (key2 :: rest) v)
    | Some _ =>
        below current key
              (Prototypes.setNestedProperty_walk emptyObject objectPrototype
                                                 (key2 :: rest) v)
    | None =>
        if isProto key then
          walkInObjectPrototype (key2 :: rest) [] current objectPrototype v
        else
          match getProp objectPrototype key with
          | Some (VObj _) =>
              walkInObjectPrototype (key2 :: rest) [key] current objectPrototype v
          | _ =>
              below current key
                    (Prototypes.setNestedProperty_walk emptyObject objectPrototype
                                                       (key2 :: rest) v)
          end
    end.
Proof. reflexivity. Qed.

(** Along a path without [__proto__], from a clean [Object.prototype], the
    walk on the prototype chain is the walk on own properties, and
    [Object.prototype] stays clean. *)
Lemma ordinary_walk_agrees (keys : list string) : forall (current : object) (v : jsval),
  ordinaryPath keys ->
  Prototypes.setNestedProperty_walk current emptyObject keys v
  = Returns (CSVService.setNestedProperty_walk current keys v) emptyObject.
Proof.
  induction keys as [|key rest IH]; intros current v Hord; [reflexivity|].
  inversion Hord as [|? ? Hkey Hrest]; subst.
  destruct rest as [|key2 rest].
  - cbn [Prototypes.setNestedProperty_walk CSVService.setNestedProperty_walk].
    rewrite (isProto_ordinary key Hkey). now destruct (getProp current key).
  - rewrite chain_walk_step, MapperMore.walk_step.
    rewrite (isProto_ordinary key Hkey).
    change (getProp emptyObject key) with (@None jsval).
    destruct (getProp current key) as [[| | |child]|];
      rewrite IH by assumption; reflexivity.
Qed.

(** C9.  The frame property fails on the code: the path
    [__proto__.polluted] makes the walk step from the object to
    [Object.prototype] and assign there.  The object gets no property of its
    own, and the key [polluted], which is not the first segment of the path
    and which read [undefined] before the call, reads the value afterwards,
    on this object and on every other object that has no such property of
    its own.  One more [__proto__] on the path makes the call throw a
    [TypeError], and the path [__proto__] alone stores a text nowhere. *)
Theorem proto_path_writes_into_Object_prototype :
  Prototypes.setNestedProperty emptyObject emptyObject "__proto__.polluted" (VStr "yes")
  = Returns emptyObject [("polluted", VStr "yes")] /\
  (forall obj : object, getProp obj "polluted" = None ->
     readProperty emptyObject obj "polluted" = Undefined /\
     readProperty [("polluted", VStr "yes")] obj "polluted" = Inherited (VStr "yes")) /\
  Prototypes.setNestedProperty emptyObject emptyObject "__proto__.__proto__.x" (VStr "yes")
  = ThrowsTypeError emptyObject emptyObject /\
  Prototypes.setNestedProperty emptyObject emptyObject "__proto__" (VStr "yes")
  = Returns emptyObject emptyObject.
Proof.
  split; [reflexivity|]. split; [|split; reflexivity].
  intros obj Hown. unfold readProperty. rewrite Hown. split; reflexivity.
Qed.

Lemma walkInObjectPrototype_step key key2 rest at_path (obj objectPrototype : object) v :
  walkInObjectPrototype (key :: key2 :: rest) at_path obj objectPrototype v
  = let current := nodeAt objectPrototype at_path in
    let assign key x := updateAt objectPrototype at_path (fun c => setProp c key x) in
    match at_path, isProto key with
    | [], true => ThrowsTypeError obj objectPrototype
    | _, _ =>
        match getProp current key with
        | Some (VObj _) =>
            walkInObjectPrototype (key2 :: rest) (at_path ++ [key]) obj objectPrototype v
        | Some _ =>
            walkInObjectPrototype (key2 :: rest) (at_path ++ [key]) obj
                                  (assign key (VObj emptyObject)) v
        | None =>
            if isProto key then
              walkInObjectPrototype (key2 :: rest) [] obj objectPrototype v
            else
              match at_path, getProp objectPrototype key with
              | _ :: _, Some (VObj _) =>
                  walkInObjectPrototype (key2 :: rest) [key] obj objectPrototype v
              | _, _ =>
                  walkInObjectPrototype (key2 :: rest) (at_path ++ [key]) obj
                                        (assign key (VObj emptyObject)) v
              end
        end
    end.
Proof. reflexivity. Qed.

(** Once the walk is in the tree of [Object.prototype] it does not come
    back: the Record is as it was when the walk left it. *)
Lemma walkInObjectPrototype_keeps_record keys :
  forall at_path (obj objectPrototype : object) v,
    recordOf (walkInObjectPrototype keys at_path obj objectPrototype v) = obj.
Proof.
  induction keys as [|key rest IH]; intros at_path obj objectPrototype v; [reflexivity|].
  destruct rest as [|key2 rest].
  - cbn [walkInObjectPrototype].
    repeat match goal with
           | |- context [match ?x with _ => _ end] => destruct x
           end; reflexivity.
  - rewrite walkInObjectPrototype_step. cbv zeta.
    repeat match goal with
           | |- context [match ?x with _ => _ end] => destruct x
           | |- context [if ?x then _ else _] => destruct x
           end; try reflexivity; apply IH.
Qed.

(** X21. In a process whose [Object.prototype] is clean, a path whose
    first segment is [__proto__] stores nothing in an object that has no
    property of that name of its own: however the call ends, by returning,
    by replacing the prototype or by throwing, the own properties of the
    object are the ones it had. *)
Theorem proto_first_segment_leaves_the_object
        (obj : object) (path : string) (rest : list string) (v : jsval) :
  split DOT path = "__proto__" :: rest ->
  getProp obj "__proto__" = None ->
  recordOf (Prototypes.setNestedProperty emptyObject obj path v) = obj.
Proof.
  intros Hpath Hown. unfold Prototypes.setNestedProperty. rewrite Hpath.
  destruct rest as [|key2 rest].
  - cbn [Prototypes.setNestedProperty_walk]. rewrite Hown.
    change (isProto "__proto__") with true. now destruct v.
  - rewrite chain_walk_step, Hown. change (isProto "__proto__") with true.
    apply walkInObjectPrototype_keeps_record.
Qed.

(** X5. Along a path without [__proto__], in a process whose
    [Object.prototype] is clean, assigning a path twice keeps the second
    value only: the second call leaves what it would have left alone, so a
    call repeated with the same value changes nothing more; [Object.prototype]
    stays clean. *)
Theorem setNestedProperty_last_write_wins (obj : object) (path : string) (v w : jsval) :
  ordinaryHeader path ->
  exists once,
    Prototypes.setNestedProperty emptyObject obj path v = Returns once emptyObject /\
    Prototypes.setNestedProperty emptyObject once path w
    = Prototypes.setNestedProperty emptyObject obj path w /\
    Prototypes.setNestedProperty emptyObject once path v = Returns once emptyObject.
Proof.
  intros Hord. unfold Prototypes.setNestedProperty.
  rewrite !ordinary_walk_agrees by assumption.
  eexists. split; [reflexivity|].
  rewrite !ordinary_walk_agrees by assumption.
  now rewrite !MapperMore.walk_overwrites.
Qed.

(** X20. The frame of an assignment along a path without [__proto__], in a
    process whose [Object.prototype] is clean: the call returns, leaves
    [Object.prototype] clean, leaves every top-level key other than the first
    segment of the path bound to the value it had before (or unbound, if it
    was), leaves below the top level every entry that is neither on the path
    nor below its end as it was, and binds the end of the path to the
    value. *)
Theorem setNestedProperty_frame_on_ordinary_paths
        (obj : object) (path : string) (v : jsval) :
  ordinaryHeader path ->
  exists obj',
    Prototypes.setNestedProperty emptyObject obj path v = Returns obj' emptyObject /\
    (forall key, key <> hd EmptyString (split DOT path) ->
                 getProp obj' key = getProp obj key) /\
    (forall q, ~ isPrefix q (split DOT path) -> ~ isPrefix (split DOT path) q ->
               getPath obj' q = getPath obj q) /\
    getPath obj' (split DOT path) = Some v.
Proof.
  intros Hord. unfold Prototypes.setNestedProperty.
  rewrite ordinary_walk_agrees by assumption.
  eexists. split; [reflexivity|].
  pose proof (MapperFacts.split_not_empty DOT path) as Hne.
  split; [|split].
  - intros key Hkey.
    destruct (split DOT path) as [|k0 rest]; [congruence|]. simpl in Hkey.
    change (getPath (CSVService.setNestedProperty_walk obj (k0 :: rest) v) [key]
            = getPath obj [key]).
    apply MapperFacts.walk_frame; simpl.
    + intros [H _]. congruence.
    + intros [H _]. congruence.
  - intros q. apply MapperFacts.walk_frame.
  - now apply MapperFacts.walk_writes.
Qed.

End Chain.

Lemma proto_first_segment_leaves_the_object_witness :
  recordOf (Prototypes.setNestedProperty (num := IntegerNumbers) emptyObject
              [("age", VNum (ofZ 30))] "__proto__.age" (VStr "x"))
  = [("age", VNum (ofZ 30))].
Proof.
  apply (proto_first_segment_leaves_the_object (num := IntegerNumbers)
           [("age", VNum (ofZ 30))] "__proto__.age" ["age"] (VStr "x"));
    reflexivity.
Defined.

Lemma setNestedProperty_last_write_wins_witness :
  exists once,
    Prototypes.setNestedProperty (num := IntegerNumbers) emptyObject
                                 [("a", VStr "x")] "a.b" (VStr "1")
    = Returns once emptyObject /\
    Prototypes.setNestedProperty emptyObject once "a.b" (VStr "2")
    = Returns [("a", VObj [("b", VStr "2")])] emptyObject.
Proof.
  destruct (setNestedProperty_last_write_wins (num := IntegerNumbers)
              [("a", VStr "x")] "a.b" (VStr "1") (VStr "2")
              ltac:(vm_compute; repeat constructor; intros H; discriminate H))
    as (once & Hfirst & Hsecond & _).
  exists once. split; [exact Hfirst|]. rewrite Hsecond. reflexivity.
Defined.

Lemma setNestedProperty_frame_on_ordinary_paths_witness :
  exists obj',
    Prototypes.setNestedProperty (num := IntegerNumbers) emptyObject
      [("name", VObj [("firstName", VStr "Jane")]); ("age", VNum (ofZ 30))]
      "name.lastName" (VStr "Doe")
    = Returns obj' emptyObject /\
    getProp obj' "age" = Some (VNum (ofZ 30)) /\
    getPath obj' ["name"; "firstName"] = Some (VStr "Jane").
Proof.
  destruct (setNestedProperty_frame_on_ordinary_paths (num := IntegerNumbers)
              [("name", VObj [("firstName", VStr "Jane")]); ("age", VNum (ofZ 30))]
              "name.lastName" (VStr "Doe")
              ltac:(vm_compute; repeat constructor; intros H; discriminate H))
    as (obj' & Hcall & Htop & Hdeep & _).
  exists obj'. split; [exact Hcall|]. split.
  - rewrite Htop; [reflexivity | discriminate].
  - rewrite Hdeep; [reflexivity | |]; simpl; intros [_ [H _]]; discriminate.
Defined.

End PrototypeFacts.
